(** * qickdawg pulse programs: LockinODMR_johns, RabiSweep_johns, T1DelaySweep

    A shallow embedding of the three program classes of
    [qickdawg/nvpulsing] and of the numpy post-processing they apply to an
    acquisition.

    Conventions of the model.
    - Python objects live in a state that is threaded through every method:
      the program object [self] and a heap of numpy buffers.  A numpy array
      is a view (buffer, offset, axes) onto a buffer, so that aliasing
      between arrays is visible.
    - Numbers are exact rationals ([Qc]), so rounding and overflow of float64
      are outside the model.  A division by zero, which numpy answers with a
      warning and a non-finite entry, yields [0] as [Qcdiv] does; no
      exception is raised in either case.  The two agree that the method
      goes on, and on the shape of what it computes, not on the entry: where
      a statement below gives the values of an array that the analysis
      returns, it is made for a readout_integration_treg other than zero,
      leading axes that are not empty and, for a contrast, references other
      than zero.
    - The control library (qick) is a recorder: every call a method makes on
      it is appended to [emitted], and the call itself never fails.  The
      library can refuse a call that the model records (the constructor of a
      sweep, for one, divides by the number of points minus one): what is
      stated below of the sweep that an [initialize] registers and of the
      attributes that it needs is stated of a run that completes, and a run
      that completes with the library completes in the model, with the same
      calls. *)

From Stdlib Require Import QArith Qcanon List Lia Field.
From stdpp Require Import base option list gmap strings numbers.

Local Open Scope nat_scope.

(** ** Python values, exceptions, results *)

Inductive exn :=
  | ValueError
  | IndexError
  | AxisError
  | UnboundLocalError
  | AttributeError
  | TypeError
  | AssertionError.

Inductive result (X : Type) :=
  | Ok (x : X)
  | Raise (e : exn).
Arguments Ok {X} x.
Arguments Raise {X} e.

(** The scalar values a configuration attribute or a call argument holds.
    Python's int and float are both [VNum]. *)
Inductive value :=
  | VNone
  | VBool (b : bool)
  | VNum (q : Qc)
  | VStr (s : string).

Definition num (z : Z) : value := VNum (Qc_of_Z z).

(** [bool] is a subclass of [int]: [True] counts as 1 in arithmetic. *)
Definition as_number (v : value) : result Qc :=
  match v with
  | VNum q => Ok q
  | VBool b => Ok (if b then 1%Qc else 0%Qc)
  | _ => Raise TypeError
  end.

(** [a + b] *)
Definition py_add (a b : value) : result value :=
  match a, b with
  | VStr s, VStr t => Ok (VStr (s +:+ t))
  | VStr _, _ | _, VStr _ => Raise TypeError
  | _, _ =>
      match as_number a, as_number b with
      | Ok x, Ok y => Ok (VNum (x + y))
      | _, _ => Raise TypeError
      end
  end.

Fixpoint repeat_string (n : nat) (s : string) : string :=
  match n with
  | O => EmptyString
  | S n' => s +:+ repeat_string n' s
  end.

(** [k * v] and [v * k] for an int literal [k]; a string is repeated. *)
Definition py_mul_int (k : Z) (v : value) : result value :=
  match v with
  | VStr s => Ok (VStr (repeat_string (Z.to_nat k) s))
  | _ =>
      match as_number v with
      | Ok x => Ok (VNum (Qc_of_Z k * x))
      | Raise e => Raise e
      end
  end.

(** [v > k] for an int literal [k] *)
Definition py_gt_int (v : value) (k : Z) : result bool :=
  match as_number v with
  | Ok x => Ok (bool_decide (Qc_of_Z k < x)%Qc)
  | Raise e => Raise e
  end.

(** [v == s] for a string literal [s]; [==] never raises. *)
Definition py_eq_str (v : value) (s : string) : bool :=
  match v with
  | VStr t => bool_decide (t = s)
  | _ => false
  end.

(** Truth value of [v] in [if v:] *)
Definition truthy (v : value) : bool :=
  match v with
  | VNone => false
  | VBool b => b
  | VNum q => negb (bool_decide (q = 0%Qc))
  | VStr s => negb (bool_decide (s = EmptyString))
  end.

(** [v is False] *)
Definition is_False (v : value) : bool :=
  match v with
  | VBool false => true
  | _ => false
  end.

(** [v / d] for a float literal [d] other than zero: true division, which
    yields a float.  (An int too large for a float, on which Python raises
    OverflowError, has no counterpart among the rationals.) *)
Definition py_div_float (v : value) (d : Qc) : result Qc :=
  match as_number v with
  | Ok x => Ok (x / d)%Qc
  | Raise e => Raise e
  end.

(** [v * f] for a float [f]: a number times [f]; a string or [None] times a
    float is a TypeError. *)
Definition py_mul_float (v : value) (f : Qc) : result Qc :=
  match as_number v with
  | Ok x => Ok (x * f)%Qc
  | Raise e => Raise e
  end.

(** [f * v] for a float [f] *)
Definition py_float_mul (f : Qc) (v : value) : result Qc :=
  match as_number v with
  | Ok x => Ok (f * x)%Qc
  | Raise e => Raise e
  end.

(** ** The control library as seen from the program classes *)

Record QickRegister := {
  reg_ch : value;
  reg_name : string;
  reg_init : option value
}.

(** [QickSweep(prog, reg, start, stop, expts)] and
    [NVQickSweep(prog, reg, start, stop, expts, ...)]; [sw_extra] holds the
    remaining keyword arguments in the order they are written. *)
Record sweep := {
  sw_class : string;
  sw_reg : QickRegister;
  sw_start : value;
  sw_stop : value;
  sw_expts : value;
  sw_extra : list (string * value)
}.

Inductive hwcall :=
  | declare_readout (ch freq length : value) (sel : string)
  | declare_gen (ch nqz : value)
  | set_pulse_registers (ch : value) (kw : list (string * value))
  | default_pulse_registers (ch : value) (kw : list (string * value))
  | get_gen_reg (ch : value) (name : string)
  | new_gen_reg (ch : value) (name : string) (init_val : value)
  | add_sweep (s : sweep)
  | synci (t : value)
  | sync (r : QickRegister)
  | sync_all (t : value)
  | wait_all
  | pulse (ch : value) (t : option value)
  | trigger (adcs : option (list value)) (pins : list value)
            (width adc_trig_offset : value) (t : option value)
  | ttl_readout
  | parent_acquire (arg : list value) (kwarg : gmap string value).

(** The method a call goes to. *)
Definition call_name (c : hwcall) : string :=
  match c with
  | declare_readout _ _ _ _ => "declare_readout"
  | declare_gen _ _ => "declare_gen"
  | set_pulse_registers _ _ => "set_pulse_registers"
  | default_pulse_registers _ _ => "default_pulse_registers"
  | get_gen_reg _ _ => "get_gen_reg"
  | new_gen_reg _ _ _ => "new_gen_reg"
  | add_sweep _ => "add_sweep"
  | synci _ => "synci"
  | sync _ => "sync"
  | sync_all _ => "sync_all"
  | wait_all => "wait_all"
  | pulse _ _ => "pulse"
  | trigger _ _ _ _ _ => "trigger"
  | ttl_readout => "ttl_readout"
  | parent_acquire _ _ => "acquire"
  end.

(** ** The program object, the heap and the monad of methods *)

Record program := {
  cfg : gmap string value;
  data_shape : list nat;
  qick_sweeps : list sweep;
  mw_frequency_register : option QickRegister;
  mw_length_register : option QickRegister;
  delay_register : option QickRegister;
  emitted : list hwcall
}.

Record pystate := {
  self : program;
  heap : list (list Qc)
}.

(** A method runs from a state to a value or an exception, and a state. *)
Definition M (X : Type) : Type := pystate -> result X * pystate.

Global Instance M_ret : MRet M := fun X x st => (Ok x, st).

Global Instance M_bind : MBind M := fun X Y f m st =>
  match m st with
  | (Ok x, st') => f x st'
  | (Raise e, st') => (Raise e, st')
  end.

Definition raise {X} (e : exn) : M X := fun st => (Raise e, st).

Definition lift {X} (r : result X) : M X := fun st => (r, st).

(** A local variable that a branch may have left unassigned. *)
Definition local {X} (o : option X) : M X :=
  match o with
  | Some x => mret x
  | None => raise UnboundLocalError
  end.

Definition get_self : M program := fun st => (Ok (self st), st).

Definition modify_self (f : program -> program) : M unit := fun st =>
  (Ok tt, {| self := f (self st); heap := heap st |}).

(** [self.cfg.name] *)
Definition attr (name : string) : M value := fun st =>
  match cfg (self st) !! name with
  | Some v => (Ok v, st)
  | None => (Raise AttributeError, st)
  end.

Definition with_emitted (c : hwcall) (p : program) : program :=
  {| cfg := cfg p; data_shape := data_shape p; qick_sweeps := qick_sweeps p;
     mw_frequency_register := mw_frequency_register p;
     mw_length_register := mw_length_register p;
     delay_register := delay_register p;
     emitted := emitted p ++ [c] |}.

Definition with_sweep (s : sweep) (p : program) : program :=
  {| cfg := cfg p; data_shape := data_shape p; qick_sweeps := qick_sweeps p ++ [s];
     mw_frequency_register := mw_frequency_register p;
     mw_length_register := mw_length_register p;
     delay_register := delay_register p;
     emitted := emitted p |}.

Definition with_mw_frequency_register (r : QickRegister) (p : program) : program :=
  {| cfg := cfg p; data_shape := data_shape p; qick_sweeps := qick_sweeps p;
     mw_frequency_register := Some r;
     mw_length_register := mw_length_register p;
     delay_register := delay_register p;
     emitted := emitted p |}.

Definition with_mw_length_register (r : QickRegister) (p : program) : program :=
  {| cfg := cfg p; data_shape := data_shape p; qick_sweeps := qick_sweeps p;
     mw_frequency_register := mw_frequency_register p;
     mw_length_register := Some r;
     delay_register := delay_register p;
     emitted := emitted p |}.

Definition with_delay_register (r : QickRegister) (p : program) : program :=
  {| cfg := cfg p; data_shape := data_shape p; qick_sweeps := qick_sweeps p;
     mw_frequency_register := mw_frequency_register p;
     mw_length_register := mw_length_register p;
     delay_register := Some r;
     emitted := emitted p |}.

(** A call on the control library. *)
Definition emit (c : hwcall) : M unit := modify_self (with_emitted c).

(** [self.add_sweep(s)]: the library appends [s] to [self.qick_sweeps].  The
    sweep itself is built by a constructor of the library, [QickSweep(...)]
    or [NVQickSweep(...)], of which the model keeps the arguments. *)
Definition do_add_sweep (s : sweep) : M unit :=
  _ ← emit (add_sweep s); modify_self (with_sweep s).

Definition do_get_gen_reg (ch : value) (name : string) : M QickRegister :=
  _ ← emit (get_gen_reg ch name);
  mret {| reg_ch := ch; reg_name := name; reg_init := None |}.

Definition do_new_gen_reg (ch : value) (name : string) (init_val : value) : M QickRegister :=
  _ ← emit (new_gen_reg ch name init_val);
  mret {| reg_ch := ch; reg_name := name; reg_init := Some init_val |}.

(** ** numpy arrays *)

(** A buffer holds the elements of the array that owns it, in row-major
    order.  An [ndarray] is a window onto a buffer: for every axis its length
    and its stride, counted in elements. *)
Record ndarray := {
  base : nat;
  offset : nat;
  dims : list (nat * nat)
}.

Definition shape (a : ndarray) : list nat := map fst (dims a).

Definition prod_list (l : list nat) : nat := foldr Nat.mul 1 l.

Definition size (a : ndarray) : nat := prod_list (shape a).
Definition ndim (a : ndarray) : nat := length (dims a).

(** Axes of a C-contiguous array of shape [sh] whose elements are [s] apart. *)
Fixpoint c_dims (s : nat) (sh : list nat) : list (nat * nat) :=
  match sh with
  | [] => []
  | n :: sh' => (n, s * prod_list sh') :: c_dims s sh'
  end.

(** Buffer positions of the elements of a view, in row-major order. *)
Fixpoint offsets (d : list (nat * nat)) (off : nat) : list nat :=
  match d with
  | [] => [off]
  | (n, s) :: d' => flat_map (fun i => offsets d' (off + i * s)) (seq 0 n)
  end.

(** The values of a view, in row-major order.  A position outside the
    buffer would read as 0; the views that the programs build stay inside. *)
Definition contents (h : list (list Qc)) (a : ndarray) : list Qc :=
  let buf := default [] (h !! base a) in
  map (fun o => nth o buf 0%Qc) (offsets (dims a) (offset a)).

(** One entry of a subscript: [:] or an int. *)
Inductive index :=
  | Colon
  | At (k : nat).

(** Basic indexing [a[i1, ..., ik]]: a [Colon] keeps its axis, [At k] selects
    position [k] of its axis and drops the axis; out of range, and with more
    entries than axes, it is an IndexError. *)
Fixpoint getitem_aux (idx : list index) (d : list (nat * nat)) (off : nat)
  : result (nat * list (nat * nat)) :=
  match idx with
  | [] => Ok (off, d)
  | i :: idx' =>
      match d with
      | (n, s) :: d' =>
          match i with
          | Colon =>
              match getitem_aux idx' d' off with
              | Ok (o, d2) => Ok (o, (n, s) :: d2)
              | Raise e => Raise e
              end
          | At k =>
              if k <? n then getitem_aux idx' d' (off + k * s)
              else Raise IndexError
          end
      | [] => Raise IndexError
      end
  end.

(** Sum of a list, accumulated from the left as a reduction does. *)
Definition sum_list (l : list Qc) : Qc := fold_left Qcplus l 0%Qc.

(** Values of [np.mean(x, axis=0)] for [x] of shape [n :: sh] with
    [p = prod sh] and row-major values [v]; for [n = 0] numpy answers nan
    where this gives 0. *)
Definition mean_axis0 (n p : nat) (v : list Qc) : list Qc :=
  map (fun j => (sum_list (map (fun i => nth (i * p + j) v 0%Qc) (seq 0 n))
                 / Qc_of_Z (Z.of_nat n))%Qc)
      (seq 0 p).

(** A freshly allocated C-contiguous array with values [v]. *)
Definition new_array (sh : list nat) (v : list Qc) : M ndarray := fun st =>
  (Ok {| base := length (heap st); offset := 0; dims := c_dims 1 sh |},
   {| self := self st; heap := heap st ++ [v] |}).

Definition read (a : ndarray) : M (list Qc) := fun st =>
  (Ok (contents (heap st) a), st).

(** [np.reshape(a, sh)].  A one-dimensional or C-contiguous argument is
    reshaped in place, the result being a view on the same buffer; any other
    argument is copied (numpy avoids the copy in more cases; the values are
    the same). *)
Definition np_reshape (a : ndarray) (sh : list nat) : M ndarray :=
  if negb (size a =? prod_list sh) then raise ValueError
  else
    match dims a with
    | [(_, s)] => mret {| base := base a; offset := offset a; dims := c_dims s sh |}
    | _ =>
        if decide (dims a = c_dims 1 (shape a))
        then mret {| base := base a; offset := offset a; dims := c_dims 1 sh |}
        else v ← read a; new_array sh v
    end.

(** [a[idx]] *)
Definition getitem (a : ndarray) (idx : list index) : M ndarray :=
  match getitem_aux idx (dims a) (offset a) with
  | Ok (o, d) => mret {| base := base a; offset := o; dims := d |}
  | Raise e => raise e
  end.

(** [a op b] for arrays of one shape (the only case the programs need;
    numpy would broadcast arrays of different shapes).  With [Qcdiv] an
    entry divided by 0 is 0, where numpy answers inf or nan. *)
Definition np_binop (f : Qc -> Qc -> Qc) (a b : ndarray) : M ndarray :=
  if decide (shape a = shape b)
  then x ← read a; y ← read b; new_array (shape a) (zip_with f x y)
  else raise ValueError.

(** [a op x] for a number [x] *)
Definition np_scalar (f : Qc -> Qc -> Qc) (a : ndarray) (x : Qc) : M ndarray :=
  v ← read a; new_array (shape a) (map (fun e => f e x) v).

(** [a / v] for a Python scalar [v]; for [v] zero or [False] every entry
    is 0, where numpy answers inf or nan. *)
Definition np_div_value (a : ndarray) (v : value) : M ndarray :=
  t ← lift (as_number v); np_scalar Qcdiv a t.

(** [np.mean(a, axis=0)] *)
Definition np_mean_axis0 (a : ndarray) : M ndarray :=
  match dims a with
  | [] => raise AxisError
  | (n, _) :: d' =>
      v ← read a;
      new_array (map fst d') (mean_axis0 n (prod_list (map fst d')) v)
  end.

(** An [ItemAttribute]: a bag of named attributes, here arrays. *)
Abbreviation ItemAttribute := (gmap string ndarray).

(** What is outside this repository: the sweep points that the control
    library computes for a sweep, its clock conversion, and the [acquire] of
    the parent class, reached through [super()]. *)
Class qick := {
  get_sweep_pts : sweep -> list Qc;
  cycles2us : Qc -> Qc;
  super_acquire : list value -> gmap string value -> M ndarray
}.

(** [self.qick_sweeps[0].get_sweep_pts()] *)
Definition sweep_pts0 `{!qick} : M ndarray :=
  p ← get_self;
  match qick_sweeps p with
  | [] => raise IndexError
  | sw :: _ => new_array [length (get_sweep_pts sw)] (get_sweep_pts sw)
  end.

(** The [if]/[elif] chain on [len(self.data_shape)] that both classes share:
    it binds [signal] and [reference], or neither. *)
Definition separate (data : ndarray) : M (option ndarray * option ndarray) :=
  p ← get_self;
  if length (data_shape p) =? 2 then
    signal ← getitem data [Colon; At 0];
    reference ← getitem data [Colon; At 1];
    mret (Some signal, Some reference)
  else if length (data_shape p) =? 3 then
    signal ← getitem data [Colon; Colon; At 0];
    reference ← getitem data [Colon; Colon; At 1];
    mret (Some signal, Some reference)
  else if length (data_shape p) =? 4 then
    signal ← getitem data [Colon; Colon; Colon; At 0];
    reference ← getitem data [Colon; Colon; Colon; At 1];
    mret (Some signal, Some reference)
  else mret (None, None).

(** The first two statements of [analyze_results], the same in both classes. *)
Definition normalize (data : ndarray) : M ndarray :=
  p ← get_self;
  data ← np_reshape data (data_shape p);
  t ← attr "readout_integration_treg";
  np_div_value data t.

(** [self.r] for a register attribute [r] that [initialize] assigns *)
Definition reg_attr (r : program -> option QickRegister) : M QickRegister :=
  p ← get_self;
  match r p with
  | Some x => mret x
  | None => raise AttributeError
  end.

(** What a method hands back: an array or an [ItemAttribute]. *)
Inductive pyobj :=
  | Array (a : ndarray)
  | Attrs (d : ItemAttribute).

(** Modelled from the spec: [check_cfg] is a method of the parent class
    NVAveragerProgram_johns, which is not among the sources; by its name and
    its use at the head of every [initialize], it checks that [self.cfg] has
    every attribute that [required_cfg] lists, and fails otherwise. *)
Definition check_cfg (required_cfg : list string) : M unit := fun st =>
  if forallb (fun k => bool_decide (is_Some (cfg (self st) !! k))) required_cfg
  then (Ok tt, st)
  else (Raise AssertionError, st).

(** ** LockinODMR_johns *)

Module LockinODMR_johns.

Definition required_cfg : list string :=
  [ "readout_integration_treg"; "adc_channel"; "laser_gate_pmod";
    "relax_delay_treg"; "mw_channel"; "mw_nqz"; "mw_gain"; "nsweep_points";
    "pre_init"; "reps"; "laser_power" ].

Definition initialize : M unit :=
  _ ← check_cfg required_cfg;
  mw_gain ← attr "mw_gain";
  too_high ← lift (py_gt_int mw_gain 30000);
  _ ← (if too_high : bool then raise AssertionError else mret tt);
  adc_channel ← attr "adc_channel";
  length ← attr "readout_integration_treg";
  _ ← emit (declare_readout adc_channel (num 0) length "input");
  mw_channel ← attr "mw_channel";
  mw_nqz ← attr "mw_nqz";
  _ ← emit (declare_gen mw_channel mw_nqz);
  mw_channel ← attr "mw_channel";
  freq ← attr "mw_start_freg";
  gain ← attr "mw_gain";
  length ← attr "readout_integration_treg";
  _ ← emit (set_pulse_registers mw_channel
              [("style", VStr "const"); ("freq", freq); ("gain", gain);
               ("length", length); ("phase", num 0);
               ("stdysel", VStr "zero"); ("mode", VStr "oneshot")]);
  mw_channel ← attr "mw_channel";
  r ← do_get_gen_reg mw_channel "freq";
  _ ← modify_self (with_mw_frequency_register r);
  reg ← reg_attr mw_frequency_register;
  start ← attr "mw_start_fMHz";
  stop ← attr "mw_end_fMHz";
  expts ← attr "nsweep_points";
  _ ← do_add_sweep {| sw_class := "QickSweep"; sw_reg := reg; sw_start := start;
                      sw_stop := stop; sw_expts := expts; sw_extra := [] |};
  _ ← emit (synci (num 400));
  pre_init ← attr "pre_init";
  if truthy pre_init then
    mw_channel ← attr "mw_channel";
    _ ← emit (pulse mw_channel None);
    pmod ← attr "laser_gate_pmod";
    width ← attr "readout_integration_treg";
    _ ← emit (trigger None [pmod] width (num 0) None);
    a ← attr "readout_integration_treg";
    b ← attr "relax_delay_treg";
    t ← lift (py_add a b);
    emit (sync_all t)
  else mret tt.

Definition body : M unit :=
  pmod ← attr "laser_gate_pmod";
  a ← attr "readout_integration_treg";
  b ← attr "adc_trigger_offset_treg";
  width ← lift (py_add a b);
  _ ← emit (trigger (Some []) [pmod] width (num 0) (Some (num 0)));
  adc ← attr "adc_channel";
  width ← attr "readout_integration_treg";
  t ← attr "adc_trigger_offset_treg";
  _ ← emit (trigger (Some [adc]) [] width (num 0) (Some t));
  mw_channel ← attr "mw_channel";
  t ← attr "adc_trigger_offset_treg";
  _ ← emit (pulse mw_channel (Some t));
  pmod ← attr "laser_gate_pmod";
  a ← attr "readout_integration_treg";
  b ← attr "adc_trigger_offset_treg";
  width ← lift (py_add a b);
  a ← attr "readout_integration_treg";
  b ← attr "relax_delay_treg";
  ab ← lift (py_add a b);
  c ← attr "adc_trigger_offset_treg";
  t ← lift (py_add ab c);
  _ ← emit (trigger (Some []) [pmod] width (num 0) (Some t));
  adc ← attr "adc_channel";
  width ← attr "readout_integration_treg";
  a ← attr "readout_integration_treg";
  b ← attr "relax_delay_treg";
  ab ← lift (py_add a b);
  c ← attr "adc_trigger_offset_treg";
  c2 ← lift (py_mul_int 2 c);
  t ← lift (py_add ab c2);
  _ ← emit (trigger (Some [adc]) [] width (num 0) (Some t));
  t ← attr "relax_delay_treg";
  _ ← emit (sync_all t);
  emit wait_all.

(** The [for] loop: [n] rounds of the four axis-0 means. *)
Fixpoint mean_loop (n : nat) (odmr signal reference odmr_contrast : ndarray)
  : M (ndarray * ndarray * ndarray * ndarray) :=
  match n with
  | O => mret (odmr, signal, reference, odmr_contrast)
  | S n' =>
      odmr ← np_mean_axis0 odmr;
      signal ← np_mean_axis0 signal;
      reference ← np_mean_axis0 reference;
      odmr_contrast ← np_mean_axis0 odmr_contrast;
      mean_loop n' odmr signal reference odmr_contrast
  end.

(** The statements that follow the [if]/[elif] chain. *)
Definition reduce `{!qick} (signal reference : option ndarray) : M ItemAttribute :=
  s ← local signal;
  r ← local reference;
  odmr ← np_binop Qcminus s r;
  s ← local signal;
  r ← local reference;
  diff ← np_binop Qcminus s r;
  r ← local reference;
  quot ← np_binop Qcdiv diff r;
  odmr_contrast ← np_scalar Qcmult quot (Qc_of_Z 100);
  s ← local signal;
  r ← local reference;
  '(odmr, signal, reference, odmr_contrast) ←
     mean_loop (ndim odmr - 1) odmr s r odmr_contrast;
  frequencies ← sweep_pts0;
  mret (<["frequencies" := frequencies]>
        (<["odmr_contrast" := odmr_contrast]>
         (<["reference" := reference]>
          (<["signal" := signal]>
           (<["odmr" := odmr]> (∅ : ItemAttribute)))))).

Definition analyze_results `{!qick} (data : ndarray) : M ItemAttribute :=
  data ← normalize data;
  '(signal, reference) ← separate data;
  reduce signal reference.

(** [super().acquire(reads_per_rep=2, *arg, **kwarg)]: a keyword given twice
    is a TypeError; otherwise the call is recorded with the arguments it
    passes on, and the parent's acquire runs. *)
Definition acquire `{!qick} (raw_data : value) (arg : list value)
    (kwarg : gmap string value) : M pyobj :=
  data ← (match kwarg !! "reads_per_rep" with
           | Some _ => raise TypeError
           | None =>
               let kw := <["reads_per_rep" := num 2]> kwarg in
               _ ← emit (parent_acquire arg kw);
               super_acquire arg kw
           end);
  if is_False raw_data then
    d ← analyze_results data; mret (Attrs d)
  else mret (Array data).

(** The estimate is a float: [t *= self.cfg.nsweep_points / 1e6] multiplies
    by the quotient of a true division. *)
Definition time_per_rep : M Qc :=
  a ← attr "readout_integration_tus";
  t ← lift (py_mul_int 2 a);
  b ← attr "relax_delay_tus";
  b2 ← lift (py_mul_int 2 b);
  t ← lift (py_add t b2);
  n ← attr "nsweep_points";
  f ← lift (py_div_float n (Qc_of_Z 1000000));
  lift (py_mul_float t f).

Definition total_time : M Qc :=
  t ← time_per_rep;
  reps ← attr "reps";
  lift (py_float_mul t reps).

End LockinODMR_johns.

(** ** RabiSweep_johns *)

Module RabiSweep_johns.

Definition required_cfg : list string :=
  [ "adc_channel"; "readout_integration_treg"; "mw_channel"; "mw_nqz";
    "mw_gain"; "mw_freg"; "mw_start_treg"; "mw_end_treg"; "nsweep_points";
    "pre_init"; "laser_gate_pmod"; "relax_delay_treg"; "reps";
    "mw_delta_treg" ].

Definition initialize : M unit :=
  _ ← check_cfg required_cfg;
  adc_channel ← attr "adc_channel";
  length ← attr "readout_integration_treg";
  _ ← emit (declare_readout adc_channel (num 0) length "input");
  mw_channel ← attr "mw_channel";
  mw_nqz ← attr "mw_nqz";
  _ ← emit (declare_gen mw_channel mw_nqz);
  mw_channel ← attr "mw_channel";
  freq ← attr "mw_freg";
  gain ← attr "mw_gain";
  _ ← emit (default_pulse_registers mw_channel
              [("style", VStr "const"); ("freq", freq); ("gain", gain);
               ("phase", num 0)]);
  mw_channel ← attr "mw_channel";
  length ← attr "mw_start_treg";
  _ ← emit (set_pulse_registers mw_channel [("length", length)]);
  mw_channel ← attr "mw_channel";
  init_val ← attr "mw_start_treg";
  r ← do_new_gen_reg mw_channel "length" init_val;
  _ ← modify_self (with_mw_length_register r);
  reg ← reg_attr mw_length_register;
  start ← attr "mw_start_treg";
  stop ← attr "mw_end_treg";
  expts ← attr "nsweep_points";
  mw_channel ← attr "mw_channel";
  _ ← do_add_sweep {| sw_class := "NVQickSweep"; sw_reg := reg; sw_start := start;
                      sw_stop := stop; sw_expts := expts;
                      sw_extra := [("label", VStr "length");
                                   ("mw_channel", mw_channel)] |};
  _ ← emit (synci (num 400));
  pre_init ← attr "pre_init";
  _ ← (if truthy pre_init then
         pmod ← attr "laser_gate_pmod";
         width ← attr "laser_initialize_treg";
         off ← attr "adc_trigger_offset_treg";
         _ ← emit (trigger None [pmod] width off None);
         t ← attr "laser_initialize_treg";
         emit (sync_all t)
       else mret tt);
  _ ← emit wait_all;
  t ← attr "relax_delay_treg";
  emit (sync_all t).

Definition body : M unit :=
  let t := num 0 in
  pmod ← attr "laser_gate_pmod";
  width ← attr "laser_initialize_treg";
  _ ← emit (trigger (Some []) [pmod] width (num 0) (Some t));
  x ← attr "laser_initialize_treg";
  t ← lift (py_add t x);
  mw_channel ← attr "mw_channel";
  _ ← emit (pulse mw_channel (Some t));
  r ← reg_attr mw_length_register;
  _ ← emit (sync r);
  x ← attr "mw_delay_treg";
  t ← lift (py_add t x);
  adc ← attr "adc_channel";
  pmod ← attr "laser_gate_pmod";
  width ← attr "readout_integration_treg";
  off ← attr "adc_trig_offset_treg";
  _ ← emit (trigger (Some [adc]) [pmod] width off (Some t));
  x ← attr "readout_integration_treg";
  t ← lift (py_add t x);
  pmod ← attr "laser_gate_pmod";
  width ← attr "laser_initialize_treg";
  _ ← emit (trigger (Some []) [pmod] width (num 0) (Some t));
  x ← attr "mw_delay_treg";
  t ← lift (py_add t x);
  a ← attr "mw_delay_treg";
  b ← attr "mw_end_treg";
  x ← lift (py_add a b);
  t ← lift (py_add t x);
  adc ← attr "adc_channel";
  pmod ← attr "laser_gate_pmod";
  width ← attr "readout_integration_treg";
  off ← attr "adc_trig_offset_treg";
  _ ← emit (trigger (Some [adc]) [pmod] width off (Some t));
  t ← attr "relax_delay_treg";
  _ ← emit (sync_all t);
  emit wait_all.

(** The [for] loop: [n] rounds of the two axis-0 means. *)
Fixpoint mean_loop (n : nat) (signal reference : ndarray) : M (ndarray * ndarray) :=
  match n with
  | O => mret (signal, reference)
  | S n' =>
      signal ← np_mean_axis0 signal;
      reference ← np_mean_axis0 reference;
      mean_loop n' signal reference
  end.

(** The statements that follow the [if]/[elif] chain. *)
Definition reduce `{!qick} (signal reference : option ndarray) : M ItemAttribute :=
  s ← local signal;
  r ← local reference;
  '(signal, reference) ← mean_loop (ndim s - 1) s r;
  diff ← np_binop Qcminus signal reference;
  quot ← np_binop Qcdiv diff reference;
  contrast ← np_scalar Qcmult quot (Qc_of_Z 100);
  sweep_treg ← sweep_pts0;
  pts ← sweep_pts0;
  sweep_tus ← np_scalar Qcmult pts (cycles2us 1%Qc);
  mret (<["sweep_tus" := sweep_tus]>
        (<["sweep_treg" := sweep_treg]>
         (<["contrast" := contrast]>
          (<["reference" := reference]>
           (<["signal" := signal]> (∅ : ItemAttribute)))))).

Definition analyze_results `{!qick} (data : ndarray) : M ItemAttribute :=
  data ← normalize data;
  '(signal, reference) ← separate data;
  reduce signal reference.

Definition acquire `{!qick} (raw_data : value) (arg : list value)
    (kwarg : gmap string value) : M pyobj :=
  data ← (match kwarg !! "reads_per_rep" with
           | Some _ => raise TypeError
           | None =>
               let kw := <["reads_per_rep" := num 2]> kwarg in
               _ ← emit (parent_acquire arg kw);
               super_acquire arg kw
           end);
  if is_False raw_data then
    d ← analyze_results data; mret (Attrs d)
  else mret (Array data).

End RabiSweep_johns.

(** ** The parent class of T1DelaySweep

    T1DelaySweep derives from NVAveragerProgram, which is outside this
    repository: its [acquire], reached through [super()], and its
    [analyze_pulse_sequence_results], which makes an [ItemAttribute] of an
    acquisition. *)
Class NVAveragerProgram := {
  nv_acquire : list value -> gmap string value -> M ndarray;
  analyze_pulse_sequence_results : ndarray -> M ItemAttribute
}.

(** [d.name] for an [ItemAttribute] [d] *)
Definition item (d : ItemAttribute) (name : string) : M ndarray :=
  match d !! name with
  | Some x => mret x
  | None => raise AttributeError
  end.

(** ** T1DelaySweep *)

Module T1DelaySweep.

Definition required_cfg : list string :=
  [ "adc_channel"; "readout_integration_treg"; "mw_channel"; "mw_nqz";
    "mw_pi2_treg"; "mw_gain"; "scaling_mode"; "delay_start_treg";
    "delay_end_treg"; "nsweep_points"; "pre_init"; "laser_gate_pmod";
    "laser_on_treg"; "relax_delay_treg"; "reps";
    "readout_reference_start_treg"; "laser_readout_offset_treg";
    "mw_readout_delay_treg" ].

Definition initialize : M unit :=
  _ ← check_cfg required_cfg;
  length ← attr "readout_integration_treg";
  _ ← emit (declare_readout (num 0) (num 0) length "input");
  mw_channel ← attr "mw_channel";
  mw_nqz ← attr "mw_nqz";
  _ ← emit (declare_gen mw_channel mw_nqz);
  mw_channel ← attr "mw_channel";
  freq ← attr "mw_freg";
  length ← attr "mw_pi2_treg";
  gain ← attr "mw_gain";
  _ ← emit (default_pulse_registers mw_channel
              [("style", VStr "const"); ("freq", freq); ("length", length);
               ("gain", gain)]);
  mw_channel ← attr "mw_channel";
  _ ← emit (set_pulse_registers mw_channel [("phase", num 0)]);
  mw_channel ← attr "mw_channel";
  init_val ← attr "delay_start_treg";
  r ← do_new_gen_reg mw_channel "delay" init_val;
  _ ← modify_self (with_delay_register r);
  mode ← attr "scaling_mode";
  _ ← (if py_eq_str mode "exponential" then
         reg ← reg_attr delay_register;
         start ← attr "delay_start_treg";
         stop ← attr "delay_end_treg";
         expts ← attr "nsweep_points";
         scaling_mode ← attr "scaling_mode";
         scaling_factor ← attr "scaling_factor";
         do_add_sweep {| sw_class := "NVQickSweep"; sw_reg := reg;
                         sw_start := start; sw_stop := stop; sw_expts := expts;
                         sw_extra := [("scaling_mode", scaling_mode);
                                      ("scaling_factor", scaling_factor)] |}
       else
         mode ← attr "scaling_mode";
         if py_eq_str mode "linear" then
           reg ← reg_attr delay_register;
           start ← attr "delay_start_treg";
           stop ← attr "delay_end_treg";
           expts ← attr "nsweep_points";
           do_add_sweep {| sw_class := "NVQickSweep"; sw_reg := reg;
                           sw_start := start; sw_stop := stop; sw_expts := expts;
                           sw_extra := [] |}
         else mret tt);
  _ ← emit (synci (num 400));
  pre_init ← attr "pre_init";
  if truthy pre_init then
    pmod ← attr "laser_gate_pmod";
    width ← attr "laser_on_treg";
    _ ← emit (trigger None [pmod] width (num 0) None);
    a ← attr "laser_on_treg";
    b ← attr "relax_delay_treg";
    t ← lift (py_add a b);
    emit (sync_all t)
  else mret tt.

Definition body : M unit :=
  mw_channel ← attr "mw_channel";
  _ ← emit (pulse mw_channel (Some (num 0)));
  mw_channel ← attr "mw_channel";
  t ← attr "mw_pi2_treg";
  _ ← emit (pulse mw_channel (Some t));
  x ← attr "mw_pi2_treg";
  t ← lift (py_mul_int 2 x);
  _ ← emit (synci t);
  r ← reg_attr delay_register;
  _ ← emit (sync r);
  t ← attr "mw_readout_delay_treg";
  _ ← emit (sync_all t);
  _ ← emit ttl_readout;
  x ← attr "mw_pi2_treg";
  t ← lift (py_mul_int 2 x);
  _ ← emit (synci t);
  r ← reg_attr delay_register;
  _ ← emit (sync r);
  t ← attr "mw_readout_delay_treg";
  _ ← emit (sync_all t);
  emit ttl_readout.

(** [data.contrast = data.contrast * -1] binds the attribute to a new array;
    the array it was bound to is left as it is. *)
Definition acquire `{!NVAveragerProgram} (raw_data : value) (arg : list value)
    (kwarg : gmap string value) : M pyobj :=
  data ← (match kwarg !! "reads_per_rep" with
           | Some _ => raise TypeError
           | None =>
               let kw := <["reads_per_rep" := num 4]> kwarg in
               _ ← emit (parent_acquire arg kw);
               nv_acquire arg kw
           end);
  if is_False raw_data then
    d ← analyze_pulse_sequence_results data;
    c ← item d "contrast";
    c ← np_scalar Qcmult c (Qc_of_Z (-1));
    mret (Attrs (<["contrast" := c]> d))
  else mret (Array data).

End T1DelaySweep.

(** ** Index-level description of the values *)

Definition entry (v : list Qc) (i : nat) : Qc := nth i v 0%Qc.

(** Values of [x[..., k]] for an array with row-major values [v], a last axis
    of length [L] and [p] positions on the other axes. *)
Definition last_axis (L k p : nat) (v : list Qc) : list Qc :=
  map (fun m => entry v (m * L + k)) (seq 0 p).

(** The arithmetic mean over the leading axes taken together: for an array of
    [p] leading positions by [n] sweep points with row-major values [x], the
    mean at sweep point [j] of the [p] entries [x[m, j]]. *)
Definition grand_mean (p n : nat) (x : list Qc) : list Qc :=
  map (fun j => (sum_list (map (fun m => entry x (m * n + j)) (seq 0 p))
                 / Qc_of_Z (Z.of_nat p))%Qc)
      (seq 0 n).

(** Values after one axis-0 mean per leading axis. *)
Fixpoint mean_leading (lead : list nat) (n : nat) (x : list Qc) : list Qc :=
  match lead with
  | [] => x
  | a :: lead' => mean_leading lead' n (mean_axis0 a (prod_list lead' * n) x)
  end.

(** The state [st] with the buffers [new] allocated after its own. *)
Definition allocate (st : pystate) (new : list (list Qc)) : pystate :=
  {| self := self st; heap := heap st ++ new |}.

(** [a] is an array of the heap of [st]. *)
Definition allocated (st : pystate) (a : ndarray) : Prop :=
  base a < length (heap st).

(** [a] is an array of [st] with shape [sh] and row-major values [v]. *)
Definition holds (st : pystate) (a : ndarray) (sh : list nat) (v : list Qc) : Prop :=
  allocated st a /\ shape a = sh /\ contents (heap st) a = v.

(** [a] holds, and its buffer is not among the first [lo] buffers. *)
Definition holds_from (lo : nat) (st : pystate) (a : ndarray) (sh : list nat)
    (v : list Qc) : Prop :=
  lo <= base a /\ holds st a sh v.

(** What a run of [m] from [st] ends in: a value and a state that satisfy
    [Q], or an exception and a state that satisfy [E]. *)
Definition outcome {X} (m : M X) (st : pystate) (Q : X -> pystate -> Prop)
    (E : exn -> pystate -> Prop) : Prop :=
  match m st with
  | (Ok x, st') => Q x st'
  | (Raise e, st') => E e st'
  end.

(** [m] returns from [st], with a value and a final state that satisfy [Q]. *)
Definition returns {X} (m : M X) (st : pystate) (Q : X -> pystate -> Prop) : Prop :=
  outcome m st Q (fun _ _ => False).

(** [st'] has the program object of [st] and its buffers, unchanged, with
    possibly more buffers after them. *)
Definition extends (st st' : pystate) : Prop :=
  self st' = self st /\ heap st `prefix_of` heap st'.

(** Whatever the run of [m] from [st] ends in, the final state extends [st];
    and when [m] returns, its value and final state satisfy [Q]. *)
Definition framed {X} (m : M X) (st : pystate) (Q : X -> pystate -> Prop) : Prop :=
  outcome m st (fun x st' => extends st st' /\ Q x st') (fun _ st' => extends st st').

(** The C-contiguous array that owns buffer [b]. *)
Definition fresh_at (b : nat) (sh : list nat) : ndarray :=
  {| base := b; offset := 0; dims := c_dims 1 sh |}.

(** The view [x[..., j]] of the C-contiguous array that owns buffer [b] and
    has shape [sh ++ [L]]. *)
Definition last_view (b : nat) (sh : list nat) (L j : nat) : ndarray :=
  {| base := b; offset := 0 + j * 1; dims := c_dims (1 * L) sh |}.

(** The values of the time-normalized data, of its signal and reference
    slices and of the two derived quantities, before any averaging: [v] are
    the row-major values of the input, [t] the integration time, [L] the
    length of the last axis and [p] the number of positions on the others. *)
Definition normalized (t : Qc) (v : list Qc) : list Qc :=
  map (fun e => (e / t)%Qc) v.

Definition signal_of (t : Qc) (L p : nat) (v : list Qc) : list Qc :=
  last_axis L 0 p (normalized t v).

Definition reference_of (t : Qc) (L p : nat) (v : list Qc) : list Qc :=
  last_axis L 1 p (normalized t v).

(** [signal - reference], elementwise *)
Definition difference (sig ref : list Qc) : list Qc :=
  zip_with Qcminus sig ref.

(** [(signal - reference) / reference * 100], elementwise *)
Definition contrast_of (sig ref : list Qc) : list Qc :=
  map (fun e => (e * Qc_of_Z 100)%Qc) (zip_with Qcdiv (zip_with Qcminus sig ref) ref).

(** [d] is the [ItemAttribute] that [LockinODMR_johns.analyze_results]
    builds, its arrays being one-dimensional of length [n] with the given
    values, and none of them in the first [lo] buffers. *)
Definition lockin_result (lo : nat) (st : pystate) (d : ItemAttribute) (n : nat)
    (odmr signal reference odmr_contrast frequencies : list Qc) : Prop :=
  exists ao asig aref ac af,
    d = <["frequencies" := af]>
        (<["odmr_contrast" := ac]>
         (<["reference" := aref]>
          (<["signal" := asig]>
           (<["odmr" := ao]> (∅ : ItemAttribute)))))
    /\ holds_from lo st ao [n] odmr
    /\ holds_from lo st asig [n] signal
    /\ holds_from lo st aref [n] reference
    /\ holds_from lo st ac [n] odmr_contrast
    /\ holds_from lo st af [length frequencies] frequencies.

(** The same for [RabiSweep_johns.analyze_results]. *)
Definition rabi_result (lo : nat) (st : pystate) (d : ItemAttribute) (n : nat)
    (signal reference contrast sweep_treg sweep_tus : list Qc) : Prop :=
  exists asig aref ac at1 at2,
    d = <["sweep_tus" := at2]>
        (<["sweep_treg" := at1]>
         (<["contrast" := ac]>
          (<["reference" := aref]>
           (<["signal" := asig]> (∅ : ItemAttribute)))))
    /\ holds_from lo st asig [n] signal
    /\ holds_from lo st aref [n] reference
    /\ holds_from lo st ac [n] contrast
    /\ holds_from lo st at1 [length sweep_treg] sweep_treg
    /\ holds_from lo st at2 [length sweep_tus] sweep_tus.

(** ** What [initialize] and [body] are expected to ask of the library *)

(** The value of attribute [k], [None] when the attribute is missing. *)
Definition cfg_value (c : gmap string value) (k : string) : value :=
  default VNone (c !! k).

(** Whether attribute [k] is present and true. *)
Definition flag (c : gmap string value) (k : string) : bool :=
  truthy (cfg_value c k).

(** The sweeps that a sequence of calls registers. *)
Definition sweep_calls (l : list hwcall) : list sweep :=
  flat_map (fun c => match c with add_sweep s => [s] | _ => [] end) l.

(** LockinODMR_johns: the frequency register of the microwave generator,
    from mw_start_fMHz to mw_end_fMHz. *)
Definition lockin_sweep (c : gmap string value) : sweep :=
  {| sw_class := "QickSweep";
     sw_reg := {| reg_ch := cfg_value c "mw_channel"; reg_name := "freq";
                  reg_init := None |};
     sw_start := cfg_value c "mw_start_fMHz";
     sw_stop := cfg_value c "mw_end_fMHz";
     sw_expts := cfg_value c "nsweep_points";
     sw_extra := [] |}.

(** RabiSweep_johns: the pulse-length register, from mw_start_treg to
    mw_end_treg. *)
Definition rabi_sweep (c : gmap string value) : sweep :=
  {| sw_class := "NVQickSweep";
     sw_reg := {| reg_ch := cfg_value c "mw_channel"; reg_name := "length";
                  reg_init := Some (cfg_value c "mw_start_treg") |};
     sw_start := cfg_value c "mw_start_treg";
     sw_stop := cfg_value c "mw_end_treg";
     sw_expts := cfg_value c "nsweep_points";
     sw_extra := [("label", VStr "length");
                  ("mw_channel", cfg_value c "mw_channel")] |}.

(** T1DelaySweep: the delay register, from delay_start_treg to
    delay_end_treg; the exponential sweep carries its scaling. *)
Definition t1_sweep (c : gmap string value) : sweep :=
  {| sw_class := "NVQickSweep";
     sw_reg := {| reg_ch := cfg_value c "mw_channel"; reg_name := "delay";
                  reg_init := Some (cfg_value c "delay_start_treg") |};
     sw_start := cfg_value c "delay_start_treg";
     sw_stop := cfg_value c "delay_end_treg";
     sw_expts := cfg_value c "nsweep_points";
     sw_extra :=
       if py_eq_str (cfg_value c "scaling_mode") "exponential"
       then [("scaling_mode", cfg_value c "scaling_mode");
             ("scaling_factor", cfg_value c "scaling_factor")]
       else [] |}.

(** Whether scaling_mode selects one of the two sweeps of T1DelaySweep. *)
Definition t1_sweeps (c : gmap string value) : bool :=
  py_eq_str (cfg_value c "scaling_mode") "exponential"
  || py_eq_str (cfg_value c "scaling_mode") "linear".

(** What is true of the sweeps of [st'], seen from [st]: one more, [sw], both
    in [qick_sweeps] and among the calls made. *)
Definition one_more_sweep (st : pystate) (sw : sweep) (st' : pystate) : Prop :=
  qick_sweeps (self st') = qick_sweeps (self st) ++ [sw]
  /\ sweep_calls (emitted (self st')) = sweep_calls (emitted (self st)) ++ [sw].

(** The calls of [st'] are those of [st] followed by calls to [names]. *)
Definition calls_after (st : pystate) (names : list string) (st' : pystate) : Prop :=
  map call_name (emitted (self st'))
  = map call_name (emitted (self st)) ++ names.

(** The methods called, in order, by a run that completes. *)
Definition lockin_initialize_calls (pre_init : bool) : list string :=
  [ "declare_readout"; "declare_gen"; "set_pulse_registers"; "get_gen_reg";
    "add_sweep"; "synci" ]
  ++ (if pre_init then ["pulse"; "trigger"; "sync_all"] else []).

Definition lockin_body_calls : list string :=
  [ "trigger"; "trigger"; "pulse"; "trigger"; "trigger"; "sync_all"; "wait_all" ].

Definition rabi_initialize_calls (pre_init : bool) : list string :=
  [ "declare_readout"; "declare_gen"; "default_pulse_registers";
    "set_pulse_registers"; "new_gen_reg"; "add_sweep"; "synci" ]
  ++ (if pre_init then ["trigger"; "sync_all"] else [])
  ++ [ "wait_all"; "sync_all" ].

Definition rabi_body_calls : list string :=
  [ "trigger"; "pulse"; "sync"; "trigger"; "trigger"; "trigger"; "sync_all";
    "wait_all" ].

Definition t1_initialize_calls (sweeps pre_init : bool) : list string :=
  [ "declare_readout"; "declare_gen"; "default_pulse_registers";
    "set_pulse_registers"; "new_gen_reg" ]
  ++ (if sweeps then ["add_sweep"] else [])
  ++ [ "synci" ]
  ++ (if pre_init then ["trigger"; "sync_all"] else []).

Definition t1_body_calls : list string :=
  [ "pulse"; "pulse"; "synci"; "sync"; "sync_all"; "ttl_readout";
    "synci"; "sync"; "sync_all"; "ttl_readout" ].

(** ** A small experiment, used to run the model

    Two repetitions of a two-point sweep with two reads per repetition and an
    integration time of 2: the normalized data are
    [[[2, 1], [4, 4]], [[6, 3], [8, 2]]]. *)

Definition sample_lib : qick :=
  {| get_sweep_pts := fun sw =>
       match sw_start sw, sw_stop sw with
       | VNum x, VNum y => [x; y]
       | _, _ => []
       end;
     cycles2us := fun c => (c / Qc_of_Z 430)%Qc;
     super_acquire := fun _ _ =>
       new_array [8] (map Qc_of_Z [4; 2; 8; 8; 12; 6; 16; 4]%Z) |}.

Definition sample_data : list Qc := map Qc_of_Z [4; 2; 8; 8; 12; 6; 16; 4]%Z.

Definition sample_cfg : gmap string value :=
  list_to_map
    [ ("readout_integration_treg", num 2); ("adc_channel", num 0);
      ("laser_gate_pmod", num 0); ("relax_delay_treg", num 100);
      ("mw_channel", num 1); ("mw_nqz", num 1); ("mw_gain", num 5000);
      ("nsweep_points", num 2); ("pre_init", VBool true); ("reps", num 2);
      ("laser_power", num 1); ("mw_start_freg", num 1000);
      ("mw_start_fMHz", num 2800); ("mw_end_fMHz", num 2900);
      ("adc_trigger_offset_treg", num 10); ("adc_trig_offset_treg", num 10);
      ("mw_freg", num 1000); ("mw_start_treg", num 4); ("mw_end_treg", num 40);
      ("mw_delta_treg", num 4); ("laser_initialize_treg", num 50);
      ("mw_delay_treg", num 5); ("mw_pi2_treg", num 8);
      ("scaling_mode", VStr "linear"); ("scaling_factor", num 2);
      ("delay_start_treg", num 4); ("delay_end_treg", num 400);
      ("laser_on_treg", num 50); ("readout_reference_start_treg", num 20);
      ("laser_readout_offset_treg", num 3); ("mw_readout_delay_treg", num 6) ].

Definition sample_sweep : sweep :=
  {| sw_class := "QickSweep";
     sw_reg := {| reg_ch := num 1; reg_name := "freq"; reg_init := None |};
     sw_start := num 2800; sw_stop := num 2900; sw_expts := num 2;
     sw_extra := [] |}.

(** A program that has not run [initialize] yet. *)
Definition new_program (c : gmap string value) : program :=
  {| cfg := c; data_shape := []; qick_sweeps := [];
     mw_frequency_register := None; mw_length_register := None;
     delay_register := None; emitted := [] |}.

(** An initialised program whose acquisition has shape [sh]. *)
Definition sample_program (sh : list nat) : program :=
  {| cfg := sample_cfg; data_shape := sh; qick_sweeps := [sample_sweep];
     mw_frequency_register := None; mw_length_register := None;
     delay_register := None; emitted := [] |}.

(** A state whose only buffer holds the acquired data [v], and the
    one-dimensional array that owns that buffer. *)
Definition sample_state (sh : list nat) (v : list Qc) : pystate :=
  {| self := sample_program sh; heap := [v] |}.

Definition acquired (len : nat) : ndarray :=
  {| base := 0; offset := 0; dims := [(len, 1)] |}.

(** A program whose registers are assigned and which has made no call yet,
    and a second configuration that differs from the first in numbers only. *)
Definition ready_program (c : gmap string value) : program :=
  {| cfg := c; data_shape := []; qick_sweeps := [];
     mw_frequency_register :=
       Some {| reg_ch := cfg_value c "mw_channel"; reg_name := "freq";
               reg_init := None |};
     mw_length_register :=
       Some {| reg_ch := cfg_value c "mw_channel"; reg_name := "length";
               reg_init := Some (cfg_value c "mw_start_treg") |};
     delay_register :=
       Some {| reg_ch := cfg_value c "mw_channel"; reg_name := "delay";
               reg_init := Some (cfg_value c "delay_start_treg") |};
     emitted := [] |}.

Definition other_cfg : gmap string value :=
  <["mw_gain" := num 700]>
    (<["relax_delay_treg" := num 30]>
       (<["readout_integration_treg" := num 9]>
          (<["scaling_mode" := VStr "exponential"]> sample_cfg))).

(** [m] runs to its end from [st]. *)
Definition completes (m : M unit) (st : pystate) : Prop := fst (m st) = Ok tt.

(** The methods that the run of [m] from [st] has called when it ends. *)
Definition calls_of (m : M unit) (st : pystate) : list string :=
  map call_name (emitted (self (snd (m st)))).

(** ** What the pulse programs are expected to leave alone, and to ask for *)

(** [st'] differs from [st] by calls made on the control library only:
    configuration, acquisition shape, sweeps, registers and buffers are the
    same, and the calls of [st] are the first calls of [st']. *)
Definition only_calls (st st' : pystate) : Prop :=
  cfg (self st') = cfg (self st)
  /\ data_shape (self st') = data_shape (self st)
  /\ qick_sweeps (self st') = qick_sweeps (self st)
  /\ mw_frequency_register (self st') = mw_frequency_register (self st)
  /\ mw_length_register (self st') = mw_length_register (self st)
  /\ delay_register (self st') = delay_register (self st)
  /\ heap st' = heap st
  /\ emitted (self st) `prefix_of` emitted (self st').

(** [st'] has the configuration, the acquisition shape and the buffers of
    [st]; its sweeps and its calls are those of [st], with possibly more
    after them. *)
Definition only_grows (st st' : pystate) : Prop :=
  cfg (self st') = cfg (self st)
  /\ data_shape (self st') = data_shape (self st)
  /\ heap st' = heap st
  /\ qick_sweeps (self st) `prefix_of` qick_sweeps (self st')
  /\ emitted (self st) `prefix_of` emitted (self st').

(** One acquisition of LockinODMR_johns.body that starts at time [t0]: the
    laser is gated for [R + O], and the ADC is triggered [O] after the laser,
    for [R]. *)
Definition lockin_acquisition (pmod adc : value) (R O t0 : Qc) : list hwcall :=
  [ trigger (Some []) [pmod] (VNum (R + O)) (num 0) (Some (VNum t0));
    trigger (Some [adc]) [] (VNum R) (num 0) (Some (VNum (t0 + O))) ].

(** One readout of T1DelaySweep.body: the time of two pi/2 pulses, the wait
    on the register [r], the delay [d] and the readout. *)
Definition t1_readout (P : Qc) (r : QickRegister) (d : value) : list hwcall :=
  [ synci (VNum (2 * P)); sync r; sync_all d; ttl_readout ].


(** The attributes of [self.cfg] that body reads. *)
Definition lockin_body_reads : list string :=
  [ "laser_gate_pmod"; "readout_integration_treg"; "adc_trigger_offset_treg";
    "adc_channel"; "mw_channel"; "relax_delay_treg" ].

Definition rabi_body_reads : list string :=
  [ "laser_gate_pmod"; "laser_initialize_treg"; "mw_channel"; "mw_delay_treg";
    "adc_channel"; "readout_integration_treg"; "adc_trig_offset_treg";
    "mw_end_treg"; "relax_delay_treg" ].

Definition t1_body_reads : list string :=
  [ "mw_channel"; "mw_pi2_treg"; "mw_readout_delay_treg" ].

(** What a run of initialize that reaches its end has found in the
    configuration. *)
Definition lockin_needs (c : gmap string value) : Prop :=
  Forall (fun k => is_Some (c !! k)) LockinODMR_johns.required_cfg
  /\ py_gt_int (cfg_value c "mw_gain") 30000 = Ok false
  /\ Forall (fun k => is_Some (c !! k)) ["mw_start_freg"; "mw_start_fMHz"; "mw_end_fMHz"]
  /\ (flag c "pre_init" = true ->
      exists t, py_add (cfg_value c "readout_integration_treg")
                       (cfg_value c "relax_delay_treg") = Ok t).

Definition rabi_needs (c : gmap string value) : Prop :=
  Forall (fun k => is_Some (c !! k)) RabiSweep_johns.required_cfg
  /\ (flag c "pre_init" = true ->
      is_Some (c !! "laser_initialize_treg")
      /\ is_Some (c !! "adc_trigger_offset_treg")).

Definition t1_needs (c : gmap string value) : Prop :=
  Forall (fun k => is_Some (c !! k)) T1DelaySweep.required_cfg
  /\ is_Some (c !! "mw_freg")
  /\ (py_eq_str (cfg_value c "scaling_mode") "exponential" = true ->
      is_Some (c !! "scaling_factor"))
  /\ (flag c "pre_init" = true ->
      exists t, py_add (cfg_value c "laser_on_treg") (cfg_value c "relax_delay_treg")
                = Ok t).

(** ** More programs to run the model on *)

(** A program with configuration [c], acquisition shape [sh] and sweeps
    [sweeps] that has made no call, and a state whose only buffer holds [v]. *)
Definition program_with (c : gmap string value) (sh : list nat)
    (sweeps : list sweep) : program :=
  {| cfg := c; data_shape := sh; qick_sweeps := sweeps;
     mw_frequency_register := None; mw_length_register := None;
     delay_register := None; emitted := [] |}.

Definition state_with (c : gmap string value) (sh : list nat)
    (sweeps : list sweep) (v : list Qc) : pystate :=
  {| self := program_with c sh sweeps; heap := [v] |}.

(** A parent class for T1DelaySweep: its acquire hands back four values, and
    its analysis an [ItemAttribute] whose contrast is a hundred times the
    acquired values. *)
Definition sample_parent : NVAveragerProgram :=
  {| nv_acquire := fun _ _ => new_array [4] (map Qc_of_Z [1; -2; 3; 0]%Z);
     analyze_pulse_sequence_results := fun data =>
       c ← np_scalar Qcmult data (Qc_of_Z 100);
       mret (<["contrast" := c]> (∅ : ItemAttribute)) |}.

(** A parent class whose analysis hands back an [ItemAttribute] with no
    attribute at all. *)
Definition bare_parent : NVAveragerProgram :=
  {| nv_acquire := fun _ _ => new_array [4] (map Qc_of_Z [1; -2; 3; 0]%Z);
     analyze_pulse_sequence_results := fun _ => mret (∅ : ItemAttribute) |}.

(** The configuration of the small experiment with the two times that the
    estimates read, in microseconds. *)
Definition timed_cfg : gmap string value :=
  <["readout_integration_tus" := num 3]> (<["relax_delay_tus" := num 7]> sample_cfg).

(** * Properties *)

(** ** Sums *)

Lemma fold_left_Qcplus (l : list Qc) (a : Qc) :
  fold_left Qcplus l a = (a + fold_left Qcplus l 0)%Qc.
Proof.
  revert a. induction l as [|x l IH]; intros a; simpl.
  - ring.
  - rewrite (IH (a + x)%Qc), (IH (0 + x)%Qc). ring.
Qed.

Lemma sum_list_nil : sum_list [] = 0%Qc.
Proof. reflexivity. Qed.

Lemma sum_list_cons (x : Qc) (l : list Qc) :
  sum_list (x :: l) = (x + sum_list l)%Qc.
Proof.
  unfold sum_list. simpl. rewrite fold_left_Qcplus. ring.
Qed.

Lemma sum_list_app (l k : list Qc) :
  sum_list (l ++ k) = (sum_list l + sum_list k)%Qc.
Proof.
  induction l as [|x l IH]; simpl.
  - rewrite sum_list_nil. ring.
  - rewrite !sum_list_cons, IH. ring.
Qed.

Lemma sum_map_ext {A} (f g : A -> Qc) (l : list A) :
  (forall x, In x l -> f x = g x) ->
  sum_list (map f l) = sum_list (map g l).
Proof.
  intros H. f_equal. apply map_ext_in. exact H.
Qed.

Lemma sum_map_plus {A} (f g : A -> Qc) (l : list A) :
  sum_list (map (fun x => (f x + g x)%Qc) l)
  = (sum_list (map f l) + sum_list (map g l))%Qc.
Proof.
  induction l as [|x l IH]; simpl.
  - rewrite sum_list_nil. ring.
  - rewrite !sum_list_cons, IH. ring.
Qed.

Lemma sum_map_scale {A} (f : A -> Qc) (c : Qc) (l : list A) :
  sum_list (map (fun x => (f x * c)%Qc) l) = (sum_list (map f l) * c)%Qc.
Proof.
  induction l as [|x l IH]; simpl.
  - rewrite sum_list_nil. ring.
  - rewrite !sum_list_cons, IH. ring.
Qed.

Lemma sum_map_zero {A} (l : list A) :
  sum_list (map (fun _ => 0%Qc) l) = 0%Qc.
Proof.
  induction l as [|x l IH]; simpl.
  - reflexivity.
  - rewrite sum_list_cons, IH. ring.
Qed.

(** Exchange of two finite sums. *)
Lemma sum_map_swap {A B} (f : A -> B -> Qc) (l : list A) (k : list B) :
  sum_list (map (fun x => sum_list (map (fun y => f x y) k)) l)
  = sum_list (map (fun y => sum_list (map (fun x => f x y) l)) k).
Proof.
  induction l as [|x l IH]; simpl.
  - rewrite sum_map_zero. reflexivity.
  - rewrite sum_list_cons, IH, <- sum_map_plus.
    apply sum_map_ext. intros y _. rewrite sum_list_cons. reflexivity.
Qed.

Lemma seq_shift_map (a n : nat) : seq a n = map (fun m => a + m) (seq 0 n).
Proof.
  revert a. induction n as [|n IH]; intros a; simpl.
  - reflexivity.
  - f_equal; [lia|]. rewrite (IH (S a)), (IH 1), map_map.
    apply map_ext. intros m. lia.
Qed.

(** A range of length [a * b] read as [a] blocks of length [b]. *)
Lemma map_seq_mul {A} (f : nat -> A) (a b : nat) :
  map f (seq 0 (a * b))
  = flat_map (fun i => map (fun m => f (i * b + m)) (seq 0 b)) (seq 0 a).
Proof.
  induction a as [|a IH].
  - reflexivity.
  - rewrite seq_S, flat_map_app. simpl flat_map. rewrite app_nil_r.
    rewrite <- IH.
    replace (S a * b) with (a * b + b) by lia.
    rewrite seq_app, map_app. f_equal.
    simpl. rewrite (seq_shift_map (a * b) b), map_map. reflexivity.
Qed.

Lemma sum_flat_map {A} (g : A -> list Qc) (l : list A) :
  sum_list (flat_map g l) = sum_list (map (fun x => sum_list (g x)) l).
Proof.
  induction l as [|x l IH]; simpl.
  - reflexivity.
  - rewrite sum_list_app, sum_list_cons, IH. reflexivity.
Qed.

Lemma sum_seq_mul (f : nat -> Qc) (a b : nat) :
  sum_list (map f (seq 0 (a * b)))
  = sum_list (map (fun i => sum_list (map (fun m => f (i * b + m)) (seq 0 b)))
                  (seq 0 a)).
Proof.
  rewrite map_seq_mul, sum_flat_map. reflexivity.
Qed.

Lemma Qcdiv_div (x a b : Qc) : (x / a / b = x / (b * a))%Qc.
Proof.
  unfold Qcdiv. rewrite Qcinv_mult_distr. ring.
Qed.

Lemma Qc_of_nat_mul (a b : nat) :
  Qc_of_Z (Z.of_nat (a * b)) = (Qc_of_Z (Z.of_nat a) * Qc_of_Z (Z.of_nat b))%Qc.
Proof.
  rewrite Nat2Z.inj_mul. apply Z2Qc_inj_mul.
Qed.

(** ** Means *)

Lemma length_mean_axis0 (n p : nat) (v : list Qc) : length (mean_axis0 n p v) = p.
Proof. unfold mean_axis0. rewrite length_map, length_seq. reflexivity. Qed.

Lemma length_grand_mean (p n : nat) (x : list Qc) : length (grand_mean p n x) = n.
Proof. unfold grand_mean. rewrite length_map, length_seq. reflexivity. Qed.

Lemma entry_map_seq (f : nat -> Qc) (n j : nat) :
  j < n -> entry (map f (seq 0 n)) j = f j.
Proof.
  intros Hj. unfold entry.
  rewrite (nth_indep _ 0%Qc (f 0)) by (rewrite length_map, length_seq; exact Hj).
  rewrite (map_nth f), seq_nth by exact Hj. reflexivity.
Qed.

Lemma entry_mean_axis0 (n p : nat) (v : list Qc) (j : nat) :
  j < p ->
  entry (mean_axis0 n p v) j
  = (sum_list (map (fun i => entry v (i * p + j)) (seq 0 n)) / Qc_of_Z (Z.of_nat n))%Qc.
Proof.
  intros Hj. unfold mean_axis0. rewrite entry_map_seq by exact Hj. reflexivity.
Qed.

Lemma map_entry_seq (x : list Qc) : map (entry x) (seq 0 (length x)) = x.
Proof.
  apply nth_ext with (d := 0%Qc) (d' := 0%Qc).
  - rewrite length_map, length_seq. reflexivity.
  - intros j Hj. rewrite length_map, length_seq in Hj.
    change (nth j (map (entry x) (seq 0 (length x))) 0%Qc)
      with (entry (map (entry x) (seq 0 (length x))) j).
    rewrite entry_map_seq by exact Hj. reflexivity.
Qed.

(** With no leading axis the mean of the single entry is the entry. *)
Lemma grand_mean_one (n : nat) (x : list Qc) :
  length x = n -> grand_mean 1 n x = x.
Proof.
  intros Hn. transitivity (map (entry x) (seq 0 n)).
  - unfold grand_mean. apply map_ext. intros j. simpl.
    rewrite sum_list_cons, sum_list_nil.
    change (Z.of_nat 1) with 1%Z. rewrite Z2Qc_inj_1. field. discriminate.
  - rewrite <- Hn. apply map_entry_seq.
Qed.

(** One more axis-0 mean in front of the mean over [p] leading positions is
    the mean over [a * p] leading positions. *)
Lemma grand_mean_step (a p n : nat) (x : list Qc) :
  grand_mean p n (mean_axis0 a (p * n) x) = grand_mean (a * p) n x.
Proof.
  unfold grand_mean. apply map_ext_in. intros j Hj.
  apply in_seq in Hj.
  rewrite (sum_map_ext
             (fun m => entry (mean_axis0 a (p * n) x) (m * n + j))
             (fun m => (sum_list (map (fun i => entry x ((i * p + m) * n + j)) (seq 0 a))
                        * / Qc_of_Z (Z.of_nat a))%Qc)).
  2:{ intros m Hm. apply in_seq in Hm.
      rewrite entry_mean_axis0 by nia.
      unfold Qcdiv. f_equal. apply sum_map_ext. intros i _. f_equal. lia. }
  rewrite sum_map_scale, sum_map_swap.
  rewrite <- (sum_seq_mul (fun q => entry x (q * n + j)) a p).
  rewrite Qc_of_nat_mul. unfold Qcdiv. rewrite Qcinv_mult_distr. ring.
Qed.

(** The iterated axis-0 mean is the mean over the leading axes combined. *)
Lemma mean_leading_grand_mean (lead : list nat) (n : nat) (x : list Qc) :
  length x = prod_list lead * n ->
  mean_leading lead n x = grand_mean (prod_list lead) n x.
Proof.
  revert x. induction lead as [|a lead IH]; intros x Hx; simpl in *.
  - symmetry. apply grand_mean_one. lia.
  - rewrite IH by apply length_mean_axis0.
    apply grand_mean_step.
Qed.

(** ** Views *)

Lemma shape_c_dims (s : nat) (sh : list nat) : map fst (c_dims s sh) = sh.
Proof.
  induction sh as [|n sh IH]; simpl; [reflexivity | f_equal; exact IH].
Qed.

Lemma length_c_dims (s : nat) (sh : list nat) : length (c_dims s sh) = length sh.
Proof.
  induction sh as [|n sh IH]; simpl; [reflexivity | f_equal; exact IH].
Qed.

Lemma prod_list_app (l k : list nat) :
  prod_list (l ++ k) = prod_list l * prod_list k.
Proof.
  induction l as [|x l IH]; simpl; [lia | rewrite IH; lia].
Qed.

Lemma c_dims_app (s : nat) (lead : list nat) (L : nat) :
  c_dims s (lead ++ [L]) = c_dims (s * L) lead ++ [(L, s)].
Proof.
  induction lead as [|n lead IH]; simpl.
  - do 2 f_equal. lia.
  - rewrite IH, prod_list_app. simpl. do 2 f_equal. lia.
Qed.

Lemma length_offsets (d : list (nat * nat)) (off : nat) :
  length (offsets d off) = prod_list (map fst d).
Proof.
  revert off. induction d as [|[n s] d IH]; intros off; simpl.
  - reflexivity.
  - rewrite flat_map_concat_map, length_concat, map_map.
    rewrite (map_ext _ (fun _ => prod_list (map fst d))) by (intros; apply IH).
    generalize (prod_list (map fst d)) as p. intros p.
    generalize 0 as b.
    induction n as [|n IHn]; intros b; simpl; [reflexivity|].
    rewrite IHn. reflexivity.
Qed.

(** The elements of a C-contiguous view lie [s] apart, in order. *)
Lemma offsets_c_dims (s : nat) (sh : list nat) (off : nat) :
  offsets (c_dims s sh) off = map (fun m => off + m * s) (seq 0 (prod_list sh)).
Proof.
  revert off. induction sh as [|n sh IH]; intros off; simpl.
  - f_equal. lia.
  - rewrite (map_seq_mul (fun m => off + m * s) n (prod_list sh)).
    apply flat_map_ext. intros i. rewrite IH.
    apply map_ext. intros m. lia.
Qed.

Lemma length_contents (h : list (list Qc)) (a : ndarray) :
  length (contents h a) = size a.
Proof.
  unfold contents, size, shape. rewrite length_map. apply length_offsets.
Qed.

(** Older arrays are not affected by an allocation. *)
Lemma contents_app (h k : list (list Qc)) (a : ndarray) :
  base a < length h -> contents (h ++ k) a = contents h a.
Proof.
  intros Hb. unfold contents. rewrite lookup_app_l by exact Hb. reflexivity.
Qed.

(** A new array holds the values it was made from. *)
Lemma contents_new (h : list (list Qc)) (sh : list nat) (v : list Qc) :
  length v = prod_list sh ->
  contents (h ++ [v]) {| base := length h; offset := 0; dims := c_dims 1 sh |} = v.
Proof.
  intros Hv. unfold contents. simpl.
  rewrite list_lookup_middle by reflexivity. simpl.
  rewrite offsets_c_dims, map_map, <- Hv.
  rewrite <- (map_entry_seq v) at 2.
  apply map_ext. intros m. unfold entry. f_equal. lia.
Qed.

(** Full slices on the leading axes and position [j] on the last axis. *)
Lemma getitem_aux_last (d : list (nat * nat)) (L s j off : nat) :
  getitem_aux (replicate (length d) Colon ++ [At j]) (d ++ [(L, s)]) off
  = if j <? L then Ok (off + j * s, d) else Raise IndexError.
Proof.
  induction d as [|[n t] d IH]; simpl.
  - destruct (j <? L); reflexivity.
  - rewrite IH. destruct (j <? L); reflexivity.
Qed.

(** Values of the view [x[..., j]] of a C-contiguous array. *)
Lemma contents_last_axis (h : list (list Qc)) (b : nat) (lead : list nat)
    (L j : nat) (v : list Qc) :
  h !! b = Some v ->
  contents h {| base := b; offset := 0 + j * 1; dims := c_dims (1 * L) lead |}
  = last_axis L j (prod_list lead) v.
Proof.
  intros Hb. unfold contents, last_axis. simpl. rewrite Hb. simpl.
  rewrite offsets_c_dims, map_map.
  apply map_ext. intros m. unfold entry. f_equal. lia.
Qed.

(** ** Running a method *)

Lemma returns_ret {X} (x : X) (st : pystate) (Q : X -> pystate -> Prop) :
  Q x st -> returns (mret x) st Q.
Proof. intros H. exact H. Qed.

Lemma bind_Ok {X Y} (m : M X) (k : X -> M Y) (st st' : pystate) (x : X) :
  m st = (Ok x, st') -> (x ← m; k x) st = k x st'.
Proof. intros H. unfold mbind, M_bind. rewrite H. reflexivity. Qed.

Lemma bind_Raise {X Y} (m : M X) (k : X -> M Y) (st st' : pystate) (e : exn) :
  m st = (Raise e, st') -> (x ← m; k x) st = (Raise e, st').
Proof. intros H. unfold mbind, M_bind. rewrite H. reflexivity. Qed.

Lemma returns_bind {X Y} (m : M X) (k : X -> M Y) (st : pystate)
    (Q : Y -> pystate -> Prop) :
  returns m st (fun x st' => returns (k x) st' Q) ->
  returns (x ← m; k x) st Q.
Proof.
  unfold returns, outcome, mbind, M_bind. destruct (m st) as [[x|e] st']; auto.
Qed.

Lemma returns_mono {X} (m : M X) (st : pystate) (Q Q' : X -> pystate -> Prop) :
  returns m st Q -> (forall x st', Q x st' -> Q' x st') -> returns m st Q'.
Proof.
  unfold returns, outcome. destruct (m st) as [[x|e] st']; auto.
Qed.

Lemma returns_inv {X} (m : M X) (st : pystate) (Q : X -> pystate -> Prop) :
  returns m st Q <-> exists x st', m st = (Ok x, st') /\ Q x st'.
Proof.
  unfold returns, outcome. destruct (m st) as [[x|e] st']; split.
  - intros H. exists x, st'. auto.
  - intros (x' & st'' & Heq & H). congruence.
  - intros [].
  - intros (x' & st'' & Heq & H). congruence.
Qed.

Lemma returns_get_self (st : pystate) (Q : program -> pystate -> Prop) :
  Q (self st) st -> returns get_self st Q.
Proof. intros H. exact H. Qed.

Lemma returns_attr (name : string) (v : value) (st : pystate)
    (Q : value -> pystate -> Prop) :
  cfg (self st) !! name = Some v -> Q v st -> returns (attr name) st Q.
Proof. intros Hv H. unfold returns, outcome, attr. rewrite Hv. exact H. Qed.

Lemma returns_lift {X} (x : X) (r : result X) (st : pystate)
    (Q : X -> pystate -> Prop) :
  r = Ok x -> Q x st -> returns (lift r) st Q.
Proof. intros -> H. exact H. Qed.

Lemma returns_new_array (sh : list nat) (v : list Qc) (st : pystate)
    (Q : ndarray -> pystate -> Prop) :
  Q (fresh_at (length (heap st)) sh) (allocate st [v]) ->
  returns (new_array sh v) st Q.
Proof. intros H. exact H. Qed.

Lemma returns_np_binop (f : Qc -> Qc -> Qc) (a b : ndarray) (st : pystate)
    (Q : ndarray -> pystate -> Prop) :
  shape a = shape b ->
  Q (fresh_at (length (heap st)) (shape a))
    (allocate st [zip_with f (contents (heap st) a) (contents (heap st) b)]) ->
  returns (np_binop f a b) st Q.
Proof.
  intros Hs H. unfold np_binop. rewrite decide_True by exact Hs. exact H.
Qed.

Lemma returns_np_scalar (f : Qc -> Qc -> Qc) (a : ndarray) (x : Qc) (st : pystate)
    (Q : ndarray -> pystate -> Prop) :
  Q (fresh_at (length (heap st)) (shape a))
    (allocate st [map (fun e => f e x) (contents (heap st) a)]) ->
  returns (np_scalar f a x) st Q.
Proof. intros H. exact H. Qed.

Lemma returns_np_mean_axis0 (a : ndarray) (n : nat) (sh : list nat) (st : pystate)
    (Q : ndarray -> pystate -> Prop) :
  shape a = n :: sh ->
  Q (fresh_at (length (heap st)) sh)
    (allocate st [mean_axis0 n (prod_list sh) (contents (heap st) a)]) ->
  returns (np_mean_axis0 a) st Q.
Proof.
  intros Hs H. unfold np_mean_axis0. unfold shape in Hs.
  destruct (dims a) as [|[n' s] d]; [discriminate|].
  simpl in Hs. injection Hs as -> <-. exact H.
Qed.

(** ** Arrays across allocations *)

Lemma extends_refl (st : pystate) : extends st st.
Proof. split; reflexivity. Qed.

Lemma extends_trans (st1 st2 st3 : pystate) :
  extends st1 st2 -> extends st2 st3 -> extends st1 st3.
Proof.
  intros [H1 P1] [H2 P2]. split; [congruence | etrans; eassumption].
Qed.

Lemma extends_allocate (st : pystate) (new : list (list Qc)) :
  extends st (allocate st new).
Proof. split; [reflexivity | apply prefix_app_r; reflexivity]. Qed.

Lemma extends_length (st st' : pystate) :
  extends st st' -> length (heap st) <= length (heap st').
Proof. intros [_ H]. apply prefix_length. exact H. Qed.

Lemma holds_extends (st st' : pystate) (a : ndarray) (sh : list nat) (v : list Qc) :
  holds st a sh v -> extends st st' -> holds st' a sh v.
Proof.
  intros (Ha & Hs & Hc) Hext. pose proof (extends_length _ _ Hext) as Hl.
  destruct Hext as [_ [k Hk]]. unfold holds, allocated in *.
  rewrite Hk in *. rewrite contents_app by exact Ha.
  split; [lia | split; assumption].
Qed.

Lemma holds_fresh (st : pystate) (sh : list nat) (v : list Qc) :
  length v = prod_list sh ->
  holds (allocate st [v]) (fresh_at (length (heap st)) sh) sh v.
Proof.
  intros Hv. unfold holds, allocated, fresh_at, shape. simpl.
  rewrite length_app, shape_c_dims. simpl. split; [lia|]. split; [reflexivity|].
  apply contents_new. exact Hv.
Qed.

Lemma holds_length (st : pystate) (a : ndarray) (sh : list nat) (v : list Qc) :
  holds st a sh v -> length v = prod_list sh.
Proof.
  intros (_ & Hs & Hc). rewrite <- Hc, <- Hs. apply length_contents.
Qed.

(** ** The two statements that open [analyze_results] *)

Lemma contents_c_dims (h : list (list Qc)) (b off s : nat) (sh sh' : list nat) :
  prod_list sh = prod_list sh' ->
  contents h {| base := b; offset := off; dims := c_dims s sh |}
  = contents h {| base := b; offset := off; dims := c_dims s sh' |}.
Proof.
  intros H. unfold contents. simpl. rewrite !offsets_c_dims, H. reflexivity.
Qed.

Lemma returns_np_reshape (a : ndarray) (sh : list nat) (st : pystate)
    (Q : ndarray -> pystate -> Prop) :
  allocated st a ->
  size a = prod_list sh ->
  (forall r st', extends st st' -> holds st' r sh (contents (heap st) a) -> Q r st') ->
  returns (np_reshape a sh) st Q.
Proof.
  intros Ha Hsz HQ. unfold np_reshape.
  rewrite (proj2 (Nat.eqb_eq _ _) Hsz). simpl.
  assert (Hview : forall s,
             dims a = c_dims s (shape a) ->
             returns (mret {| base := base a; offset := offset a; dims := c_dims s sh |})
                     st Q).
  { intros s Hd. apply returns_ret, HQ; [apply extends_refl|].
    split; [exact Ha|]. split; [apply shape_c_dims|].
    destruct a as [b off d]. simpl in *. rewrite Hd.
    apply contents_c_dims. symmetry. exact Hsz. }
  destruct (dims a) as [|[N s] [|d1 d]] eqn:Hd.
  - rewrite decide_True by (unfold shape; rewrite Hd; reflexivity).
    apply Hview. unfold shape. rewrite Hd. reflexivity.
  - apply Hview. unfold shape. rewrite Hd. simpl. do 2 f_equal. lia.
  - destruct (decide _) as [Hc|Hc].
    + apply Hview. exact Hc.
    + apply returns_bind. apply returns_new_array.
      apply HQ; [apply extends_allocate|].
      apply holds_fresh. rewrite length_contents. exact Hsz.
Qed.

Lemma returns_normalize (a : ndarray) (sh : list nat) (tv : value) (t : Qc)
    (st : pystate) (Q : ndarray -> pystate -> Prop) :
  allocated st a ->
  data_shape (self st) = sh ->
  size a = prod_list sh ->
  cfg (self st) !! "readout_integration_treg" = Some tv ->
  as_number tv = Ok t ->
  (forall st', extends st st' ->
     Q (fresh_at (length (heap st')) sh)
       (allocate st' [map (fun e => (e / t)%Qc) (contents (heap st) a)])) ->
  returns (normalize a) st Q.
Proof.
  intros Ha Hsh Hsz Htv Ht HQ. unfold normalize.
  apply returns_bind, returns_get_self. rewrite Hsh.
  apply returns_bind, returns_np_reshape; [exact Ha | exact Hsz |].
  intros r st' Hext (Hr & Hrs & Hrc).
  apply returns_bind, (returns_attr _ tv).
  { destruct Hext as [-> _]. exact Htv. }
  unfold np_div_value.
  apply returns_bind, (returns_lift t); [exact Ht|].
  apply returns_np_scalar. rewrite Hrs, Hrc. apply HQ. exact Hext.
Qed.

(** ** The separation of signal and reference *)

Lemma getitem_last (b : nat) (lead : list nat) (n L j : nat) (st : pystate) :
  j < L ->
  getitem (fresh_at b (lead ++ [n; L])) (replicate (S (length lead)) Colon ++ [At j]) st
  = (Ok (last_view b (lead ++ [n]) L j), st).
Proof.
  intros Hj. unfold getitem, fresh_at, last_view. cbn [dims offset base].
  replace (lead ++ [n; L]) with ((lead ++ [n]) ++ [L])
    by (rewrite <- app_assoc; reflexivity).
  rewrite c_dims_app.
  replace (S (length lead)) with (length (c_dims (1 * L) (lead ++ [n])))
    by (rewrite length_c_dims, length_app; simpl; lia).
  rewrite getitem_aux_last.
  rewrite (proj2 (Nat.ltb_lt _ _) Hj). reflexivity.
Qed.

Lemma getitem_last_out (b : nat) (lead : list nat) (n L j : nat) (st : pystate) :
  L <= j ->
  getitem (fresh_at b (lead ++ [n; L])) (replicate (S (length lead)) Colon ++ [At j]) st
  = (Raise IndexError, st).
Proof.
  intros Hj. unfold getitem, fresh_at. cbn [dims offset base].
  replace (lead ++ [n; L]) with ((lead ++ [n]) ++ [L])
    by (rewrite <- app_assoc; reflexivity).
  rewrite c_dims_app.
  replace (S (length lead)) with (length (c_dims (1 * L) (lead ++ [n])))
    by (rewrite length_c_dims, length_app; simpl; lia).
  rewrite getitem_aux_last.
  rewrite (proj2 (Nat.ltb_ge _ _) Hj). reflexivity.
Qed.

Lemma separate_run (b : nat) (lead : list nat) (n L : nat) (st : pystate) :
  data_shape (self st) = lead ++ [n; L] ->
  length lead <= 2 ->
  2 <= L ->
  separate (fresh_at b (lead ++ [n; L])) st
  = (Ok (Some (last_view b (lead ++ [n]) L 0), Some (last_view b (lead ++ [n]) L 1)), st).
Proof.
  intros Hsh Hlen HL.
  pose proof (getitem_last b lead n L 0 st ltac:(lia)) as G0.
  pose proof (getitem_last b lead n L 1 st ltac:(lia)) as G1.
  unfold separate, mbind, M_bind, get_self. rewrite Hsh.
  destruct lead as [|x [|y [|z lead]]]; simpl in Hlen; try lia;
    cbn [app length Nat.eqb replicate] in *; cbv beta;
    rewrite G0, G1; reflexivity.
Qed.

(** ** Array operations on arrays of known values *)

Lemma holds_from_extends (lo : nat) (st st' : pystate) (a : ndarray)
    (sh : list nat) (v : list Qc) :
  holds_from lo st a sh v -> extends st st' -> holds_from lo st' a sh v.
Proof.
  intros [Hlo H] Hext. split; [exact Hlo | eapply holds_extends; eassumption].
Qed.

Lemma holds_from_fresh (lo : nat) (st : pystate) (sh : list nat) (v : list Qc) :
  lo <= length (heap st) ->
  length v = prod_list sh ->
  holds_from lo (allocate st [v]) (fresh_at (length (heap st)) sh) sh v.
Proof.
  intros Hlo Hv. split; [exact Hlo | apply holds_fresh; exact Hv].
Qed.

Lemma holds_from_bound (lo : nat) (st : pystate) (a : ndarray) (sh : list nat)
    (v : list Qc) :
  holds_from lo st a sh v -> lo <= length (heap st).
Proof. intros [Hlo [Ha _]]. unfold allocated in Ha. lia. Qed.

Lemma returns_binop_holds (lo : nat) (f : Qc -> Qc -> Qc) (a b : ndarray)
    (sh : list nat) (va vb : list Qc) (st : pystate)
    (Q : ndarray -> pystate -> Prop) :
  holds_from lo st a sh va ->
  holds_from lo st b sh vb ->
  (forall c st', extends st st' -> holds_from lo st' c sh (zip_with f va vb) -> Q c st') ->
  returns (np_binop f a b) st Q.
Proof.
  intros Ha Hb HQ.
  pose proof (holds_from_bound _ _ _ _ _ Ha) as Hlo.
  destruct Ha as [_ Ha], Hb as [_ Hb].
  pose proof (holds_length _ _ _ _ Ha) as La.
  pose proof (holds_length _ _ _ _ Hb) as Lb.
  destruct Ha as (_ & Sa & Ca), Hb as (_ & Sb & Cb).
  apply returns_np_binop; [congruence|].
  rewrite Sa, Ca, Cb. apply HQ; [apply extends_allocate|].
  apply holds_from_fresh; [exact Hlo|].
  rewrite length_zip_with. lia.
Qed.

Lemma returns_scalar_holds (lo : nat) (f : Qc -> Qc -> Qc) (a : ndarray) (x : Qc)
    (sh : list nat) (va : list Qc) (st : pystate)
    (Q : ndarray -> pystate -> Prop) :
  holds_from lo st a sh va ->
  (forall c st', extends st st' ->
     holds_from lo st' c sh (map (fun e => f e x) va) -> Q c st') ->
  returns (np_scalar f a x) st Q.
Proof.
  intros Ha HQ.
  pose proof (holds_from_bound _ _ _ _ _ Ha) as Hlo.
  destruct Ha as [_ Ha].
  pose proof (holds_length _ _ _ _ Ha) as La.
  destruct Ha as (_ & Sa & Ca).
  apply returns_np_scalar.
  rewrite Sa, Ca. apply HQ; [apply extends_allocate|].
  apply holds_from_fresh; [exact Hlo|].
  rewrite length_map. exact La.
Qed.

Lemma returns_mean_holds (lo : nat) (a : ndarray) (n : nat) (sh : list nat)
    (va : list Qc) (st : pystate) (Q : ndarray -> pystate -> Prop) :
  holds_from lo st a (n :: sh) va ->
  (forall c st', extends st st' ->
     holds_from lo st' c sh (mean_axis0 n (prod_list sh) va) -> Q c st') ->
  returns (np_mean_axis0 a) st Q.
Proof.
  intros Ha HQ.
  pose proof (holds_from_bound _ _ _ _ _ Ha) as Hlo.
  destruct Ha as [_ (_ & Sa & Ca)].
  apply (returns_np_mean_axis0 a n sh); [exact Sa|].
  rewrite Ca. apply HQ; [apply extends_allocate|].
  apply holds_from_fresh; [exact Hlo|].
  apply length_mean_axis0.
Qed.

Lemma returns_sweep_pts0 `{!qick} (lo : nat) (sw : sweep) (rest : list sweep)
    (st : pystate) (Q : ndarray -> pystate -> Prop) :
  lo <= length (heap st) ->
  qick_sweeps (self st) = sw :: rest ->
  (forall c st', extends st st' ->
     holds_from lo st' c [length (get_sweep_pts sw)] (get_sweep_pts sw) -> Q c st') ->
  returns sweep_pts0 st Q.
Proof.
  intros Hlo Hsw HQ. unfold sweep_pts0.
  apply returns_bind, returns_get_self. rewrite Hsw.
  apply returns_new_array. apply HQ; [apply extends_allocate|].
  apply holds_from_fresh; [exact Hlo|]. simpl. lia.
Qed.

Lemma prod_list_snoc (l : list nat) (n : nat) :
  prod_list (l ++ [n]) = prod_list l * n.
Proof. rewrite prod_list_app. simpl. lia. Qed.

Lemma ndim_shape (a : ndarray) : ndim a = length (shape a).
Proof. unfold ndim, shape. rewrite length_map. reflexivity. Qed.

(** Moves every fact about an array to a later state. *)
Ltac carry Hext :=
  repeat match goal with
    | H : holds_from _ ?st _ _ _ |- _ =>
        match type of Hext with
        | extends st _ => apply (fun h => holds_from_extends _ _ _ _ _ _ h Hext) in H
        end
    end.

(** ** The loops *)

Lemma lockin_mean_loop (lo n : nat) (lead : list nat) :
  forall (st : pystate) (o s r c : ndarray) (vo vs vr vc : list Qc)
         (Q : ndarray * ndarray * ndarray * ndarray -> pystate -> Prop),
    holds_from lo st o (lead ++ [n]) vo ->
    holds_from lo st s (lead ++ [n]) vs ->
    holds_from lo st r (lead ++ [n]) vr ->
    holds_from lo st c (lead ++ [n]) vc ->
    (forall o' s' r' c' st',
        extends st st' ->
        holds_from lo st' o' [n] (mean_leading lead n vo) ->
        holds_from lo st' s' [n] (mean_leading lead n vs) ->
        holds_from lo st' r' [n] (mean_leading lead n vr) ->
        holds_from lo st' c' [n] (mean_leading lead n vc) ->
        Q (o', s', r', c') st') ->
    returns (LockinODMR_johns.mean_loop (length lead) o s r c) st Q.
Proof.
  induction lead as [|a lead IH]; intros st o s r c vo vs vr vc Q Ho Hs Hr Hc HQ.
  - apply returns_ret, HQ; auto using extends_refl.
  - simpl app in *. simpl length. simpl LockinODMR_johns.mean_loop.
    apply returns_bind, (returns_mean_holds lo o a (lead ++ [n]) vo); [exact Ho|].
    intros o1 st1 E1 Ho1. carry E1.
    apply returns_bind, (returns_mean_holds lo s a (lead ++ [n]) vs); [exact Hs|].
    intros s1 st2 E2 Hs1. carry E2.
    apply returns_bind, (returns_mean_holds lo r a (lead ++ [n]) vr); [exact Hr|].
    intros r1 st3 E3 Hr1. carry E3.
    apply returns_bind, (returns_mean_holds lo c a (lead ++ [n]) vc); [exact Hc|].
    intros c1 st4 E4 Hc1. carry E4.
    rewrite prod_list_snoc in *.
    eapply IH; try eassumption.
    intros o' s' r' c' st' E5. apply HQ.
    eauto using extends_trans.
Qed.

Lemma rabi_mean_loop (lo n : nat) (lead : list nat) :
  forall (st : pystate) (s r : ndarray) (vs vr : list Qc)
         (Q : ndarray * ndarray -> pystate -> Prop),
    holds_from lo st s (lead ++ [n]) vs ->
    holds_from lo st r (lead ++ [n]) vr ->
    (forall s' r' st',
        extends st st' ->
        holds_from lo st' s' [n] (mean_leading lead n vs) ->
        holds_from lo st' r' [n] (mean_leading lead n vr) ->
        Q (s', r') st') ->
    returns (RabiSweep_johns.mean_loop (length lead) s r) st Q.
Proof.
  induction lead as [|a lead IH]; intros st s r vs vr Q Hs Hr HQ.
  - apply returns_ret, HQ; auto using extends_refl.
  - simpl app in *. simpl length. simpl RabiSweep_johns.mean_loop.
    apply returns_bind, (returns_mean_holds lo s a (lead ++ [n]) vs); [exact Hs|].
    intros s1 st1 E1 Hs1. carry E1.
    apply returns_bind, (returns_mean_holds lo r a (lead ++ [n]) vr); [exact Hr|].
    intros r1 st2 E2 Hr1. carry E2.
    rewrite prod_list_snoc in *.
    eapply IH; try eassumption.
    intros s' r' st' E3. apply HQ.
    eauto using extends_trans.
Qed.

(** ** The reduction of separated data *)

Lemma lockin_reduce_run `{!qick} (lo n : nat) (lead : list nat) (st : pystate)
    (s r : ndarray) (vs vr : list Qc) (sw : sweep) (rest : list sweep)
    (Q : ItemAttribute -> pystate -> Prop) :
  holds_from lo st s (lead ++ [n]) vs ->
  holds_from lo st r (lead ++ [n]) vr ->
  qick_sweeps (self st) = sw :: rest ->
  (forall d st',
      extends st st' ->
      lockin_result lo st' d n
        (mean_leading lead n (difference vs vr))
        (mean_leading lead n vs)
        (mean_leading lead n vr)
        (mean_leading lead n (contrast_of vs vr))
        (get_sweep_pts sw) ->
      Q d st') ->
  returns (LockinODMR_johns.reduce (Some s) (Some r)) st Q.
Proof.
  intros Hs Hr Hsw HQ. unfold LockinODMR_johns.reduce. simpl local.
  apply returns_bind, returns_ret. apply returns_bind, returns_ret.
  apply returns_bind; eapply (returns_binop_holds lo Qcminus s r); [exact Hs | exact Hr |].
  intros o st1 E1 Ho. carry E1.
  apply returns_bind, returns_ret. apply returns_bind, returns_ret.
  apply returns_bind; eapply (returns_binop_holds lo Qcminus s r); [exact Hs | exact Hr |].
  intros df st2 E2 Hdf. carry E2.
  apply returns_bind, returns_ret.
  apply returns_bind; eapply (returns_binop_holds lo Qcdiv df r); [exact Hdf | exact Hr |].
  intros qt st3 E3 Hqt. carry E3.
  apply returns_bind; eapply (returns_scalar_holds lo Qcmult qt); [exact Hqt|].
  intros c st4 E4 Hc. carry E4.
  apply returns_bind, returns_ret. apply returns_bind, returns_ret.
  replace (ndim o - 1) with (length lead).
  2:{ rewrite ndim_shape. destruct Ho as [_ (_ & -> & _)].
      rewrite length_app. simpl. lia. }
  apply returns_bind.
  eapply (lockin_mean_loop lo n lead st4 o s r c); try eassumption.
  intros o' s' r' c' st5 E5 Ho' Hs' Hr' Hc'.
  assert (Hsw5 : qick_sweeps (self st5) = sw :: rest).
  { destruct E1 as [e1 _], E2 as [e2 _], E3 as [e3 _], E4 as [e4 _], E5 as [e5 _].
    congruence. }
  apply returns_bind, (returns_sweep_pts0 lo sw rest); [|exact Hsw5|].
  { eapply holds_from_bound. exact Ho'. }
  intros f st6 E6 Hf. carry E6.
  apply returns_ret, HQ.
  { eauto 10 using extends_trans. }
  exists o', s', r', c', f.
  split; [reflexivity|]. repeat (split; [assumption|]). assumption.
Qed.

Lemma rabi_reduce_run `{!qick} (lo n : nat) (lead : list nat) (st : pystate)
    (s r : ndarray) (vs vr : list Qc) (sw : sweep) (rest : list sweep)
    (Q : ItemAttribute -> pystate -> Prop) :
  holds_from lo st s (lead ++ [n]) vs ->
  holds_from lo st r (lead ++ [n]) vr ->
  qick_sweeps (self st) = sw :: rest ->
  (forall d st',
      extends st st' ->
      rabi_result lo st' d n
        (mean_leading lead n vs)
        (mean_leading lead n vr)
        (contrast_of (mean_leading lead n vs) (mean_leading lead n vr))
        (get_sweep_pts sw)
        (map (fun e => (e * cycles2us 1)%Qc) (get_sweep_pts sw)) ->
      Q d st') ->
  returns (RabiSweep_johns.reduce (Some s) (Some r)) st Q.
Proof.
  intros Hs Hr Hsw HQ. unfold RabiSweep_johns.reduce. simpl local.
  apply returns_bind, returns_ret. apply returns_bind, returns_ret.
  replace (ndim s - 1) with (length lead).
  2:{ rewrite ndim_shape. destruct Hs as [_ (_ & -> & _)].
      rewrite length_app. simpl. lia. }
  apply returns_bind.
  eapply (rabi_mean_loop lo n lead st s r); try eassumption.
  intros s' r' st1 E1 Hs' Hr'.
  apply returns_bind; eapply (returns_binop_holds lo Qcminus s' r'); [exact Hs' | exact Hr' |].
  intros df st2 E2 Hdf. carry E2.
  apply returns_bind; eapply (returns_binop_holds lo Qcdiv df r'); [exact Hdf | exact Hr' |].
  intros qt st3 E3 Hqt. carry E3.
  apply returns_bind; eapply (returns_scalar_holds lo Qcmult qt); [exact Hqt|].
  intros c st4 E4 Hc. carry E4.
  assert (Hsw4 : qick_sweeps (self st4) = sw :: rest).
  { destruct E1 as [e1 _], E2 as [e2 _], E3 as [e3 _], E4 as [e4 _]. congruence. }
  apply returns_bind, (returns_sweep_pts0 lo sw rest); [|exact Hsw4|].
  { eapply holds_from_bound. exact Hc. }
  intros f1 st5 E5 Hf1. carry E5.
  assert (Hsw5 : qick_sweeps (self st5) = sw :: rest).
  { destruct E5 as [e5 _]. congruence. }
  apply returns_bind, (returns_sweep_pts0 lo sw rest); [|exact Hsw5|].
  { eapply holds_from_bound. exact Hc. }
  intros f2 st6 E6 Hf2. carry E6.
  apply returns_bind; eapply (returns_scalar_holds lo Qcmult f2); [exact Hf2|].
  intros f3 st7 E7 Hf3. carry E7.
  apply returns_ret, HQ.
  { eauto 10 using extends_trans. }
  exists s', r', c, f1, f3. rewrite length_map.
  split; [reflexivity|]. repeat (split; [assumption|]). assumption.
Qed.

(** ** The whole analysis *)

Lemma holds_last_view (lo : nat) (st : pystate) (b : nat) (sh : list nat)
    (L j : nat) (nd : list Qc) :
  heap st !! b = Some nd ->
  lo <= b ->
  holds_from lo st (last_view b sh L j) sh (last_axis L j (prod_list sh) nd).
Proof.
  intros Hb Hlo. split; [exact Hlo|]. split; [|split].
  - unfold allocated. simpl. eapply lookup_lt_Some. exact Hb.
  - unfold shape, last_view. simpl. apply shape_c_dims.
  - apply contents_last_axis. exact Hb.
Qed.

Lemma returns_separate (b : nat) (lead : list nat) (n L : nat) (st : pystate)
    (Q : option ndarray * option ndarray -> pystate -> Prop) :
  data_shape (self st) = lead ++ [n; L] ->
  length lead <= 2 ->
  2 <= L ->
  Q (Some (last_view b (lead ++ [n]) L 0), Some (last_view b (lead ++ [n]) L 1)) st ->
  returns (separate (fresh_at b (lead ++ [n; L]))) st Q.
Proof.
  intros Hsh Hlen HL HQ. unfold returns, outcome.
  rewrite (separate_run b lead n L st Hsh Hlen HL). exact HQ.
Qed.

Section Analysis.

Context `{!qick}.
Variables (a : ndarray) (st : pystate).
Variables (lead : list nat) (n L : nat).
Variables (tv : value) (t : Qc) (sw : sweep) (rest : list sweep).

Hypothesis Halloc : allocated st a.
Hypothesis Hshape : data_shape (self st) = lead ++ [n; L].
Hypothesis Hlead : length lead <= 2.
Hypothesis Hlast : 2 <= L.
Hypothesis Hsize : size a = prod_list (data_shape (self st)).
Hypothesis Htreg : cfg (self st) !! "readout_integration_treg" = Some tv.
Hypothesis Hnum : as_number tv = Ok t.
Hypothesis Hsweep : qick_sweeps (self st) = sw :: rest.

Let p := prod_list lead * n.
Let sig := signal_of t L p (contents (heap st) a).
Let ref := reference_of t L p (contents (heap st) a).

(** After the first two statements and the [if]/[elif] chain, [signal]
    and [reference] are the two slices of the normalized data. *)
Lemma separated_run {X} (k : option ndarray * option ndarray -> M X)
    (Q : X -> pystate -> Prop) :
  (forall s r st',
      extends st st' ->
      holds_from (length (heap st)) st' s (lead ++ [n]) sig ->
      holds_from (length (heap st)) st' r (lead ++ [n]) ref ->
      returns (k (Some s, Some r)) st' Q) ->
  returns (data ← normalize a; sr ← separate data; k sr) st Q.
Proof.
  intros HQ. apply returns_bind.
  apply (returns_normalize a (lead ++ [n; L]) tv t);
    [exact Halloc | exact Hshape | rewrite <- Hshape; exact Hsize
     | exact Htreg | exact Hnum |].
  intros st1 E1.
  assert (Hb : heap (allocate st1 [normalized t (contents (heap st) a)])
               !! length (heap st1)
               = Some (normalized t (contents (heap st) a))).
  { simpl. apply list_lookup_middle. reflexivity. }
  pose proof (extends_length _ _ E1) as Hlen.
  apply returns_bind.
  apply returns_separate; [|exact Hlead | exact Hlast |].
  { simpl. destruct E1 as [-> _]. exact Hshape. }
  apply HQ.
  - eapply extends_trans; [exact E1 | apply extends_allocate].
  - unfold sig, signal_of, p. rewrite <- prod_list_snoc.
    apply holds_last_view; [exact Hb | exact Hlen].
  - unfold ref, reference_of, p. rewrite <- prod_list_snoc.
    apply holds_last_view; [exact Hb | exact Hlen].
Qed.

Lemma lockin_analyze_run :
  returns (LockinODMR_johns.analyze_results a) st (fun d st' =>
    extends st st' /\
    lockin_result (length (heap st)) st' d n
      (mean_leading lead n (difference sig ref))
      (mean_leading lead n sig)
      (mean_leading lead n ref)
      (mean_leading lead n (contrast_of sig ref))
      (get_sweep_pts sw)).
Proof.
  unfold LockinODMR_johns.analyze_results.
  apply separated_run. intros s r st1 E1 Hs Hr.
  eapply lockin_reduce_run; [exact Hs | exact Hr | |].
  { destruct E1 as [-> _]. exact Hsweep. }
  intros d st2 E2 Hd. split; [eapply extends_trans; eassumption | exact Hd].
Qed.

Lemma rabi_analyze_run :
  returns (RabiSweep_johns.analyze_results a) st (fun d st' =>
    extends st st' /\
    rabi_result (length (heap st)) st' d n
      (mean_leading lead n sig)
      (mean_leading lead n ref)
      (contrast_of (mean_leading lead n sig) (mean_leading lead n ref))
      (get_sweep_pts sw)
      (map (fun e => (e * cycles2us 1)%Qc) (get_sweep_pts sw))).
Proof.
  unfold RabiSweep_johns.analyze_results.
  apply separated_run. intros s r st1 E1 Hs Hr.
  eapply rabi_reduce_run; [exact Hs | exact Hr | |].
  { destruct E1 as [-> _]. exact Hsweep. }
  intros d st2 E2 Hd. split; [eapply extends_trans; eassumption | exact Hd].
Qed.

End Analysis.

(** The small experiment, run: the normalized data are
    [[[2, 1], [4, 4]], [[6, 3], [8, 2]]], so that signal is [[2, 4], [6, 8]],
    reference [[1, 4], [3, 2]], and their means over the two repetitions are
    [4, 6] and [2, 3]. *)
Example lockin_sample_run :
  exists d st' odmr signal reference,
    @LockinODMR_johns.analyze_results sample_lib (acquired 8)
      (sample_state [2; 2; 2] sample_data) = (Ok d, st')
    /\ d !! "odmr" = Some odmr
    /\ d !! "signal" = Some signal
    /\ d !! "reference" = Some reference
    /\ map this (contents (heap st') odmr) = [2; 3]%Q
    /\ map this (contents (heap st') signal) = [4; 6]%Q
    /\ map this (contents (heap st') reference) = [2; 3]%Q.
Proof.
  assert (Ha : allocated (sample_state [2; 2; 2] sample_data) (acquired 8))
    by (unfold allocated; simpl; lia).
  pose proof (@lockin_analyze_run sample_lib (acquired 8)
                (sample_state [2; 2; 2] sample_data) [2] 2 2 (num 2) (Qc_of_Z 2)
                sample_sweep [] Ha eq_refl ltac:(simpl; lia) ltac:(lia)
                eq_refl eq_refl eq_refl eq_refl) as Hl.
  destruct (proj1 (returns_inv _ _ _) Hl)
    as (d & st' & Hd & _ & (ao & asig & aref & ac & af & -> & Ho & Hs & Hr & _)).
  clear Hl.
  eexists _, st', ao, asig, aref.
  split; [exact Hd|].
  split; [reflexivity|]. split; [reflexivity|]. split; [reflexivity|].
  destruct Ho as [_ (_ & _ & ->)], Hs as [_ (_ & _ & ->)], Hr as [_ (_ & _ & ->)].
  repeat split; vm_compute; reflexivity.
Qed.

(** ** Lengths of the separated quantities *)

Lemma length_last_axis (L k p : nat) (v : list Qc) : length (last_axis L k p v) = p.
Proof. unfold last_axis. rewrite length_map, length_seq. reflexivity. Qed.

Lemma length_signal_of (t : Qc) (L p : nat) (v : list Qc) :
  length (signal_of t L p v) = p.
Proof. apply length_last_axis. Qed.

Lemma length_reference_of (t : Qc) (L p : nat) (v : list Qc) :
  length (reference_of t L p v) = p.
Proof. apply length_last_axis. Qed.

Lemma length_difference (x y : list Qc) (p : nat) :
  length x = p -> length y = p -> length (difference x y) = p.
Proof. intros Hx Hy. unfold difference. rewrite length_zip_with. lia. Qed.

Lemma length_contrast_of (x y : list Qc) (p : nat) :
  length x = p -> length y = p -> length (contrast_of x y) = p.
Proof.
  intros Hx Hy. unfold contrast_of. rewrite length_map, !length_zip_with. lia.
Qed.

(** ** Signal minus reference, and the contrast, of LockinODMR_johns *)

(** The integration time of the small experiment is not zero. *)
Lemma sample_treg_nonzero : Qc_of_Z 2 <> 0%Qc.
Proof. intros H. apply (f_equal this) in H. discriminate H. Qed.

(** C1, as amended.  On a program with a numeric readout_integration_treg
    and a registered sweep, for an input array whose size is the product of
    data_shape, data_shape having 2, 3 or 4 axes the last of which has length
    at least 2, analyze_results returns, and its [odmr] and [odmr_contrast]
    are one-dimensional with one entry per sweep point.  When
    readout_integration_treg is not zero and no leading axis is empty,
    [odmr] is, at every sweep point, the mean over all leading axes of
    [signal - reference]; when in addition no reference reading is zero,
    [odmr_contrast] is the mean over all leading axes of
    [(signal - reference) / reference * 100]; each is taken elementwise on
    the reshaped and time-normalized data, signal being index 0 and
    reference index 1 of the last axis. *)
Theorem lockin_analyze_results_values `{!qick} (a : ndarray) (st : pystate)
    (lead : list nat) (n L : nat) (tv : value) (t : Qc)
    (sw : sweep) (rest : list sweep) :
  allocated st a ->
  data_shape (self st) = lead ++ [n; L] ->
  length lead <= 2 ->
  2 <= L ->
  size a = prod_list (data_shape (self st)) ->
  cfg (self st) !! "readout_integration_treg" = Some tv ->
  as_number tv = Ok t ->
  qick_sweeps (self st) = sw :: rest ->
  let p := prod_list lead in
  let signal := signal_of t L (p * n) (contents (heap st) a) in
  let reference := reference_of t L (p * n) (contents (heap st) a) in
  exists d st' odmr odmr_contrast,
    LockinODMR_johns.analyze_results a st = (Ok d, st')
    /\ d !! "odmr" = Some odmr
    /\ d !! "odmr_contrast" = Some odmr_contrast
    /\ shape odmr = [n]
    /\ shape odmr_contrast = [n]
    /\ (t <> 0%Qc -> 0 < p ->
        contents (heap st') odmr = grand_mean p n (difference signal reference)
        /\ (Forall (fun r => r <> 0%Qc) reference ->
            contents (heap st') odmr_contrast
            = grand_mean p n (contrast_of signal reference))).
Proof.
  intros Ha Hsh Hlead HL Hsz Htv Ht Hsw p signal reference.
  pose proof (lockin_analyze_run a st lead n L tv t sw rest
                Ha Hsh Hlead HL Hsz Htv Ht Hsw) as Hrun.
  apply returns_inv in Hrun.
  destruct Hrun as (d & st' & Hd & _ & (ao & asig & aref & ac & af & -> & Ho & _ & _ & Hc & _)).
  eexists _, st', ao, ac. split; [exact Hd|].
  destruct Ho as [_ (_ & So & Co)], Hc as [_ (_ & Sc & Cc)].
  split; [reflexivity|]. split; [reflexivity|].
  split; [exact So|]. split; [exact Sc|].
  intros _ _. split; [|intros _].
  - rewrite Co. apply mean_leading_grand_mean.
    apply length_difference; [apply length_signal_of | apply length_reference_of].
  - rewrite Cc. apply mean_leading_grand_mean.
    apply length_contrast_of; [apply length_signal_of | apply length_reference_of].
Qed.

Lemma lockin_analyze_results_values_witness :
  let st := sample_state [2; 2; 2] sample_data in
  let signal := signal_of (Qc_of_Z 2) 2 4 sample_data in
  let reference := reference_of (Qc_of_Z 2) 2 4 sample_data in
  exists d st' odmr odmr_contrast,
    @LockinODMR_johns.analyze_results sample_lib (acquired 8) st = (Ok d, st')
    /\ d !! "odmr" = Some odmr
    /\ d !! "odmr_contrast" = Some odmr_contrast
    /\ shape odmr = [2]
    /\ shape odmr_contrast = [2]
    /\ contents (heap st') odmr = grand_mean 2 2 (difference signal reference)
    /\ contents (heap st') odmr_contrast = grand_mean 2 2 (contrast_of signal reference).
Proof.
  intros st signal reference.
  assert (Ha : allocated st (acquired 8)) by (unfold allocated; simpl; lia).
  destruct (@lockin_analyze_results_values sample_lib (acquired 8) st [2] 2 2
              (num 2) (Qc_of_Z 2) sample_sweep []
              Ha eq_refl ltac:(simpl; lia) ltac:(lia) eq_refl eq_refl eq_refl eq_refl)
    as (d & st' & o & c & Hd & Ho & Hc & So & Sc & Hv).
  destruct (Hv sample_treg_nonzero ltac:(simpl; lia)) as [Co Cc].
  exists d, st', o, c.
  repeat (split; [assumption|]). apply Cc.
  apply (bool_decide_unpack _). vm_compute. exact I.
Defined.

(** C1, as stated, fails on an acquisition with one read per repetition:
    the size is the product of data_shape and data_shape has two axes, yet
    [data[:, 1]] is out of range and nothing is returned. *)
Lemma lockin_analyze_results_one_read :
  size (acquired 3) = prod_list [3; 1]
  /\ length [3; 1] = 2
  /\ fst (@LockinODMR_johns.analyze_results sample_lib (acquired 3)
            (sample_state [3; 1] (map Qc_of_Z [4; 8; 12]%Z)))
     = Raise IndexError.
Proof. repeat split. Qed.

(** ** What happens before signal and reference are separated *)

Lemma normalize_run (a : ndarray) (st : pystate) (sh : list nat) (tv : value) (t : Qc) :
  allocated st a ->
  data_shape (self st) = sh ->
  size a = prod_list sh ->
  cfg (self st) !! "readout_integration_treg" = Some tv ->
  as_number tv = Ok t ->
  exists st1,
    extends st st1
    /\ normalize a st
       = (Ok (fresh_at (length (heap st1)) sh),
          allocate st1 [normalized t (contents (heap st) a)]).
Proof.
  intros Ha Hsh Hsz Htv Ht.
  pose proof (returns_normalize a sh tv t st
                (fun x st2 => exists st1, extends st st1
                   /\ x = fresh_at (length (heap st1)) sh
                   /\ st2 = allocate st1 [normalized t (contents (heap st) a)])
                Ha Hsh Hsz Htv Ht) as H.
  apply returns_inv in H.
  - destruct H as (x & st2 & Heq & st1 & E1 & -> & ->). exists st1. auto.
  - intros st1 E1. exists st1. auto.
Qed.

(** C2.  In both classes analyze_results first reshapes the input to
    data_shape and divides every element by readout_integration_treg: this
    gives a new array [data] of shape data_shape which, for a
    readout_integration_treg other than zero, holds the values [v / t] in
    the order of the input.  When data_shape has 2, 3 or 4 axes, the last of
    length at least 2, the [if]/[elif] chain then binds signal and reference
    to the views [data[..., 0]] and [data[..., 1]] of that array, whose
    entries are entries of [data] untouched, and the rest of the method is
    run on these two views. *)
Theorem analyze_results_normalize_then_separate `{!qick} (a : ndarray) (st : pystate)
    (tv : value) (t : Qc) :
  allocated st a ->
  size a = prod_list (data_shape (self st)) ->
  cfg (self st) !! "readout_integration_treg" = Some tv ->
  as_number tv = Ok t ->
  exists data st1,
    normalize a st = (Ok data, st1)
    /\ self st1 = self st
    /\ allocated st1 data
    /\ length (heap st) <= base data
    /\ shape data = data_shape (self st)
    /\ (t <> 0%Qc ->
        contents (heap st1) data = normalized t (contents (heap st) a))
    /\ forall lead n L,
         data_shape (self st) = lead ++ [n; L] ->
         length lead <= 2 ->
         2 <= L ->
         exists signal reference,
           separate data st1 = (Ok (Some signal, Some reference), st1)
           /\ base signal = base data
           /\ base reference = base data
           /\ shape signal = lead ++ [n]
           /\ shape reference = lead ++ [n]
           /\ contents (heap st1) signal
              = last_axis L 0 (prod_list lead * n) (contents (heap st1) data)
           /\ contents (heap st1) reference
              = last_axis L 1 (prod_list lead * n) (contents (heap st1) data)
           /\ LockinODMR_johns.analyze_results a st
              = LockinODMR_johns.reduce (Some signal) (Some reference) st1
           /\ RabiSweep_johns.analyze_results a st
              = RabiSweep_johns.reduce (Some signal) (Some reference) st1.
Proof.
  intros Ha Hsz Htv Ht.
  destruct (normalize_run a st (data_shape (self st)) tv t Ha eq_refl Hsz Htv Ht)
    as (st0 & E0 & Hn).
  set (nd := normalized t (contents (heap st) a)) in *.
  set (st1 := allocate st0 [nd]) in *.
  set (b := length (heap st0)) in *.
  assert (Hself : self st1 = self st) by (simpl; apply E0).
  assert (Hdata : holds st1 (fresh_at b (data_shape (self st)))
                    (data_shape (self st)) nd).
  { apply holds_fresh. unfold nd, normalized.
    rewrite length_map, length_contents. exact Hsz. }
  assert (Hb : heap st1 !! b = Some nd).
  { simpl. apply list_lookup_middle. reflexivity. }
  exists (fresh_at b (data_shape (self st))), st1.
  split; [exact Hn|]. split; [exact Hself|].
  destruct Hdata as (Hall & Hshape & Hcont).
  split; [exact Hall|].
  split; [apply (extends_length _ _ E0)|].
  split; [exact Hshape|].
  split; [intros _; exact Hcont|].
  intros lead n L Hsh Hlead HL. rewrite Hsh in *.
  assert (Hsh1 : data_shape (self st1) = lead ++ [n; L]) by congruence.
  pose proof (separate_run b lead n L st1 Hsh1 Hlead HL) as Hsep.
  exists (last_view b (lead ++ [n]) L 0), (last_view b (lead ++ [n]) L 1).
  split; [exact Hsep|]. split; [reflexivity|]. split; [reflexivity|].
  split; [unfold shape, last_view; simpl; apply shape_c_dims|].
  split; [unfold shape, last_view; simpl; apply shape_c_dims|].
  rewrite Hcont, <- prod_list_snoc.
  split; [apply contents_last_axis; exact Hb|].
  split; [apply contents_last_axis; exact Hb|].
  split.
  - unfold LockinODMR_johns.analyze_results.
    rewrite (bind_Ok _ _ _ _ _ Hn), (bind_Ok _ _ _ _ _ Hsep). reflexivity.
  - unfold RabiSweep_johns.analyze_results.
    rewrite (bind_Ok _ _ _ _ _ Hn), (bind_Ok _ _ _ _ _ Hsep). reflexivity.
Qed.

Lemma analyze_results_normalize_then_separate_witness :
  let st := sample_state [2; 2; 2] sample_data in
  exists data st1 signal reference,
    normalize (acquired 8) st = (Ok data, st1)
    /\ self st1 = self st
    /\ shape data = [2; 2; 2]
    /\ contents (heap st1) data = normalized (Qc_of_Z 2) sample_data
    /\ separate data st1 = (Ok (Some signal, Some reference), st1)
    /\ base signal = base data
    /\ base reference = base data
    /\ contents (heap st1) signal = last_axis 2 0 4 (contents (heap st1) data)
    /\ contents (heap st1) reference = last_axis 2 1 4 (contents (heap st1) data)
    /\ @LockinODMR_johns.analyze_results sample_lib (acquired 8) st
       = @LockinODMR_johns.reduce sample_lib (Some signal) (Some reference) st1
    /\ @RabiSweep_johns.analyze_results sample_lib (acquired 8) st
       = @RabiSweep_johns.reduce sample_lib (Some signal) (Some reference) st1.
Proof.
  intros st.
  assert (Ha : allocated st (acquired 8)) by (unfold allocated; simpl; lia).
  destruct (@analyze_results_normalize_then_separate sample_lib (acquired 8) st
              (num 2) (Qc_of_Z 2) Ha eq_refl eq_refl eq_refl)
    as (data & st1 & Hn & Hself & _ & _ & Hshape & Hcont & Hsep).
  destruct (Hsep [2] 2 2 eq_refl ltac:(simpl; lia) ltac:(lia))
    as (s & r & Hs & Bs & Br & _ & _ & Cs & Cr & Hl & Hr).
  exists data, st1, s, r.
  split; [exact Hn|]. split; [exact Hself|]. split; [exact Hshape|].
  split; [exact (Hcont sample_treg_nonzero)|].
  repeat (split; [assumption|]). assumption.
Defined.

(** ** The iterated mean *)

(** C3, as amended.  On a program with a numeric readout_integration_treg
    and a registered sweep, for an input array whose size is the product of
    data_shape, data_shape having 2, 3 or 4 axes the last of which has length
    at least 2, the loop of analyze_results, which takes one axis-0 mean per
    leading axis, leaves [odmr], [signal], [reference] and [odmr_contrast]
    of LockinODMR_johns, and [signal] and [reference] of RabiSweep_johns,
    one-dimensional with one entry per sweep point.  When
    readout_integration_treg is not zero and no leading axis is empty, the
    entry at a sweep point is the arithmetic mean of that quantity over all
    positions of the leading axes taken together; for [odmr_contrast], when
    in addition no reference reading is zero. *)
Theorem analyze_results_means_over_leading_axes `{!qick} (a : ndarray) (st : pystate)
    (lead : list nat) (n L : nat) (tv : value) (t : Qc)
    (sw : sweep) (rest : list sweep) :
  allocated st a ->
  data_shape (self st) = lead ++ [n; L] ->
  length lead <= 2 ->
  2 <= L ->
  size a = prod_list (data_shape (self st)) ->
  cfg (self st) !! "readout_integration_treg" = Some tv ->
  as_number tv = Ok t ->
  qick_sweeps (self st) = sw :: rest ->
  let p := prod_list lead in
  let signal := signal_of t L (p * n) (contents (heap st) a) in
  let reference := reference_of t L (p * n) (contents (heap st) a) in
  (exists d st' o s r c,
      LockinODMR_johns.analyze_results a st = (Ok d, st')
      /\ d !! "odmr" = Some o
      /\ d !! "signal" = Some s
      /\ d !! "reference" = Some r
      /\ d !! "odmr_contrast" = Some c
      /\ shape o = [n] /\ shape s = [n] /\ shape r = [n] /\ shape c = [n]
      /\ (t <> 0%Qc -> 0 < p ->
          contents (heap st') o = grand_mean p n (difference signal reference)
          /\ contents (heap st') s = grand_mean p n signal
          /\ contents (heap st') r = grand_mean p n reference
          /\ (Forall (fun x => x <> 0%Qc) reference ->
              contents (heap st') c = grand_mean p n (contrast_of signal reference))))
  /\ (exists d st' s r,
      RabiSweep_johns.analyze_results a st = (Ok d, st')
      /\ d !! "signal" = Some s
      /\ d !! "reference" = Some r
      /\ shape s = [n] /\ shape r = [n]
      /\ (t <> 0%Qc -> 0 < p ->
          contents (heap st') s = grand_mean p n signal
          /\ contents (heap st') r = grand_mean p n reference)).
Proof.
  intros Ha Hsh Hlead HL Hsz Htv Ht Hsw p signal reference.
  assert (Ls : length signal = p * n) by apply length_signal_of.
  assert (Lr : length reference = p * n) by apply length_reference_of.
  split.
  - pose proof (lockin_analyze_run a st lead n L tv t sw rest
                  Ha Hsh Hlead HL Hsz Htv Ht Hsw) as Hrun.
    apply returns_inv in Hrun.
    destruct Hrun as (d & st' & Hd & _
                      & (ao & asig & aref & ac & af & -> & Ho & Hs & Hr & Hc & _)).
    eexists _, st', ao, asig, aref, ac. split; [exact Hd|].
    destruct Ho as [_ (_ & So & Co)], Hs as [_ (_ & Ss & Cs)],
      Hr as [_ (_ & Sr & Cr)], Hc as [_ (_ & Sc & Cc)].
    fold p signal reference in Co, Cs, Cr, Cc.
    rewrite mean_leading_grand_mean in Cs, Cr by assumption.
    rewrite mean_leading_grand_mean in Co by (apply length_difference; assumption).
    rewrite mean_leading_grand_mean in Cc by (apply length_contrast_of; assumption).
    do 4 (split; [reflexivity|]). do 4 (split; [assumption|]).
    intros _ _. do 3 (split; [assumption|]). intros _. exact Cc.
  - pose proof (rabi_analyze_run a st lead n L tv t sw rest
                  Ha Hsh Hlead HL Hsz Htv Ht Hsw) as Hrun.
    apply returns_inv in Hrun.
    destruct Hrun as (d & st' & Hd & _
                      & (bs & br & bc & b1 & b2 & -> & Hs & Hr & _)).
    eexists _, st', bs, br. split; [exact Hd|].
    destruct Hs as [_ (_ & Ss & Cs)], Hr as [_ (_ & Sr & Cr)].
    fold p signal reference in Cs, Cr.
    rewrite mean_leading_grand_mean in Cs, Cr by assumption.
    do 2 (split; [reflexivity|]). do 2 (split; [assumption|]).
    intros _ _. split; assumption.
Qed.

Lemma analyze_results_means_over_leading_axes_witness :
  let st := sample_state [2; 2; 2] sample_data in
  let signal := signal_of (Qc_of_Z 2) 2 4 sample_data in
  let reference := reference_of (Qc_of_Z 2) 2 4 sample_data in
  (exists d st' o s r c,
      @LockinODMR_johns.analyze_results sample_lib (acquired 8) st = (Ok d, st')
      /\ d !! "odmr" = Some o
      /\ d !! "signal" = Some s
      /\ d !! "reference" = Some r
      /\ d !! "odmr_contrast" = Some c
      /\ shape o = [2] /\ shape s = [2] /\ shape r = [2] /\ shape c = [2]
      /\ contents (heap st') o = grand_mean 2 2 (difference signal reference)
      /\ contents (heap st') s = grand_mean 2 2 signal
      /\ contents (heap st') r = grand_mean 2 2 reference
      /\ contents (heap st') c = grand_mean 2 2 (contrast_of signal reference))
  /\ (exists d st' s r,
      @RabiSweep_johns.analyze_results sample_lib (acquired 8) st = (Ok d, st')
      /\ d !! "signal" = Some s
      /\ d !! "reference" = Some r
      /\ shape s = [2] /\ shape r = [2]
      /\ contents (heap st') s = grand_mean 2 2 signal
      /\ contents (heap st') r = grand_mean 2 2 reference).
Proof.
  intros st signal reference.
  assert (Ha : allocated st (acquired 8)) by (unfold allocated; simpl; lia).
  destruct (@analyze_results_means_over_leading_axes sample_lib (acquired 8) st
              [2] 2 2 (num 2) (Qc_of_Z 2) sample_sweep []
              Ha eq_refl ltac:(simpl; lia) ltac:(lia) eq_refl eq_refl eq_refl eq_refl)
    as [(d & st' & o & s & r & c & Hd & Do & Ds & Dr & Dc & So & Ss & Sr & Sc & Hv)
        (d2 & st2 & s2 & r2 & Hd2 & Ds2 & Dr2 & Ss2 & Sr2 & Hv2)].
  destruct (Hv sample_treg_nonzero ltac:(simpl; lia)) as (Co & Cs & Cr & Cc).
  destruct (Hv2 sample_treg_nonzero ltac:(simpl; lia)) as (Cs2 & Cr2).
  split.
  - exists d, st', o, s, r, c. repeat (split; [assumption|]). apply Cc.
    apply (bool_decide_unpack _). vm_compute. exact I.
  - exists d2, st2, s2, r2. repeat (split; [assumption|]). assumption.
Defined.

(** C3, as stated, fails on an acquisition with one read per repetition:
    data_shape has three axes and the size is their product, yet
    [data[:, :, 1]] is out of range, reference is never assigned, and no
    mean is taken: both methods raise IndexError. *)
Lemma analyze_results_one_read_no_means :
  let st := sample_state [2; 2; 1] (map Qc_of_Z [4; 8; 12; 16]%Z) in
  size (acquired 4) = prod_list (data_shape (self st))
  /\ length (data_shape (self st)) = 3
  /\ fst (@LockinODMR_johns.analyze_results sample_lib (acquired 4) st) = Raise IndexError
  /\ fst (@RabiSweep_johns.analyze_results sample_lib (acquired 4) st) = Raise IndexError.
Proof. intros st. repeat split. Qed.

(** ** The two contrasts *)

(** C4, as stated, fails: on two repetitions of a two-point sweep the
    contrast of RabiSweep_johns, taken from the averaged signal and
    reference, and the contrast of LockinODMR_johns, averaged from the
    contrasts of the repetitions, differ at the second sweep point (100 and
    150). *)
Lemma contrast_of_means_is_not_mean_of_contrasts :
  exists dl stl dr str cl cr,
    @LockinODMR_johns.analyze_results sample_lib (acquired 8)
      (sample_state [2; 2; 2] sample_data) = (Ok dl, stl)
    /\ @RabiSweep_johns.analyze_results sample_lib (acquired 8)
         (sample_state [2; 2; 2] sample_data) = (Ok dr, str)
    /\ dl !! "odmr_contrast" = Some cl
    /\ dr !! "contrast" = Some cr
    /\ map this (contents (heap stl) cl) = [100; 150]%Q
    /\ map this (contents (heap str) cr) = [100; 100]%Q
    /\ contents (heap str) cr <> contents (heap stl) cl.
Proof.
  assert (Ha : allocated (sample_state [2; 2; 2] sample_data) (acquired 8))
    by (unfold allocated; simpl; lia).
  pose proof (@lockin_analyze_run sample_lib (acquired 8)
                (sample_state [2; 2; 2] sample_data) [2] 2 2 (num 2) (Qc_of_Z 2)
                sample_sweep [] Ha eq_refl ltac:(simpl; lia) ltac:(lia)
                eq_refl eq_refl eq_refl eq_refl) as Hl.
  pose proof (@rabi_analyze_run sample_lib (acquired 8)
                (sample_state [2; 2; 2] sample_data) [2] 2 2 (num 2) (Qc_of_Z 2)
                sample_sweep [] Ha eq_refl ltac:(simpl; lia) ltac:(lia)
                eq_refl eq_refl eq_refl eq_refl) as Hr.
  destruct (proj1 (returns_inv _ _ _) Hl)
    as (dl & stl & Hdl & _ & (ao & asig & aref & ac & af & -> & _ & _ & _ & Hc & _)).
  destruct (proj1 (returns_inv _ _ _) Hr)
    as (dr & str & Hdr & _ & (bs & br & bc & b1 & b2 & -> & _ & _ & Hbc & _)).
  clear Hl Hr.
  eexists _, stl, _, str, ac, bc.
  split; [exact Hdl|]. split; [exact Hdr|].
  split; [reflexivity|]. split; [reflexivity|].
  destruct Hc as [_ (_ & _ & ->)], Hbc as [_ (_ & _ & ->)].
  split; [vm_compute; reflexivity|]. split; [vm_compute; reflexivity|].
  intros H. apply (f_equal (map this)) in H. vm_compute in H. discriminate H.
Qed.

(** C4, as amended.  For the same input, data_shape and
    readout_integration_treg, when every leading axis of data_shape has
    length 1 (and so when data_shape has no leading axis), both methods
    return, and the contrast of RabiSweep_johns equals the odmr_contrast of
    LockinODMR_johns. *)
Theorem contrasts_agree_on_single_repetition `{!qick} (a : ndarray) (st : pystate)
    (lead : list nat) (n L : nat) (tv : value) (t : Qc)
    (sw : sweep) (rest : list sweep) :
  allocated st a ->
  data_shape (self st) = lead ++ [n; L] ->
  length lead <= 2 ->
  2 <= L ->
  size a = prod_list (data_shape (self st)) ->
  cfg (self st) !! "readout_integration_treg" = Some tv ->
  as_number tv = Ok t ->
  qick_sweeps (self st) = sw :: rest ->
  prod_list lead = 1 ->
  exists dl stl dr str cl cr,
    LockinODMR_johns.analyze_results a st = (Ok dl, stl)
    /\ RabiSweep_johns.analyze_results a st = (Ok dr, str)
    /\ dl !! "odmr_contrast" = Some cl
    /\ dr !! "contrast" = Some cr
    /\ shape cr = shape cl
    /\ contents (heap str) cr = contents (heap stl) cl.
Proof.
  intros Ha Hsh Hlead HL Hsz Htv Ht Hsw Hone.
  pose proof (lockin_analyze_run a st lead n L tv t sw rest
                Ha Hsh Hlead HL Hsz Htv Ht Hsw) as Hl.
  pose proof (rabi_analyze_run a st lead n L tv t sw rest
                Ha Hsh Hlead HL Hsz Htv Ht Hsw) as Hr.
  apply returns_inv in Hl, Hr.
  destruct Hl as (dl & stl & Hdl & _ & (ao & asig & aref & ac & af & -> & _ & _ & _ & Hc & _)).
  destruct Hr as (dr & str & Hdr & _ & (bs & br & bc & b1 & b2 & -> & _ & _ & Hbc & _)).
  eexists _, stl, _, str, ac, bc.
  split; [exact Hdl|]. split; [exact Hdr|].
  split; [reflexivity|]. split; [reflexivity|].
  destruct Hc as [_ (_ & Sc & Cc)], Hbc as [_ (_ & Sb & Cb)].
  split; [congruence|]. rewrite Cc, Cb.
  set (sig := signal_of t L (prod_list lead * n) (contents (heap st) a)).
  set (ref := reference_of t L (prod_list lead * n) (contents (heap st) a)).
  assert (Hsig : length sig = n)
    by (unfold sig; rewrite length_signal_of, Hone; lia).
  assert (Href : length ref = n)
    by (unfold ref; rewrite length_reference_of, Hone; lia).
  rewrite !mean_leading_grand_mean, Hone
    by (rewrite Hone; try apply length_contrast_of; lia).
  rewrite !grand_mean_one by (try apply length_contrast_of; assumption).
  reflexivity.
Qed.

Lemma contrasts_agree_on_single_repetition_witness :
  exists dl stl dr str cl cr,
    @LockinODMR_johns.analyze_results sample_lib (acquired 8)
      (sample_state [1; 4; 2] sample_data) = (Ok dl, stl)
    /\ @RabiSweep_johns.analyze_results sample_lib (acquired 8)
         (sample_state [1; 4; 2] sample_data) = (Ok dr, str)
    /\ dl !! "odmr_contrast" = Some cl
    /\ dr !! "contrast" = Some cr
    /\ shape cr = shape cl
    /\ contents (heap str) cr = contents (heap stl) cl.
Proof.
  apply (@contrasts_agree_on_single_repetition sample_lib (acquired 8)
           (sample_state [1; 4; 2] sample_data) [1] 4 2 (num 2) (Qc_of_Z 2)
           sample_sweep []).
  - unfold allocated. simpl. lia.
  - reflexivity.
  - simpl. lia.
  - lia.
  - reflexivity.
  - reflexivity.
  - reflexivity.
  - reflexivity.
  - reflexivity.
Defined.

(** ** What the analysis leaves untouched *)

Lemma framed_ret {X} (x : X) (st : pystate) (Q : X -> pystate -> Prop) :
  Q x st -> framed (mret x) st Q.
Proof. intros H. split; [apply extends_refl | exact H]. Qed.

Lemma framed_raise {X} (e : exn) (st : pystate) (Q : X -> pystate -> Prop) :
  framed (raise e) st Q.
Proof. apply extends_refl. Qed.

Lemma framed_bind {X Y} (m : M X) (k : X -> M Y) (st : pystate)
    (P : X -> pystate -> Prop) (Q : Y -> pystate -> Prop) :
  framed m st P ->
  (forall x st', extends st st' -> P x st' -> framed (k x) st' Q) ->
  framed (x ← m; k x) st Q.
Proof.
  unfold framed, outcome, mbind, M_bind. intros Hm Hk.
  destruct (m st) as [[x|e] st1]; [|exact Hm].
  destruct Hm as [E1 HP]. specialize (Hk x st1 E1 HP).
  destruct (k x st1) as [[y|e] st2].
  - destruct Hk as [E2 HQ]. split; [eapply extends_trans; eassumption | exact HQ].
  - eapply extends_trans; eassumption.
Qed.

(** The same, when nothing is asked of the value of the first step. *)
Lemma framed_then {X Y} (m : M X) (k : X -> M Y) (st : pystate)
    (Q : Y -> pystate -> Prop) :
  framed m st (fun _ _ => True) ->
  (forall x st', extends st st' -> framed (k x) st' Q) ->
  framed (x ← m; k x) st Q.
Proof.
  intros Hm Hk. eapply framed_bind; [exact Hm|]. intros x st' E _. apply Hk, E.
Qed.

Lemma framed_mono {X} (m : M X) (st : pystate) (Q Q' : X -> pystate -> Prop) :
  framed m st Q -> (forall x st', extends st st' -> Q x st' -> Q' x st') ->
  framed m st Q'.
Proof.
  unfold framed, outcome. intros H HQ.
  destruct (m st) as [[x|e] st1]; [|exact H].
  destruct H as [E1 H]. auto.
Qed.

(** A step that does not touch the state. *)
Lemma framed_pure {X} (m : M X) (st : pystate) (Q : X -> pystate -> Prop) :
  snd (m st) = st ->
  (forall x, fst (m st) = Ok x -> Q x st) ->
  framed m st Q.
Proof.
  unfold framed, outcome. intros Hst HQ.
  destruct (m st) as [[x|e] st1]; simpl in *; subst st1.
  - split; [apply extends_refl | apply HQ; reflexivity].
  - apply extends_refl.
Qed.

Lemma framed_get_self (st : pystate) (Q : program -> pystate -> Prop) :
  Q (self st) st -> framed get_self st Q.
Proof. intros H. split; [apply extends_refl | exact H]. Qed.

Lemma framed_attr (name : string) (st : pystate) (Q : value -> pystate -> Prop) :
  (forall v, cfg (self st) !! name = Some v -> Q v st) ->
  framed (attr name) st Q.
Proof.
  intros H. apply framed_pure; unfold attr.
  - destruct (cfg (self st) !! name); reflexivity.
  - intros x. destruct (cfg (self st) !! name) as [v|] eqn:Hv; simpl.
    + intros [= ->]. apply H. reflexivity.
    + discriminate.
Qed.

Lemma framed_lift {X} (r : result X) (st : pystate) (Q : X -> pystate -> Prop) :
  (forall x, r = Ok x -> Q x st) -> framed (lift r) st Q.
Proof. intros H. apply framed_pure; [reflexivity | exact H]. Qed.

Lemma framed_local {X} (o : option X) (st : pystate) (Q : X -> pystate -> Prop) :
  (forall x, o = Some x -> Q x st) -> framed (local o) st Q.
Proof.
  intros H. destruct o as [x|]; [apply framed_ret; auto | apply framed_raise].
Qed.

Lemma framed_getitem (a : ndarray) (idx : list index) (st : pystate)
    (Q : ndarray -> pystate -> Prop) :
  (forall r, base r = base a -> Q r st) -> framed (getitem a idx) st Q.
Proof.
  intros H. unfold getitem.
  destruct (getitem_aux idx (dims a) (offset a)) as [[o d]|e].
  - apply framed_ret, H. reflexivity.
  - apply framed_raise.
Qed.

Lemma framed_new_array (sh : list nat) (v : list Qc) (st : pystate)
    (Q : ndarray -> pystate -> Prop) :
  (forall x st', extends st st' -> length (heap st) <= base x -> Q x st') ->
  framed (new_array sh v) st Q.
Proof.
  intros H. split; [apply extends_allocate|].
  apply H; [apply extends_allocate | reflexivity].
Qed.

Lemma framed_read (a : ndarray) (st : pystate) (Q : list Qc -> pystate -> Prop) :
  (forall v, Q v st) -> framed (read a) st Q.
Proof. intros H. split; [apply extends_refl | apply H]. Qed.

Lemma framed_np_reshape (a : ndarray) (sh : list nat) (st : pystate)
    (Q : ndarray -> pystate -> Prop) :
  (forall x st', extends st st' -> Q x st') ->
  framed (np_reshape a sh) st Q.
Proof.
  intros H. unfold np_reshape.
  destruct (negb (size a =? prod_list sh)); [apply framed_raise|].
  destruct (dims a) as [|[N s] [|d1 d]].
  - destruct (decide _).
    + apply framed_ret, H, extends_refl.
    + apply framed_then; [apply framed_read; intros v; exact I|].
      intros v st1 E1. apply framed_new_array. intros x st2 E2 _.
      apply H. eapply extends_trans; eassumption.
  - apply framed_ret, H, extends_refl.
  - destruct (decide _).
    + apply framed_ret, H, extends_refl.
    + apply framed_then; [apply framed_read; intros v; exact I|].
      intros v st1 E1. apply framed_new_array. intros x st2 E2 _.
      apply H. eapply extends_trans; eassumption.
Qed.

Lemma framed_np_binop (f : Qc -> Qc -> Qc) (a b : ndarray) (st : pystate)
    (Q : ndarray -> pystate -> Prop) :
  (forall x st', extends st st' -> length (heap st) <= base x -> Q x st') ->
  framed (np_binop f a b) st Q.
Proof.
  intros H. unfold np_binop. destruct (decide _); [|apply framed_raise].
  split; [apply extends_allocate|].
  apply H; [apply extends_allocate | reflexivity].
Qed.

Lemma framed_np_scalar (f : Qc -> Qc -> Qc) (a : ndarray) (x : Qc) (st : pystate)
    (Q : ndarray -> pystate -> Prop) :
  (forall y st', extends st st' -> length (heap st) <= base y -> Q y st') ->
  framed (np_scalar f a x) st Q.
Proof.
  intros H. split; [apply extends_allocate|].
  apply H; [apply extends_allocate | reflexivity].
Qed.

Lemma framed_np_mean_axis0 (a : ndarray) (st : pystate)
    (Q : ndarray -> pystate -> Prop) :
  (forall y st', extends st st' -> length (heap st) <= base y -> Q y st') ->
  framed (np_mean_axis0 a) st Q.
Proof.
  intros H. unfold np_mean_axis0. destruct (dims a) as [|[n s] d].
  - apply framed_raise.
  - split; [apply extends_allocate|].
    apply H; [apply extends_allocate | reflexivity].
Qed.

Lemma framed_sweep_pts0 `{!qick} (st : pystate) (Q : ndarray -> pystate -> Prop) :
  (forall y st', extends st st' -> length (heap st) <= base y -> Q y st') ->
  framed sweep_pts0 st Q.
Proof.
  intros HQ. unfold sweep_pts0.
  apply framed_then; [apply framed_get_self; exact I|].
  intros p st1 E1. destruct (qick_sweeps p); [apply framed_raise|].
  apply framed_new_array. intros y st2 E2 Hy. apply HQ.
  - eapply extends_trans; eassumption.
  - pose proof (extends_length _ _ E1). lia.
Qed.

Lemma framed_normalize (a : ndarray) (st : pystate) (Q : ndarray -> pystate -> Prop) :
  (forall y st', extends st st' -> length (heap st) <= base y -> Q y st') ->
  framed (normalize a) st Q.
Proof.
  intros H. unfold normalize.
  apply framed_then; [apply framed_get_self; exact I|]. intros p st0 E0.
  apply framed_then; [apply framed_np_reshape; intros; exact I|]. intros r st1 E1.
  apply framed_then; [apply framed_attr; intros; exact I|]. intros v st2 E2.
  unfold np_div_value.
  apply framed_then; [apply framed_lift; intros; exact I|]. intros t st3 E3.
  apply framed_np_scalar. intros y st4 E4 Hy.
  assert (E : extends st st3) by eauto using extends_trans.
  apply H; [eapply extends_trans; eassumption|].
  pose proof (extends_length _ _ E). lia.
Qed.

(** Whatever [separate] binds is a view of the array it is given. *)
Lemma framed_separate (data : ndarray) (st : pystate)
    (Q : option ndarray * option ndarray -> pystate -> Prop) :
  (forall s r st',
      extends st st' ->
      (forall x, s = Some x -> base x = base data) ->
      (forall x, r = Some x -> base x = base data) ->
      (length (data_shape (self st)) <> 2 ->
       length (data_shape (self st)) <> 3 ->
       length (data_shape (self st)) <> 4 -> s = None /\ r = None) ->
      Q (s, r) st') ->
  framed (separate data) st Q.
Proof.
  intros H. unfold separate.
  apply (framed_bind _ _ _ (fun p _ => p = self st)); [apply framed_get_self; reflexivity|].
  intros p st0 E0 ->.
  assert (Hviews : forall idx0 idx1 : list index,
             framed (signal ← getitem data idx0;
                     reference ← getitem data idx1;
                     mret (Some signal, Some reference)) st0
                    (fun sr st' =>
                       exists s r, sr = (Some s, Some r)
                                   /\ base s = base data /\ base r = base data)).
  { intros idx0 idx1.
    apply (framed_bind _ _ _ (fun r _ => base r = base data));
      [apply framed_getitem; intros r Hr; exact Hr|].
    intros s st1 E1 Hs.
    apply (framed_bind _ _ _ (fun r _ => base r = base data));
      [apply framed_getitem; intros r Hr; exact Hr|].
    intros r st2 E2 Hr.
    apply framed_ret. exists s, r. auto. }
  assert (Hsome : forall sr st',
             extends st0 st' ->
             (exists s r, sr = (Some s, Some r)
                          /\ base s = base data /\ base r = base data) ->
             (length (data_shape (self st)) = 2
              \/ length (data_shape (self st)) = 3
              \/ length (data_shape (self st)) = 4) ->
             Q sr st').
  { intros sr st' E (s & r & -> & Hs & Hr) Hlen. apply H.
    - eapply extends_trans; eassumption.
    - intros x [= <-]. exact Hs.
    - intros x [= <-]. exact Hr.
    - intros. lia. }
  destruct (length (data_shape (self st)) =? 2) eqn:H2.
  { apply Nat.eqb_eq in H2. eapply framed_mono; [apply Hviews|]. intros; eauto. }
  destruct (length (data_shape (self st)) =? 3) eqn:H3.
  { apply Nat.eqb_eq in H3. eapply framed_mono; [apply Hviews|]. intros; eauto. }
  destruct (length (data_shape (self st)) =? 4) eqn:H4.
  { apply Nat.eqb_eq in H4. eapply framed_mono; [apply Hviews|]. intros; eauto. }
  apply framed_ret, H; [exact E0 | discriminate | discriminate | auto].
Qed.

Lemma lockin_mean_loop_framed (lo k : nat) :
  forall (st : pystate) (o s r c : ndarray),
    lo <= length (heap st) ->
    lo <= base o -> lo <= base s -> lo <= base r -> lo <= base c ->
    framed (LockinODMR_johns.mean_loop k o s r c) st (fun x _ =>
      let '(o', s', r', c') := x in
      lo <= base o' /\ lo <= base s' /\ lo <= base r' /\ lo <= base c').
Proof.
  induction k as [|k IH]; intros st o s r c Hst Ho Hs Hr Hc; simpl.
  - apply framed_ret. auto.
  - apply (framed_bind _ _ _ (fun x st' => lo <= base x /\ lo <= length (heap st'))).
    { apply framed_np_mean_axis0. intros y st' E Hy.
      pose proof (extends_length _ _ E). lia. }
    intros o1 st1 E1 [Ho1 H1].
    apply (framed_bind _ _ _ (fun x st' => lo <= base x /\ lo <= length (heap st'))).
    { apply framed_np_mean_axis0. intros y st' E Hy.
      pose proof (extends_length _ _ E). lia. }
    intros s1 st2 E2 [Hs1 H2].
    apply (framed_bind _ _ _ (fun x st' => lo <= base x /\ lo <= length (heap st'))).
    { apply framed_np_mean_axis0. intros y st' E Hy.
      pose proof (extends_length _ _ E). lia. }
    intros r1 st3 E3 [Hr1 H3].
    apply (framed_bind _ _ _ (fun x st' => lo <= base x /\ lo <= length (heap st'))).
    { apply framed_np_mean_axis0. intros y st' E Hy.
      pose proof (extends_length _ _ E). lia. }
    intros c1 st4 E4 [Hc1 H4].
    apply IH; assumption.
Qed.

Lemma rabi_mean_loop_framed (lo k : nat) :
  forall (st : pystate) (s r : ndarray),
    lo <= length (heap st) ->
    lo <= base s -> lo <= base r ->
    framed (RabiSweep_johns.mean_loop k s r) st (fun x st' =>
      let '(s', r') := x in
      lo <= base s' /\ lo <= base r' /\ lo <= length (heap st')).
Proof.
  induction k as [|k IH]; intros st s r Hst Hs Hr; simpl.
  - apply framed_ret. auto.
  - apply (framed_bind _ _ _ (fun x st' => lo <= base x /\ lo <= length (heap st'))).
    { apply framed_np_mean_axis0. intros y st' E Hy.
      pose proof (extends_length _ _ E). lia. }
    intros s1 st1 E1 [Hs1 H1].
    apply (framed_bind _ _ _ (fun x st' => lo <= base x /\ lo <= length (heap st'))).
    { apply framed_np_mean_axis0. intros y st' E Hy.
      pose proof (extends_length _ _ E). lia. }
    intros r1 st2 E2 [Hr1 H2].
    apply IH; assumption.
Qed.

(** Reads the attribute [k] of an [ItemAttribute] built by successive
    assignments. *)
Ltac attribute_cases H :=
  repeat (apply lookup_insert_Some in H as [[_ <-]|[_ H]]; [assumption|]);
  rewrite lookup_empty in H; discriminate H.

Lemma lockin_reduce_framed `{!qick} (lo : nat) (s r : option ndarray) (st : pystate) :
  lo <= length (heap st) ->
  (forall x, s = Some x -> lo <= base x) ->
  (forall x, r = Some x -> lo <= base x) ->
  framed (LockinODMR_johns.reduce s r) st (fun d _ =>
    forall k x, d !! k = Some x -> lo <= base x).
Proof.
  intros Hst Hs Hr. unfold LockinODMR_johns.reduce.
  pose (P := fun (x : ndarray) (st' : pystate) => lo <= base x).
  assert (Hnew : forall st', extends st st' ->
            forall (y : ndarray) (st'' : pystate),
              extends st' st'' -> length (heap st') <= base y -> P y st'').
  { intros st' E y st'' _ Hy. pose proof (extends_length _ _ E). unfold P. lia. }
  apply (framed_bind _ _ _ P); [apply framed_local; exact Hs|]. intros s1 st1 E1 Hs1.
  apply (framed_bind _ _ _ P); [apply framed_local; exact Hr|]. intros r1 st2 E2 Hr1.
  assert (E02 : extends st st2) by eauto using extends_trans.
  apply (framed_bind _ _ _ P); [apply framed_np_binop, Hnew, E02|].
  intros o st3 E3 Ho. assert (E03 : extends st st3) by eauto using extends_trans.
  apply framed_then; [apply framed_local; intros; exact I|]. intros s2 st4 E4.
  apply framed_then; [apply framed_local; intros; exact I|]. intros r2 st5 E5.
  apply framed_then; [apply framed_np_binop; intros; exact I|]. intros df st6 E6.
  apply framed_then; [apply framed_local; intros; exact I|]. intros r3 st7 E7.
  apply framed_then; [apply framed_np_binop; intros; exact I|]. intros qt st8 E8.
  assert (E08 : extends st st8) by eauto 10 using extends_trans.
  apply (framed_bind _ _ _ P); [apply framed_np_scalar, Hnew, E08|].
  intros c st9 E9 Hc. assert (E09 : extends st st9) by eauto using extends_trans.
  apply (framed_bind _ _ _ P); [apply framed_local; exact Hs|]. intros s3 st10 E10 Hs3.
  apply (framed_bind _ _ _ P); [apply framed_local; exact Hr|]. intros r4 st11 E11 Hr4.
  assert (E011 : extends st st11) by eauto using extends_trans.
  eapply framed_bind.
  { apply (lockin_mean_loop_framed lo); try assumption.
    pose proof (extends_length _ _ E011). lia. }
  intros [[[o' s'] r'] c'] st12 E12 (Ho' & Hs' & Hr' & Hc').
  assert (E012 : extends st st12) by eauto using extends_trans.
  apply (framed_bind _ _ _ P); [apply framed_sweep_pts0, Hnew, E012|].
  intros f st13 E13 Hf.
  apply framed_ret. intros k x Hk. unfold P in *. attribute_cases Hk.
Qed.

Lemma rabi_reduce_framed `{!qick} (lo : nat) (s r : option ndarray) (st : pystate) :
  lo <= length (heap st) ->
  (forall x, s = Some x -> lo <= base x) ->
  (forall x, r = Some x -> lo <= base x) ->
  framed (RabiSweep_johns.reduce s r) st (fun d _ =>
    forall k x, d !! k = Some x -> lo <= base x).
Proof.
  intros Hst Hs Hr. unfold RabiSweep_johns.reduce.
  pose (P := fun (x : ndarray) (st' : pystate) => lo <= base x).
  assert (Hnew : forall st', extends st st' ->
            forall (y : ndarray) (st'' : pystate),
              extends st' st'' -> length (heap st') <= base y -> P y st'').
  { intros st' E y st'' _ Hy. pose proof (extends_length _ _ E). unfold P. lia. }
  apply (framed_bind _ _ _ P); [apply framed_local; exact Hs|]. intros s1 st1 E1 Hs1.
  apply (framed_bind _ _ _ P); [apply framed_local; exact Hr|]. intros r1 st2 E2 Hr1.
  assert (E02 : extends st st2) by eauto using extends_trans.
  eapply framed_bind.
  { apply (rabi_mean_loop_framed lo); try assumption.
    pose proof (extends_length _ _ E02). lia. }
  intros [s' r'] st3 E3 (Hs' & Hr' & H3).
  assert (E03 : extends st st3) by eauto using extends_trans.
  apply framed_then; [apply framed_np_binop; intros; exact I|]. intros df st4 E4.
  apply framed_then; [apply framed_np_binop; intros; exact I|]. intros qt st5 E5.
  assert (E05 : extends st st5) by eauto using extends_trans.
  apply (framed_bind _ _ _ P); [apply framed_np_scalar, Hnew, E05|].
  intros c st6 E6 Hc. assert (E06 : extends st st6) by eauto using extends_trans.
  apply (framed_bind _ _ _ P); [apply framed_sweep_pts0, Hnew, E06|].
  intros f1 st7 E7 Hf1. assert (E07 : extends st st7) by eauto using extends_trans.
  apply framed_then; [apply framed_sweep_pts0; intros; exact I|]. intros f2 st8 E8.
  assert (E08 : extends st st8) by eauto using extends_trans.
  apply (framed_bind _ _ _ P); [apply framed_np_scalar, Hnew, E08|].
  intros f3 st9 E9 Hf3.
  apply framed_ret. intros k x Hk. unfold P in *. attribute_cases Hk.
Qed.

Lemma lockin_analyze_framed `{!qick} (a : ndarray) (st : pystate) :
  framed (LockinODMR_johns.analyze_results a) st (fun d _ =>
    forall k x, d !! k = Some x -> length (heap st) <= base x).
Proof.
  unfold LockinODMR_johns.analyze_results.
  apply (framed_bind _ _ _ (fun x st' => length (heap st) <= base x)).
  { apply framed_normalize. auto. }
  intros data st1 E1 Hdata.
  apply (framed_bind _ _ _ (fun sr _ =>
           (forall x, fst sr = Some x -> length (heap st) <= base x)
           /\ (forall x, snd sr = Some x -> length (heap st) <= base x))).
  { apply framed_separate. intros s r st' _ Hs Hr _. simpl.
    split; intros x Hx; [rewrite (Hs x Hx) | rewrite (Hr x Hx)]; exact Hdata. }
  intros [s r] st2 E2 [Hs Hr]. simpl in Hs, Hr.
  apply lockin_reduce_framed; try assumption.
  assert (E : extends st st2) by eauto using extends_trans.
  apply (extends_length _ _ E).
Qed.

Lemma rabi_analyze_framed `{!qick} (a : ndarray) (st : pystate) :
  framed (RabiSweep_johns.analyze_results a) st (fun d _ =>
    forall k x, d !! k = Some x -> length (heap st) <= base x).
Proof.
  unfold RabiSweep_johns.analyze_results.
  apply (framed_bind _ _ _ (fun x st' => length (heap st) <= base x)).
  { apply framed_normalize. auto. }
  intros data st1 E1 Hdata.
  apply (framed_bind _ _ _ (fun sr _ =>
           (forall x, fst sr = Some x -> length (heap st) <= base x)
           /\ (forall x, snd sr = Some x -> length (heap st) <= base x))).
  { apply framed_separate. intros s r st' _ Hs Hr _. simpl.
    split; intros x Hx; [rewrite (Hs x Hx) | rewrite (Hr x Hx)]; exact Hdata. }
  intros [s r] st2 E2 [Hs Hr]. simpl in Hs, Hr.
  apply rabi_reduce_framed; try assumption.
  assert (E : extends st st2) by eauto using extends_trans.
  apply (extends_length _ _ E).
Qed.

(** C10.  Whatever a run of analyze_results ends in, in either class: the
    program object, and so every attribute of self.cfg, is as before; every
    buffer that existed before the call, the caller's data buffer among them,
    holds the same values; and each array of the ItemAttribute that is
    returned lies in a buffer that the call allocated, so that none of them
    shares the buffer of the input. *)
Theorem analyze_results_frame `{!qick} (a : ndarray) (st : pystate)
    (r : result ItemAttribute) (st' : pystate) :
  allocated st a ->
  LockinODMR_johns.analyze_results a st = (r, st')
  \/ RabiSweep_johns.analyze_results a st = (r, st') ->
  self st' = self st
  /\ (forall b, b < length (heap st) -> heap st' !! b = heap st !! b)
  /\ contents (heap st') a = contents (heap st) a
  /\ forall d, r = Ok d ->
       forall k x, d !! k = Some x ->
         length (heap st) <= base x /\ base x <> base a.
Proof.
  intros Ha Hrun.
  assert (H1 : extends st st'
               /\ forall d, r = Ok d ->
                    forall k x, d !! k = Some x -> length (heap st) <= base x).
  { destruct Hrun as [Hrun|Hrun].
    - pose proof (lockin_analyze_framed a st) as F.
      unfold framed, outcome in F. rewrite Hrun in F.
      destruct r as [d|e]; [destruct F as [E F]|]; split; try assumption.
      + intros d' [= <-]. exact F.
      + discriminate.
    - pose proof (rabi_analyze_framed a st) as F.
      unfold framed, outcome in F. rewrite Hrun in F.
      destruct r as [d|e]; [destruct F as [E F]|]; split; try assumption.
      + intros d' [= <-]. exact F.
      + discriminate. }
  destruct H1 as [[Hself [k Hk]] Hfresh].
  split; [exact Hself|]. split; [|split].
  - intros b Hb. rewrite Hk. apply lookup_app_l. exact Hb.
  - rewrite Hk. apply contents_app. exact Ha.
  - intros d Hd key x Hx. specialize (Hfresh d Hd key x Hx).
    unfold allocated in Ha. split; lia.
Qed.

Lemma analyze_results_frame_witness :
  let st := sample_state [2; 2; 2] sample_data in
  let run := @LockinODMR_johns.analyze_results sample_lib (acquired 8) st in
  self (snd run) = self st
  /\ (forall b, b < length (heap st) -> heap (snd run) !! b = heap st !! b)
  /\ contents (heap (snd run)) (acquired 8) = contents (heap st) (acquired 8)
  /\ forall d, fst run = Ok d ->
       forall k x, d !! k = Some x ->
         length (heap st) <= base x /\ base x <> base (acquired 8).
Proof.
  intros st run.
  apply (@analyze_results_frame sample_lib (acquired 8) st (fst run) (snd run)).
  - unfold allocated. simpl. lia.
  - left. apply surjective_pairing.
Defined.

(** ** data_shape with fewer than 2 or more than 4 axes *)

Lemma normalize_returns (a : ndarray) (st : pystate) (tv : value) (t : Qc) :
  size a = prod_list (data_shape (self st)) ->
  cfg (self st) !! "readout_integration_treg" = Some tv ->
  as_number tv = Ok t ->
  exists data st1, normalize a st = (Ok data, st1).
Proof.
  intros Hsz Htv Ht.
  unfold normalize, np_reshape, np_div_value, np_scalar, lift, attr, read,
    new_array, mbind, M_bind, mret, M_ret, get_self.
  rewrite (proj2 (Nat.eqb_eq _ _) Hsz). simpl.
  destruct (dims a) as [|[N s] [|d1 d]]; simpl;
    repeat (destruct (decide _); simpl); rewrite Htv, Ht; eauto.
Qed.

(** C8, as amended.  When data_shape has a number of axes other than 2, 3
    or 4 and the size of the input is the product of data_shape, neither
    analyze_results returns a result: signal and reference are left
    unassigned by the [if]/[elif] chain, and on a program with a numeric
    readout_integration_treg the exception raised is the unbound-local
    error of their first use. *)
Theorem analyze_results_unbound_local `{!qick} (a : ndarray) (st : pystate) :
  size a = prod_list (data_shape (self st)) ->
  length (data_shape (self st)) <> 2 ->
  length (data_shape (self st)) <> 3 ->
  length (data_shape (self st)) <> 4 ->
  (forall data st1 sr st2,
      normalize a st = (Ok data, st1) ->
      separate data st1 = (Ok sr, st2) -> sr = (None, None))
  /\ (forall d st', LockinODMR_johns.analyze_results a st <> (Ok d, st'))
  /\ (forall d st', RabiSweep_johns.analyze_results a st <> (Ok d, st'))
  /\ (forall tv t,
        cfg (self st) !! "readout_integration_treg" = Some tv ->
        as_number tv = Ok t ->
        fst (LockinODMR_johns.analyze_results a st) = Raise UnboundLocalError
        /\ fst (RabiSweep_johns.analyze_results a st) = Raise UnboundLocalError).
Proof.
  intros Hsz H2 H3 H4.
  assert (Hsep : forall data st1 sr st2,
             normalize a st = (Ok data, st1) ->
             separate data st1 = (Ok sr, st2) -> sr = (None, None)).
  { intros data st1 sr st2 Hn Hs.
    pose proof (framed_normalize a st (fun _ _ => True) (fun _ _ _ _ => I)) as Fn.
    unfold framed, outcome in Fn. rewrite Hn in Fn. destruct Fn as [[Hself _] _].
    pose proof (framed_separate data st1
                  (fun sr _ => sr = (None, None))) as Fs.
    unfold framed, outcome in Fs. rewrite Hs in Fs. apply Fs.
    intros s r st3 _ _ _ Hnone. rewrite Hself in Hnone.
    destruct (Hnone H2 H3 H4) as [-> ->]. reflexivity. }
  assert (Hbody : forall data st1,
             normalize a st = (Ok data, st1) ->
             (exists e st2, LockinODMR_johns.analyze_results a st = (Raise e, st2)
                            /\ RabiSweep_johns.analyze_results a st = (Raise e, st2)
                            /\ (forall sr st3, separate data st1 <> (Ok sr, st3)))
             \/ (fst (LockinODMR_johns.analyze_results a st) = Raise UnboundLocalError
                 /\ fst (RabiSweep_johns.analyze_results a st) = Raise UnboundLocalError)).
  { intros data st1 Hn.
    unfold LockinODMR_johns.analyze_results, RabiSweep_johns.analyze_results,
      mbind, M_bind. rewrite Hn.
    destruct (separate data st1) as [[sr|e] st2] eqn:Hs.
    - right. rewrite (Hsep _ _ _ _ Hn Hs). split; reflexivity.
    - left. exists e, st2. repeat split; try reflexivity. intros sr st3. discriminate. }
  split; [exact Hsep|].
  assert (Hno : forall d st',
             LockinODMR_johns.analyze_results a st <> (Ok d, st')
             /\ RabiSweep_johns.analyze_results a st <> (Ok d, st')).
  { intros d st'. destruct (normalize a st) as [[data|e] st1] eqn:Hn.
    - destruct (Hbody data st1 eq_refl) as [(e & st2 & -> & -> & _)|[Hl Hr]].
      + split; discriminate.
      + split; intros Heq; [rewrite Heq in Hl | rewrite Heq in Hr]; discriminate.
    - unfold LockinODMR_johns.analyze_results, RabiSweep_johns.analyze_results,
        mbind, M_bind. rewrite Hn. split; discriminate. }
  split; [intros d st'; apply Hno|]. split; [intros d st'; apply Hno|].
  intros tv t Htv Ht.
  destruct (normalize_returns a st tv t Hsz Htv Ht) as (data & st1 & Hn).
  destruct (Hbody data st1 Hn) as [(e & st2 & _ & _ & Hs)|Hu]; [|exact Hu].
  exfalso.
  pose proof (framed_normalize a st (fun _ _ => True) (fun _ _ _ _ => I)) as Fn.
  unfold framed, outcome in Fn. rewrite Hn in Fn. destruct Fn as [[Hself _] _].
  revert Hs. unfold separate, mbind, M_bind, get_self. rewrite Hself.
  rewrite (proj2 (Nat.eqb_neq _ _) H2), (proj2 (Nat.eqb_neq _ _) H3),
    (proj2 (Nat.eqb_neq _ _) H4).
  intros Hs. exact (Hs (None, None) st1 eq_refl).
Qed.

Lemma analyze_results_unbound_local_witness :
  let st := sample_state [8] sample_data in
  (forall data st1 sr st2,
      normalize (acquired 8) st = (Ok data, st1) ->
      separate data st1 = (Ok sr, st2) -> sr = (None, None))
  /\ (forall d st',
        @LockinODMR_johns.analyze_results sample_lib (acquired 8) st <> (Ok d, st'))
  /\ (forall d st',
        @RabiSweep_johns.analyze_results sample_lib (acquired 8) st <> (Ok d, st'))
  /\ (forall tv t,
        cfg (self st) !! "readout_integration_treg" = Some tv ->
        as_number tv = Ok t ->
        fst (@LockinODMR_johns.analyze_results sample_lib (acquired 8) st)
        = Raise UnboundLocalError
        /\ fst (@RabiSweep_johns.analyze_results sample_lib (acquired 8) st)
           = Raise UnboundLocalError).
Proof.
  intros st.
  apply (@analyze_results_unbound_local sample_lib (acquired 8) st).
  - reflexivity.
  - simpl. lia.
  - simpl. lia.
  - simpl. lia.
Defined.

(** C8, as stated, fails on a program whose configuration has no
    readout_integration_treg: data_shape has one axis and the size of the
    input is its product, but the division that precedes the [if]/[elif]
    chain raises AttributeError, and the unbound-local error is never
    reached. *)
Lemma analyze_results_attribute_error_first :
  let st := state_with (delete "readout_integration_treg" sample_cfg) [8]
              [sample_sweep] sample_data in
  size (acquired 8) = prod_list (data_shape (self st))
  /\ length (data_shape (self st)) = 1
  /\ fst (@LockinODMR_johns.analyze_results sample_lib (acquired 8) st)
     = Raise AttributeError
  /\ fst (@RabiSweep_johns.analyze_results sample_lib (acquired 8) st)
     = Raise AttributeError.
Proof. intros st. repeat split. Qed.

(** ** Running the methods that talk to the control library *)

Lemma outcome_bind {X Y} (m : M X) (k : X -> M Y) (st : pystate)
    (Q : Y -> pystate -> Prop) (E : exn -> pystate -> Prop) :
  outcome m st (fun x st' => outcome (k x) st' Q E) E ->
  outcome (x ← m; k x) st Q E.
Proof.
  unfold outcome, mbind, M_bind. destruct (m st) as [[x|e] st']; auto.
Qed.

Lemma outcome_ret {X} (x : X) (st : pystate)
    (Q : X -> pystate -> Prop) (E : exn -> pystate -> Prop) :
  Q x st -> outcome (mret x) st Q E.
Proof. intros H. exact H. Qed.

Lemma outcome_raise {X} (e : exn) (st : pystate)
    (Q : X -> pystate -> Prop) (E : exn -> pystate -> Prop) :
  E e st -> outcome (raise e) st Q E.
Proof. intros H. exact H. Qed.

Lemma outcome_attr (name : string) (st : pystate)
    (Q : value -> pystate -> Prop) (E : exn -> pystate -> Prop) :
  (forall v, cfg (self st) !! name = Some v -> Q v st) ->
  (cfg (self st) !! name = None -> E AttributeError st) ->
  outcome (attr name) st Q E.
Proof.
  intros HQ HE. unfold outcome, attr.
  destruct (cfg (self st) !! name) as [v|]; auto.
Qed.

(** The same, the configuration being named apart from the state. *)
Lemma outcome_attr_in (c : gmap string value) (name : string) (st : pystate)
    (Q : value -> pystate -> Prop) (E : exn -> pystate -> Prop) :
  cfg (self st) = c ->
  (forall v, c !! name = Some v -> Q v st) ->
  (c !! name = None -> E AttributeError st) ->
  outcome (attr name) st Q E.
Proof. intros <-. apply outcome_attr. Qed.

Lemma outcome_attr_known_in (c : gmap string value) (name : string) (v : value)
    (st : pystate) (Q : value -> pystate -> Prop) (E : exn -> pystate -> Prop) :
  cfg (self st) = c ->
  c !! name = Some v -> Q v st -> outcome (attr name) st Q E.
Proof.
  intros <- Hv H. unfold outcome, attr. rewrite Hv. exact H.
Qed.

Lemma outcome_lift {X} (r : result X) (st : pystate)
    (Q : X -> pystate -> Prop) (E : exn -> pystate -> Prop) :
  (forall x, r = Ok x -> Q x st) ->
  (forall e, r = Raise e -> E e st) ->
  outcome (lift r) st Q E.
Proof. intros HQ HE. unfold outcome, lift. destruct r; auto. Qed.

Lemma outcome_emit (c : hwcall) (st : pystate)
    (Q : unit -> pystate -> Prop) (E : exn -> pystate -> Prop) :
  Q tt {| self := with_emitted c (self st); heap := heap st |} ->
  outcome (emit c) st Q E.
Proof. intros H. exact H. Qed.

Lemma outcome_modify_self (f : program -> program) (st : pystate)
    (Q : unit -> pystate -> Prop) (E : exn -> pystate -> Prop) :
  Q tt {| self := f (self st); heap := heap st |} ->
  outcome (modify_self f) st Q E.
Proof. intros H. exact H. Qed.

Lemma outcome_reg_attr (r : program -> option QickRegister) (st : pystate)
    (Q : QickRegister -> pystate -> Prop) (E : exn -> pystate -> Prop) :
  (forall x, r (self st) = Some x -> Q x st) ->
  (r (self st) = None -> E AttributeError st) ->
  outcome (reg_attr r) st Q E.
Proof.
  intros HQ HE. unfold outcome, reg_attr, mbind, M_bind, get_self.
  destruct (r (self st)) as [x|] eqn:Hr; simpl; auto.
Qed.

Lemma outcome_check_cfg (required : list string) (st : pystate)
    (Q : unit -> pystate -> Prop) (E : exn -> pystate -> Prop) :
  (Forall (fun k => is_Some (cfg (self st) !! k)) required -> Q tt st) ->
  E AssertionError st ->
  outcome (check_cfg required) st Q E.
Proof.
  intros HQ HE. unfold outcome, check_cfg.
  destruct (forallb _ required) eqn:Hall; [|exact HE].
  apply HQ. apply Forall_forall. intros k Hk.
  rewrite forallb_forall in Hall.
  specialize (Hall k Hk).
  apply bool_decide_eq_true in Hall. exact Hall.
Qed.

Lemma outcome_attr_known (name : string) (v : value) (st : pystate)
    (Q : value -> pystate -> Prop) (E : exn -> pystate -> Prop) :
  cfg (self st) !! name = Some v -> Q v st -> outcome (attr name) st Q E.
Proof. intros Hv H. unfold outcome, attr. rewrite Hv. exact H. Qed.

Lemma outcome_check_cfg_known (required : list string) (st : pystate)
    (Q : unit -> pystate -> Prop) (E : exn -> pystate -> Prop) :
  Forall (fun k => is_Some (cfg (self st) !! k)) required ->
  Q tt st ->
  outcome (check_cfg required) st Q E.
Proof.
  intros Hall HQ. unfold outcome, check_cfg.
  replace (forallb _ required) with true; [exact HQ|].
  symmetry. apply forallb_forall. intros k Hk. apply bool_decide_eq_true.
  rewrite Forall_forall in Hall. apply Hall, Hk.
Qed.

Lemma check_cfg_Ok (required : list string) (st : pystate) :
  Forall (fun k => is_Some (cfg (self st) !! k)) required ->
  check_cfg required st = (Ok tt, st).
Proof.
  intros Hall. unfold check_cfg.
  replace (forallb _ required) with true; [reflexivity|].
  symmetry. apply forallb_forall. intros k Hk. apply bool_decide_eq_true.
  rewrite Forall_forall in Hall. apply Hall, Hk.
Qed.

Lemma py_add_raises (a b : value) (e : exn) : py_add a b = Raise e -> e = TypeError.
Proof.
  destruct a as [|[]| |], b as [|[]| |]; simpl; intros H;
    first [discriminate H | injection H as <-; reflexivity].
Qed.

Lemma py_mul_int_raises (k : Z) (v : value) (e : exn) :
  py_mul_int k v = Raise e -> e = TypeError.
Proof.
  destruct v as [|[]| |]; simpl; intros H;
    first [discriminate H | injection H as <-; reflexivity].
Qed.

Lemma py_gt_int_raises (v : value) (k : Z) (e : exn) :
  py_gt_int v k = Raise e -> e = TypeError.
Proof.
  destruct v as [|[]| |]; simpl; intros H;
    first [discriminate H | injection H as <-; reflexivity].
Qed.

(** Brings the state of the goal back to a record of fields of the initial
    state. *)
Ltac normal_state :=
  cbv [with_emitted with_sweep with_mw_frequency_register
       with_mw_length_register with_delay_register];
  cbn [self heap cfg data_shape qick_sweeps mw_frequency_register
       mw_length_register delay_register emitted].

(** One step of a run, whatever it ends in. *)
Ltac step :=
  cbv beta;
  lazymatch goal with
  | |- outcome (mbind _ _) _ _ _ => apply outcome_bind
  | |- outcome (mret _) _ _ _ => apply outcome_ret
  | |- outcome (raise _) _ _ _ => apply outcome_raise
  | |- outcome (emit _) _ _ _ => apply outcome_emit; normal_state
  | |- outcome (modify_self _) _ _ _ => apply outcome_modify_self; normal_state
  | |- outcome (attr _) ?s _ _ =>
      let c := eval cbn [cfg self] in (cfg (self s)) in
      apply (outcome_attr_in c); [reflexivity|intros ? ?|intros ?]
  | |- outcome (lift _) _ _ _ => apply outcome_lift; [intros ? ?|intros ? ?]
  | |- outcome (reg_attr _) _ _ _ => apply outcome_reg_attr; [intros ? ?|intros ?]
  | |- outcome (check_cfg _) _ _ _ => apply outcome_check_cfg; [intros ?|]
  | |- outcome (do_add_sweep _) _ _ _ => unfold do_add_sweep
  | |- outcome (do_get_gen_reg _ _) _ _ _ => unfold do_get_gen_reg
  | |- outcome (do_new_gen_reg _ _ _) _ _ _ => unfold do_new_gen_reg
  | |- outcome (if ?b then _ else _) _ _ _ => destruct b eqn:?
  end.

(** ** The guard on the microwave gain *)

Lemma attr_Ok (name : string) (v : value) (st : pystate) :
  cfg (self st) !! name = Some v -> attr name st = (Ok v, st).
Proof. intros H. unfold attr. rewrite H. reflexivity. Qed.

Lemma lockin_initialize_rejects (st : pystate) (g : value) :
  Forall (fun k => is_Some (cfg (self st) !! k)) LockinODMR_johns.required_cfg ->
  cfg (self st) !! "mw_gain" = Some g ->
  py_gt_int g 30000 = Ok true ->
  LockinODMR_johns.initialize st = (Raise AssertionError, st).
Proof.
  intros Hreq Hg Hgt. unfold LockinODMR_johns.initialize.
  rewrite (bind_Ok _ _ _ _ _ (check_cfg_Ok _ _ Hreq)).
  rewrite (bind_Ok _ _ _ _ _ (attr_Ok _ _ _ Hg)).
  rewrite (bind_Ok (lift (py_gt_int g 30000)) _ st st true)
    by (unfold lift; rewrite Hgt; reflexivity).
  apply bind_Raise. reflexivity.
Qed.

(** Closes the goals that say which exception a failed step raises. *)
Ltac not_assertion :=
  intros;
  try match goal with
    | H : py_add _ _ = Raise _ |- _ => apply py_add_raises in H; subst
    | H : py_mul_int _ _ = Raise _ |- _ => apply py_mul_int_raises in H; subst
    | H : py_gt_int _ _ = Raise _ |- _ => apply py_gt_int_raises in H; subst
    end;
  discriminate.

Lemma lockin_initialize_accepts (st : pystate) (g : value) :
  Forall (fun k => is_Some (cfg (self st) !! k)) LockinODMR_johns.required_cfg ->
  cfg (self st) !! "mw_gain" = Some g ->
  py_gt_int g 30000 <> Ok true ->
  fst (LockinODMR_johns.initialize st) <> Raise AssertionError.
Proof.
  intros Hreq Hg Hgt.
  assert (H : outcome LockinODMR_johns.initialize st
                (fun _ _ => True) (fun e _ => e <> AssertionError)).
  { unfold LockinODMR_johns.initialize.
    apply outcome_bind, outcome_check_cfg_known; [exact Hreq|].
    apply outcome_bind, (outcome_attr_known _ g); [exact Hg|].
    apply outcome_bind, outcome_lift; [|not_assertion].
    intros too_high Hth. destruct too_high; [contradiction|].
    repeat (step; try exact I; try not_assertion). }
  unfold outcome in H. destruct (LockinODMR_johns.initialize st) as [[u|e] st'];
    simpl; [discriminate | congruence].
Qed.

(** C9.  On a configuration that has every attribute of required_cfg,
    LockinODMR_johns.initialize raises an AssertionError exactly when
    [cfg.mw_gain > 30000] holds; it then does so in the state it started
    from, before anything is declared on the control library; and this
    rejects, among others, every gain from 30001 to 32767 = 2**15 - 1. *)
Theorem lockin_initialize_gain_guard (st : pystate) :
  Forall (fun k => is_Some (cfg (self st) !! k)) LockinODMR_johns.required_cfg ->
  (fst (LockinODMR_johns.initialize st) = Raise AssertionError
   <-> exists g, cfg (self st) !! "mw_gain" = Some g /\ py_gt_int g 30000 = Ok true)
  /\ ((exists g, cfg (self st) !! "mw_gain" = Some g /\ py_gt_int g 30000 = Ok true) ->
      LockinODMR_johns.initialize st = (Raise AssertionError, st))
  /\ (forall z : Z,
        (30001 <= z <= 2 ^ 15 - 1)%Z ->
        cfg (self st) !! "mw_gain" = Some (num z) ->
        LockinODMR_johns.initialize st = (Raise AssertionError, st)).
Proof.
  intros Hreq.
  assert (Hrej : (exists g, cfg (self st) !! "mw_gain" = Some g
                            /\ py_gt_int g 30000 = Ok true) ->
                 LockinODMR_johns.initialize st = (Raise AssertionError, st)).
  { intros (g & Hg & Hgt). eapply lockin_initialize_rejects; eassumption. }
  split; [|split].
  - split.
    + intros Hraise.
      assert (Hgain : is_Some (cfg (self st) !! "mw_gain")).
      { rewrite Forall_forall in Hreq. apply Hreq. unfold LockinODMR_johns.required_cfg.
        simpl. tauto. }
      destruct Hgain as [g Hg]. exists g. split; [exact Hg|].
      destruct (py_gt_int g 30000) as [[|]|e] eqn:Hgt; [reflexivity| |];
        exfalso; apply (lockin_initialize_accepts st g Hreq Hg); congruence.
    + intros Hex. rewrite (Hrej Hex). reflexivity.
  - exact Hrej.
  - intros z Hz Hg. apply Hrej. exists (num z). split; [exact Hg|].
    unfold py_gt_int, num. cbn [as_number]. f_equal. apply bool_decide_eq_true.
    apply (proj1 (Z2Qc_inj_lt 30000 z)). lia.
Qed.

Lemma lockin_initialize_gain_guard_witness :
  let st := {| self := new_program (<["mw_gain" := num 31000]> sample_cfg);
               heap := [] |} in
  (fst (LockinODMR_johns.initialize st) = Raise AssertionError
   <-> exists g, cfg (self st) !! "mw_gain" = Some g /\ py_gt_int g 30000 = Ok true)
  /\ ((exists g, cfg (self st) !! "mw_gain" = Some g /\ py_gt_int g 30000 = Ok true) ->
      LockinODMR_johns.initialize st = (Raise AssertionError, st))
  /\ (forall z : Z,
        (30001 <= z <= 2 ^ 15 - 1)%Z ->
        cfg (self st) !! "mw_gain" = Some (num z) ->
        LockinODMR_johns.initialize st = (Raise AssertionError, st)).
Proof.
  intros st. apply (lockin_initialize_gain_guard st).
  unfold LockinODMR_johns.required_cfg.
  repeat (apply Forall_cons; [vm_compute; eauto|]). apply Forall_nil.
Defined.


(** ** acquire *)

(** C7, as stated, fails on a call that passes reads_per_rep itself: the
    keyword is then given twice to the parent's acquire, which is a
    TypeError; no acquisition is requested and nothing is returned. *)
Lemma acquire_with_reads_per_rep :
  let st := sample_state [2; 2; 2] sample_data in
  let kwarg : gmap string value := {[ "reads_per_rep" := num 4 ]} in
  @LockinODMR_johns.acquire sample_lib (VBool false) [] kwarg st = (Raise TypeError, st)
  /\ @RabiSweep_johns.acquire sample_lib (VBool true) [] kwarg st = (Raise TypeError, st).
Proof. split; reflexivity. Qed.

(** C7, as amended.  For every call that does not pass reads_per_rep
    itself, acquire of either class calls the parent's acquire once, with
    [reads_per_rep = 2] added to the caller's arguments; when that call
    fails, so does acquire; otherwise acquire returns what analyze_results
    makes of the array it got when raw_data is [False], and that very array,
    with nothing done to it or to the state, for any other raw_data, [True]
    in particular. *)
Theorem acquire_two_reads_then_analyze `{!qick} (raw_data : value)
    (arg : list value) (kwarg : gmap string value) (st : pystate) :
  kwarg !! "reads_per_rep" = None ->
  let kw := <["reads_per_rep" := num 2]> kwarg in
  let st0 := {| self := with_emitted (parent_acquire arg kw) (self st);
                heap := heap st |} in
  kw !! "reads_per_rep" = Some (num 2)
  /\ emitted (self st0) = emitted (self st) ++ [parent_acquire arg kw]
  /\ LockinODMR_johns.acquire raw_data arg kwarg st
     = match super_acquire arg kw st0 with
       | (Raise e, st1) => (Raise e, st1)
       | (Ok data, st1) =>
           if is_False raw_data then
             match LockinODMR_johns.analyze_results data st1 with
             | (Ok d, st2) => (Ok (Attrs d), st2)
             | (Raise e, st2) => (Raise e, st2)
             end
           else (Ok (Array data), st1)
       end
  /\ RabiSweep_johns.acquire raw_data arg kwarg st
     = match super_acquire arg kw st0 with
       | (Raise e, st1) => (Raise e, st1)
       | (Ok data, st1) =>
           if is_False raw_data then
             match RabiSweep_johns.analyze_results data st1 with
             | (Ok d, st2) => (Ok (Attrs d), st2)
             | (Raise e, st2) => (Raise e, st2)
             end
           else (Ok (Array data), st1)
       end.
Proof.
  intros Hkw kw st0.
  split; [apply lookup_insert_eq|]. split; [reflexivity|].
  unfold LockinODMR_johns.acquire, RabiSweep_johns.acquire. rewrite Hkw.
  fold kw. unfold mbind, M_bind, emit, modify_self. fold st0.
  destruct (super_acquire arg kw st0) as [[data|e] st1]; [|split; reflexivity].
  destruct (is_False raw_data); [|split; reflexivity].
  split.
  - destruct (LockinODMR_johns.analyze_results data st1) as [[d|e] st2]; reflexivity.
  - destruct (RabiSweep_johns.analyze_results data st1) as [[d|e] st2]; reflexivity.
Qed.

Lemma acquire_two_reads_then_analyze_witness :
  let st := sample_state [2; 2; 2] [] in
  let kw : gmap string value := <["reads_per_rep" := num 2]> ∅ in
  let st0 := {| self := with_emitted (parent_acquire [] kw) (self st);
                heap := heap st |} in
  kw !! "reads_per_rep" = Some (num 2)
  /\ emitted (self st0) = emitted (self st) ++ [parent_acquire [] kw]
  /\ @LockinODMR_johns.acquire sample_lib (VBool false) [] ∅ st
     = match @super_acquire sample_lib [] kw st0 with
       | (Raise e, st1) => (Raise e, st1)
       | (Ok data, st1) =>
           if is_False (VBool false) then
             match @LockinODMR_johns.analyze_results sample_lib data st1 with
             | (Ok d, st2) => (Ok (Attrs d), st2)
             | (Raise e, st2) => (Raise e, st2)
             end
           else (Ok (Array data), st1)
       end
  /\ @RabiSweep_johns.acquire sample_lib (VBool false) [] ∅ st
     = match @super_acquire sample_lib [] kw st0 with
       | (Raise e, st1) => (Raise e, st1)
       | (Ok data, st1) =>
           if is_False (VBool false) then
             match @RabiSweep_johns.analyze_results sample_lib data st1 with
             | (Ok d, st2) => (Ok (Attrs d), st2)
             | (Raise e, st2) => (Raise e, st2)
             end
           else (Ok (Array data), st1)
       end.
Proof.
  apply (@acquire_two_reads_then_analyze sample_lib (VBool false) [] ∅
           (sample_state [2; 2; 2] [])).
  reflexivity.
Defined.

(** ** The calls of initialize and body *)

(** Closes a goal about the calls of a state that is known. *)
Ltac calls_known :=
  unfold calls_after, flag, t1_sweeps, cfg_value; simpl in *;
  repeat match goal with
    | H1 : ?c !! ?k = Some ?v1, H2 : ?c !! ?k = Some ?v2 |- _ =>
        assert (v2 = v1) by congruence; subst v2; clear H2
    end;
  repeat match goal with
    | H : ?c !! ?k = Some _ |- context [?c !! ?k] => rewrite H
    end;
  simpl;
  repeat match goal with
    | H : ?b = _ |- context [?b] => rewrite H
    end;
  simpl; rewrite ?map_app; simpl; rewrite <- ?app_assoc; reflexivity.

Ltac run_calls :=
  repeat (step; cbv beta;
          lazymatch goal with
          | |- True => exact I
          | |- calls_after _ _ _ => calls_known
          | _ => idtac
          end).

Lemma lockin_initialize_calls_run (st : pystate) :
  outcome LockinODMR_johns.initialize st
    (fun _ st' =>
       calls_after st (lockin_initialize_calls (flag (cfg (self st)) "pre_init")) st')
    (fun _ _ => True).
Proof. unfold LockinODMR_johns.initialize. run_calls. Qed.

Lemma lockin_body_calls_run (st : pystate) :
  outcome LockinODMR_johns.body st
    (fun _ st' => calls_after st lockin_body_calls st') (fun _ _ => True).
Proof. unfold LockinODMR_johns.body. run_calls. Qed.

Lemma rabi_initialize_calls_run (st : pystate) :
  outcome RabiSweep_johns.initialize st
    (fun _ st' =>
       calls_after st (rabi_initialize_calls (flag (cfg (self st)) "pre_init")) st')
    (fun _ _ => True).
Proof. unfold RabiSweep_johns.initialize. run_calls. Qed.

Lemma rabi_body_calls_run (st : pystate) :
  outcome RabiSweep_johns.body st
    (fun _ st' => calls_after st rabi_body_calls st') (fun _ _ => True).
Proof. unfold RabiSweep_johns.body. run_calls. Qed.

Lemma t1_initialize_calls_run (st : pystate) :
  outcome T1DelaySweep.initialize st
    (fun _ st' =>
       calls_after st
         (t1_initialize_calls (t1_sweeps (cfg (self st)))
                              (flag (cfg (self st)) "pre_init")) st')
    (fun _ _ => True).
Proof. unfold T1DelaySweep.initialize. run_calls. Qed.

Lemma t1_body_calls_run (st : pystate) :
  outcome T1DelaySweep.body st
    (fun _ st' => calls_after st t1_body_calls st') (fun _ _ => True).
Proof. unfold T1DelaySweep.body. run_calls. Qed.

(** ** The order of the calls *)

Lemma calls_of_run (m : M unit) (st : pystate) (names : list string) :
  outcome m st (fun _ st' => calls_after st names st') (fun _ _ => True) ->
  completes m st ->
  emitted (self st) = [] ->
  calls_of m st = names.
Proof.
  unfold outcome, calls_after, completes, calls_of. intros H Hrun Hnil.
  destruct (m st) as [[u|e] st']; simpl in *; [|discriminate].
  rewrite Hnil in H. exact H.
Qed.

(** C6, as stated, fails: initialize branches on pre_init.  Two
    configurations that differ in pre_init only, both accepted by
    LockinODMR_johns.initialize, make it emit sequences of different length:
    the three calls of the laser pre-pulse are made for one and not for the
    other. *)
Lemma initialize_branches_on_pre_init :
  let on := {| self := new_program sample_cfg; heap := [] |} in
  let off := {| self := new_program (<["pre_init" := VBool false]> sample_cfg);
                heap := [] |} in
  completes LockinODMR_johns.initialize on
  /\ completes LockinODMR_johns.initialize off
  /\ calls_of LockinODMR_johns.initialize on
     = [ "declare_readout"; "declare_gen"; "set_pulse_registers"; "get_gen_reg";
         "add_sweep"; "synci"; "pulse"; "trigger"; "sync_all" ]
  /\ calls_of LockinODMR_johns.initialize off
     = [ "declare_readout"; "declare_gen"; "set_pulse_registers"; "get_gen_reg";
         "add_sweep"; "synci" ]
  /\ calls_of LockinODMR_johns.initialize on
     <> calls_of LockinODMR_johns.initialize off.
Proof.
  intros on off.
  split; [vm_compute; reflexivity|]. split; [vm_compute; reflexivity|].
  split; [vm_compute; reflexivity|]. split; [vm_compute; reflexivity|].
  vm_compute. discriminate.
Qed.

(** C6, as amended.  Of two runs that complete, started on programs that
    have made no call yet: the two runs of body of one class call the same
    methods in the same order, whatever the two configurations; so do the
    two runs of initialize of LockinODMR_johns or of RabiSweep_johns when
    pre_init is true in both configurations or in neither; and so do the two
    runs of T1DelaySweep.initialize when, besides, scaling_mode selects a
    sweep in both configurations or in neither. *)
Theorem calls_depend_on_pre_init_only (s1 s2 : pystate) :
  emitted (self s1) = [] ->
  emitted (self s2) = [] ->
  let same_calls (m : M unit) :=
    completes m s1 -> completes m s2 -> calls_of m s1 = calls_of m s2 in
  let same_pre_init :=
    flag (cfg (self s1)) "pre_init" = flag (cfg (self s2)) "pre_init" in
  same_calls LockinODMR_johns.body
  /\ same_calls RabiSweep_johns.body
  /\ same_calls T1DelaySweep.body
  /\ (same_pre_init -> same_calls LockinODMR_johns.initialize)
  /\ (same_pre_init -> same_calls RabiSweep_johns.initialize)
  /\ (same_pre_init ->
      t1_sweeps (cfg (self s1)) = t1_sweeps (cfg (self s2)) ->
      same_calls T1DelaySweep.initialize).
Proof.
  intros H1 H2 same_calls same_pre_init. unfold same_calls, same_pre_init.
  repeat split.
  - intros R1 R2.
    rewrite (calls_of_run _ _ _ (lockin_body_calls_run s1) R1 H1),
      (calls_of_run _ _ _ (lockin_body_calls_run s2) R2 H2). reflexivity.
  - intros R1 R2.
    rewrite (calls_of_run _ _ _ (rabi_body_calls_run s1) R1 H1),
      (calls_of_run _ _ _ (rabi_body_calls_run s2) R2 H2). reflexivity.
  - intros R1 R2.
    rewrite (calls_of_run _ _ _ (t1_body_calls_run s1) R1 H1),
      (calls_of_run _ _ _ (t1_body_calls_run s2) R2 H2). reflexivity.
  - intros Hp R1 R2.
    rewrite (calls_of_run _ _ _ (lockin_initialize_calls_run s1) R1 H1),
      (calls_of_run _ _ _ (lockin_initialize_calls_run s2) R2 H2), Hp.
    reflexivity.
  - intros Hp R1 R2.
    rewrite (calls_of_run _ _ _ (rabi_initialize_calls_run s1) R1 H1),
      (calls_of_run _ _ _ (rabi_initialize_calls_run s2) R2 H2), Hp.
    reflexivity.
  - intros Hp Hs R1 R2.
    rewrite (calls_of_run _ _ _ (t1_initialize_calls_run s1) R1 H1),
      (calls_of_run _ _ _ (t1_initialize_calls_run s2) R2 H2), Hp, Hs.
    reflexivity.
Qed.

Lemma calls_depend_on_pre_init_only_witness :
  let s1 := {| self := ready_program sample_cfg; heap := [] |} in
  let s2 := {| self := ready_program other_cfg; heap := [] |} in
  calls_of LockinODMR_johns.body s1 = calls_of LockinODMR_johns.body s2
  /\ calls_of RabiSweep_johns.body s1 = calls_of RabiSweep_johns.body s2
  /\ calls_of T1DelaySweep.body s1 = calls_of T1DelaySweep.body s2
  /\ calls_of LockinODMR_johns.initialize s1 = calls_of LockinODMR_johns.initialize s2
  /\ calls_of RabiSweep_johns.initialize s1 = calls_of RabiSweep_johns.initialize s2
  /\ calls_of T1DelaySweep.initialize s1 = calls_of T1DelaySweep.initialize s2.
Proof.
  intros s1 s2.
  destruct (calls_depend_on_pre_init_only s1 s2 eq_refl eq_refl)
    as (B1 & B2 & B3 & I1 & I2 & I3).
  split; [apply B1; vm_compute; reflexivity|].
  split; [apply B2; vm_compute; reflexivity|].
  split; [apply B3; vm_compute; reflexivity|].
  split; [apply I1; vm_compute; reflexivity|].
  split; [apply I2; vm_compute; reflexivity|].
  apply I3; vm_compute; reflexivity.
Defined.

(** * More of the analysis *)

(** ** What RabiSweep_johns.analyze_results returns *)

(** X1.  On a program with a numeric readout_integration_treg and a
    registered sweep, for an input whose size is the product of data_shape,
    data_shape having 2, 3 or 4 axes the last of which has length at least
    2, RabiSweep_johns.analyze_results returns five one-dimensional arrays:
    [signal], [reference] and [contrast] with one entry per sweep point,
    [sweep_treg] with the points of the first registered sweep and
    [sweep_tus] with these points times [cycles2us(1)].  When
    readout_integration_treg is not zero and no leading axis is empty,
    [signal] and [reference] are, at every sweep point, the means over all
    leading axes of index 0 and index 1 of the last axis of the reshaped
    and time-normalized data; and when in addition no mean of the reference
    is zero, [contrast] is [(signal - reference) / reference * 100] of
    these two means. *)
Theorem rabi_analyze_results_values `{!qick} (a : ndarray) (st : pystate)
    (lead : list nat) (n L : nat) (tv : value) (t : Qc)
    (sw : sweep) (rest : list sweep) :
  allocated st a ->
  data_shape (self st) = lead ++ [n; L] ->
  length lead <= 2 ->
  2 <= L ->
  size a = prod_list (data_shape (self st)) ->
  cfg (self st) !! "readout_integration_treg" = Some tv ->
  as_number tv = Ok t ->
  qick_sweeps (self st) = sw :: rest ->
  let p := prod_list lead in
  let signal := signal_of t L (p * n) (contents (heap st) a) in
  let reference := reference_of t L (p * n) (contents (heap st) a) in
  exists d st' s r c treg tus,
    RabiSweep_johns.analyze_results a st = (Ok d, st')
    /\ d !! "signal" = Some s
    /\ d !! "reference" = Some r
    /\ d !! "contrast" = Some c
    /\ d !! "sweep_treg" = Some treg
    /\ d !! "sweep_tus" = Some tus
    /\ shape s = [n] /\ shape r = [n] /\ shape c = [n]
    /\ shape treg = [length (get_sweep_pts sw)]
    /\ shape tus = [length (get_sweep_pts sw)]
    /\ contents (heap st') treg = get_sweep_pts sw
    /\ contents (heap st') tus
       = map (fun e => (e * cycles2us 1)%Qc) (get_sweep_pts sw)
    /\ (t <> 0%Qc -> 0 < p ->
        contents (heap st') s = grand_mean p n signal
        /\ contents (heap st') r = grand_mean p n reference
        /\ (Forall (fun x => x <> 0%Qc) (grand_mean p n reference) ->
            contents (heap st') c
            = contrast_of (grand_mean p n signal) (grand_mean p n reference))).
Proof.
  intros Ha Hsh Hlead HL Hsz Htv Ht Hsw p signal reference.
  pose proof (rabi_analyze_run a st lead n L tv t sw rest
                Ha Hsh Hlead HL Hsz Htv Ht Hsw) as Hrun.
  apply returns_inv in Hrun.
  destruct Hrun as (d & st' & Hd & _
                    & (bs & br & bc & b1 & b2 & -> & Hs & Hr & Hc & H1 & H2)).
  eexists _, st', bs, br, bc, b1, b2. split; [exact Hd|].
  destruct Hs as [_ (_ & Ss & Cs)], Hr as [_ (_ & Sr & Cr)], Hc as [_ (_ & Sc & Cc)],
    H1 as [_ (_ & S1 & C1)], H2 as [_ (_ & S2 & C2)].
  assert (Ls : length signal = p * n) by apply length_signal_of.
  assert (Lr : length reference = p * n) by apply length_reference_of.
  fold p signal reference in Cs, Cr, Cc.
  rewrite mean_leading_grand_mean in Cs, Cr by assumption.
  do 2 rewrite mean_leading_grand_mean in Cc by assumption.
  rewrite length_map in S2.
  do 5 (split; [reflexivity|]). do 7 (split; [assumption|]).
  intros _ _. do 2 (split; [assumption|]). intros _. exact Cc.
Qed.

Lemma rabi_analyze_results_values_witness :
  let st := sample_state [2; 2; 2] sample_data in
  let signal := signal_of (Qc_of_Z 2) 2 (2 * 2) (contents (heap st) (acquired 8)) in
  let reference := reference_of (Qc_of_Z 2) 2 (2 * 2) (contents (heap st) (acquired 8)) in
  exists d st' s r c treg tus,
    @RabiSweep_johns.analyze_results sample_lib (acquired 8) st = (Ok d, st')
    /\ d !! "signal" = Some s
    /\ d !! "reference" = Some r
    /\ d !! "contrast" = Some c
    /\ d !! "sweep_treg" = Some treg
    /\ d !! "sweep_tus" = Some tus
    /\ shape s = [2] /\ shape r = [2] /\ shape c = [2]
    /\ shape treg = [2] /\ shape tus = [2]
    /\ contents (heap st') treg = @get_sweep_pts sample_lib sample_sweep
    /\ contents (heap st') tus
       = map (fun e => (e * @cycles2us sample_lib 1)%Qc)
             (@get_sweep_pts sample_lib sample_sweep)
    /\ contents (heap st') s = grand_mean 2 2 signal
    /\ contents (heap st') r = grand_mean 2 2 reference
    /\ contents (heap st') c
       = contrast_of (grand_mean 2 2 signal) (grand_mean 2 2 reference).
Proof.
  intros st signal reference.
  assert (Ha : allocated st (acquired 8)) by (unfold allocated; simpl; lia).
  destruct (@rabi_analyze_results_values sample_lib (acquired 8) st [2] 2 2
              (num 2) (Qc_of_Z 2) sample_sweep []
              Ha eq_refl ltac:(simpl; lia) ltac:(lia) eq_refl eq_refl eq_refl eq_refl)
    as (d & st' & s & r & c & x & y & Hd & Ds & Dr & Dc & Dx & Dy
        & Ss & Sr & Sc & Sx & Sy & Cx & Cy & Hv).
  destruct (Hv sample_treg_nonzero ltac:(simpl; lia)) as (Cs & Cr & Cc).
  exists d, st', s, r, c, x, y.
  repeat (split; [assumption|]). apply Cc.
  apply (bool_decide_unpack _). vm_compute. exact I.
Defined.

(** ** The other attributes that LockinODMR_johns.analyze_results returns *)

(** X2.  Under the same conditions LockinODMR_johns.analyze_results
    returns [signal] and [reference] one-dimensional with one entry per
    sweep point, and [frequencies] one-dimensional with the points of the
    first registered sweep, however many sweeps are registered and whatever
    the number of sweep points of the data.  When readout_integration_treg
    is not zero and no leading axis is empty, [signal] and [reference] are
    the means over all leading axes of index 0 and index 1 of the last axis
    of the reshaped and time-normalized data. *)
Theorem lockin_signal_reference_frequencies `{!qick} (a : ndarray) (st : pystate)
    (lead : list nat) (n L : nat) (tv : value) (t : Qc)
    (sw : sweep) (rest : list sweep) :
  allocated st a ->
  data_shape (self st) = lead ++ [n; L] ->
  length lead <= 2 ->
  2 <= L ->
  size a = prod_list (data_shape (self st)) ->
  cfg (self st) !! "readout_integration_treg" = Some tv ->
  as_number tv = Ok t ->
  qick_sweeps (self st) = sw :: rest ->
  let p := prod_list lead in
  exists d st' s r f,
    LockinODMR_johns.analyze_results a st = (Ok d, st')
    /\ d !! "signal" = Some s
    /\ d !! "reference" = Some r
    /\ d !! "frequencies" = Some f
    /\ shape s = [n] /\ shape r = [n]
    /\ shape f = [length (get_sweep_pts sw)]
    /\ contents (heap st') f = get_sweep_pts sw
    /\ (t <> 0%Qc -> 0 < p ->
        contents (heap st') s
        = grand_mean p n (signal_of t L (p * n) (contents (heap st) a))
        /\ contents (heap st') r
           = grand_mean p n (reference_of t L (p * n) (contents (heap st) a))).
Proof.
  intros Ha Hsh Hlead HL Hsz Htv Ht Hsw p.
  pose proof (lockin_analyze_run a st lead n L tv t sw rest
                Ha Hsh Hlead HL Hsz Htv Ht Hsw) as Hrun.
  apply returns_inv in Hrun.
  destruct Hrun as (d & st' & Hd & _
                    & (ao & asig & aref & ac & af & -> & _ & Hs & Hr & _ & Hf)).
  eexists _, st', asig, aref, af. split; [exact Hd|].
  destruct Hs as [_ (_ & Ss & Cs)], Hr as [_ (_ & Sr & Cr)],
    Hf as [_ (_ & Sf & Cf)].
  set (sig := signal_of t L (prod_list lead * n) (contents (heap st) a)) in *.
  set (ref := reference_of t L (prod_list lead * n) (contents (heap st) a)) in *.
  assert (Ls : length sig = p * n) by apply length_signal_of.
  assert (Lr : length ref = p * n) by apply length_reference_of.
  rewrite mean_leading_grand_mean in Cs, Cr by assumption.
  do 3 (split; [reflexivity|]). do 4 (split; [assumption|]).
  intros _ _. split; assumption.
Qed.

Lemma lockin_signal_reference_frequencies_witness :
  let st := sample_state [2; 2; 2] sample_data in
  exists d st' s r f,
    @LockinODMR_johns.analyze_results sample_lib (acquired 8) st = (Ok d, st')
    /\ d !! "signal" = Some s
    /\ d !! "reference" = Some r
    /\ d !! "frequencies" = Some f
    /\ shape s = [2] /\ shape r = [2] /\ shape f = [2]
    /\ contents (heap st') f = @get_sweep_pts sample_lib sample_sweep
    /\ contents (heap st') s
       = grand_mean 2 2 (signal_of (Qc_of_Z 2) 2 (2 * 2) (contents (heap st) (acquired 8)))
    /\ contents (heap st') r
       = grand_mean 2 2 (reference_of (Qc_of_Z 2) 2 (2 * 2) (contents (heap st) (acquired 8))).
Proof.
  intros st.
  assert (Ha : allocated st (acquired 8)) by (unfold allocated; simpl; lia).
  destruct (@lockin_signal_reference_frequencies sample_lib (acquired 8) st [2] 2 2
              (num 2) (Qc_of_Z 2) sample_sweep []
              Ha eq_refl ltac:(simpl; lia) ltac:(lia) eq_refl eq_refl eq_refl eq_refl)
    as (d & st' & s & r & f & Hd & Ds & Dr & Df & Ss & Sr & Sf & Cf & Hv).
  destruct (Hv sample_treg_nonzero ltac:(simpl; lia)) as (Cs & Cr).
  exists d, st', s, r, f.
  repeat (split; [assumption|]). assumption.
Defined.

(** ** What analyze_results raises *)

(** X4.  When the size of the input is not the product of data_shape,
    analyze_results of either class raises the ValueError of [np.reshape],
    in the state it started from. *)
Theorem analyze_results_size_mismatch `{!qick} (a : ndarray) (st : pystate) :
  size a <> prod_list (data_shape (self st)) ->
  LockinODMR_johns.analyze_results a st = (Raise ValueError, st)
  /\ RabiSweep_johns.analyze_results a st = (Raise ValueError, st).
Proof.
  intros Hsz.
  assert (Hn : normalize a st = (Raise ValueError, st)).
  { unfold normalize, np_reshape, mbind, M_bind, get_self.
    destruct (size a =? prod_list (data_shape (self st))) eqn:E.
    - apply Nat.eqb_eq in E. contradiction.
    - reflexivity. }
  split.
  - unfold LockinODMR_johns.analyze_results. apply bind_Raise. exact Hn.
  - unfold RabiSweep_johns.analyze_results. apply bind_Raise. exact Hn.
Qed.

Lemma analyze_results_size_mismatch_witness :
  let st := sample_state [2; 2; 2] sample_data in
  @LockinODMR_johns.analyze_results sample_lib (acquired 6) st = (Raise ValueError, st)
  /\ @RabiSweep_johns.analyze_results sample_lib (acquired 6) st = (Raise ValueError, st).
Proof.
  intros st.
  apply (@analyze_results_size_mismatch sample_lib (acquired 6) st).
  vm_compute. discriminate.
Defined.

Lemma normalize_raises (a : ndarray) (st : pystate) (e : exn) :
  size a = prod_list (data_shape (self st)) ->
  (cfg (self st) !! "readout_integration_treg" = None /\ e = AttributeError)
  \/ (exists tv, cfg (self st) !! "readout_integration_treg" = Some tv
                 /\ as_number tv = Raise e) ->
  exists st1, normalize a st = (Raise e, st1).
Proof.
  intros Hsz Htv.
  unfold normalize, np_reshape, np_div_value, np_scalar, lift, attr, read,
    new_array, mbind, M_bind, mret, M_ret, get_self.
  rewrite (proj2 (Nat.eqb_eq _ _) Hsz). simpl.
  destruct Htv as [[Htv ->]|(tv & Htv & Ht)];
    destruct (dims a) as [|[N s] [|d1 d]]; simpl;
    repeat (destruct (decide _); simpl); rewrite Htv, ?Ht; eauto.
Qed.

(** X5.  For an input whose size is the product of data_shape,
    analyze_results of either class raises an AttributeError when the
    configuration has no readout_integration_treg, and a TypeError when
    readout_integration_treg is [None] or a string. *)
Theorem analyze_results_needs_the_integration_time `{!qick} (a : ndarray)
    (st : pystate) (e : exn) :
  size a = prod_list (data_shape (self st)) ->
  (cfg (self st) !! "readout_integration_treg" = None /\ e = AttributeError)
  \/ (exists tv, cfg (self st) !! "readout_integration_treg" = Some tv
                 /\ (tv = VNone \/ exists s, tv = VStr s)
                 /\ e = TypeError) ->
  fst (LockinODMR_johns.analyze_results a st) = Raise e
  /\ fst (RabiSweep_johns.analyze_results a st) = Raise e.
Proof.
  intros Hsz Hcase.
  assert (Hn : exists st1, normalize a st = (Raise e, st1)).
  { apply normalize_raises; [exact Hsz|].
    destruct Hcase as [Hnone|(tv & Htv & Hkind & ->)]; [left; exact Hnone|].
    right. exists tv. split; [exact Htv|].
    destruct Hkind as [->|[s ->]]; reflexivity. }
  destruct Hn as [st1 Hn]. split.
  - unfold LockinODMR_johns.analyze_results.
    rewrite (bind_Raise _ _ _ _ _ Hn). reflexivity.
  - unfold RabiSweep_johns.analyze_results.
    rewrite (bind_Raise _ _ _ _ _ Hn). reflexivity.
Qed.

Lemma analyze_results_needs_the_integration_time_witness :
  let missing :=
    state_with (delete "readout_integration_treg" sample_cfg) [2; 2; 2]
      [sample_sweep] sample_data in
  let none :=
    state_with (<["readout_integration_treg" := VNone]> sample_cfg) [2; 2; 2]
      [sample_sweep] sample_data in
  (fst (@LockinODMR_johns.analyze_results sample_lib (acquired 8) missing)
   = Raise AttributeError
   /\ fst (@RabiSweep_johns.analyze_results sample_lib (acquired 8) missing)
      = Raise AttributeError)
  /\ (fst (@LockinODMR_johns.analyze_results sample_lib (acquired 8) none)
      = Raise TypeError
      /\ fst (@RabiSweep_johns.analyze_results sample_lib (acquired 8) none)
         = Raise TypeError).
Proof.
  intros missing none. split.
  - apply (@analyze_results_needs_the_integration_time sample_lib (acquired 8)
             missing AttributeError).
    + reflexivity.
    + left. split; reflexivity.
  - apply (@analyze_results_needs_the_integration_time sample_lib (acquired 8)
             none TypeError).
    + reflexivity.
    + right. exists VNone. split; [reflexivity|]. split; [left; reflexivity|].
      reflexivity.
Defined.

Lemma separate_short (b : nat) (lead : list nat) (n L : nat) (st : pystate) :
  data_shape (self st) = lead ++ [n; L] ->
  length lead <= 2 ->
  L < 2 ->
  separate (fresh_at b (lead ++ [n; L])) st = (Raise IndexError, st).
Proof.
  intros Hsh Hlen HL.
  pose proof (getitem_last_out b lead n L 1 st ltac:(lia)) as G1.
  unfold separate, mbind, M_bind, get_self. rewrite Hsh.
  destruct L as [|[|L]]; [| |lia].
  - pose proof (getitem_last_out b lead n 0 0 st ltac:(lia)) as G0.
    destruct lead as [|x [|y [|z lead]]]; simpl in Hlen; try lia;
      cbn [app length Nat.eqb replicate] in *; cbv beta;
      rewrite G0; reflexivity.
  - pose proof (getitem_last b lead n 1 0 st ltac:(lia)) as G0.
    destruct lead as [|x [|y [|z lead]]]; simpl in Hlen; try lia;
      cbn [app length Nat.eqb replicate] in *; cbv beta;
      rewrite G0, G1; reflexivity.
Qed.

(** X6.  On a program with a numeric readout_integration_treg, for an input
    whose size is the product of data_shape, data_shape having 2, 3 or 4
    axes: when the last axis is shorter than 2, analyze_results of either
    class raises the IndexError of [data[..., 0]] or [data[..., 1]]. *)
Theorem analyze_results_needs_two_reads `{!qick} (a : ndarray) (st : pystate)
    (lead : list nat) (n L : nat) (tv : value) (t : Qc) :
  allocated st a ->
  data_shape (self st) = lead ++ [n; L] ->
  length lead <= 2 ->
  L < 2 ->
  size a = prod_list (data_shape (self st)) ->
  cfg (self st) !! "readout_integration_treg" = Some tv ->
  as_number tv = Ok t ->
  fst (LockinODMR_johns.analyze_results a st) = Raise IndexError
  /\ fst (RabiSweep_johns.analyze_results a st) = Raise IndexError.
Proof.
  intros Ha Hsh Hlead HL Hsz Htv Ht.
  destruct (normalize_run a st (lead ++ [n; L]) tv t Ha Hsh
              ltac:(rewrite <- Hsh; exact Hsz) Htv Ht) as (st0 & E0 & Hn).
  set (st1 := allocate st0 [normalized t (contents (heap st) a)]) in *.
  assert (Hsh1 : data_shape (self st1) = lead ++ [n; L]).
  { simpl. destruct E0 as [-> _]. exact Hsh. }
  pose proof (separate_short (length (heap st0)) lead n L st1 Hsh1 Hlead HL) as Hsep.
  split.
  - unfold LockinODMR_johns.analyze_results.
    rewrite (bind_Ok _ _ _ _ _ Hn), (bind_Raise _ _ _ _ _ Hsep). reflexivity.
  - unfold RabiSweep_johns.analyze_results.
    rewrite (bind_Ok _ _ _ _ _ Hn), (bind_Raise _ _ _ _ _ Hsep). reflexivity.
Qed.

Lemma analyze_results_needs_two_reads_witness :
  let st := sample_state [2; 3; 1] (map Qc_of_Z [4; 8; 12; 2; 6; 10]%Z) in
  fst (@LockinODMR_johns.analyze_results sample_lib (acquired 6) st) = Raise IndexError
  /\ fst (@RabiSweep_johns.analyze_results sample_lib (acquired 6) st) = Raise IndexError.
Proof.
  intros st.
  apply (@analyze_results_needs_two_reads sample_lib (acquired 6) st [2] 3 1
           (num 2) (Qc_of_Z 2)).
  - unfold allocated. simpl. lia.
  - reflexivity.
  - simpl. lia.
  - lia.
  - reflexivity.
  - reflexivity.
  - reflexivity.
Defined.

(** ** Without a registered sweep *)

(** A run of [m] that returns, followed by [k]. *)
Lemma outcome_after {X Y} (m : M X) (k : X -> M Y) (st : pystate)
    (Q : Y -> pystate -> Prop) (E : exn -> pystate -> Prop) :
  returns m st (fun x st' => outcome (k x) st' Q E) ->
  outcome (x ← m; k x) st Q E.
Proof.
  unfold returns, outcome, mbind, M_bind.
  destruct (m st) as [[x|e] st']; [auto | contradiction].
Qed.

Lemma sweep_pts0_without_sweep `{!qick} (st : pystate) {Y} (k : ndarray -> M Y)
    (Q : Y -> pystate -> Prop) :
  qick_sweeps (self st) = [] ->
  outcome (x ← sweep_pts0; k x) st Q (fun e _ => e = IndexError).
Proof.
  intros Hsw. unfold outcome, sweep_pts0, mbind, M_bind, get_self.
  rewrite Hsw. reflexivity.
Qed.

Lemma lockin_reduce_without_sweep `{!qick} (lo n : nat) (lead : list nat)
    (st : pystate) (s r : ndarray) (vs vr : list Qc) :
  holds_from lo st s (lead ++ [n]) vs ->
  holds_from lo st r (lead ++ [n]) vr ->
  qick_sweeps (self st) = [] ->
  outcome (LockinODMR_johns.reduce (Some s) (Some r)) st
    (fun _ _ => False) (fun e _ => e = IndexError).
Proof.
  intros Hs Hr Hsw. unfold LockinODMR_johns.reduce. simpl local.
  apply outcome_after, returns_ret. apply outcome_after, returns_ret.
  apply outcome_after; eapply (returns_binop_holds lo Qcminus s r); [exact Hs | exact Hr |].
  intros o st1 E1 Ho. carry E1.
  apply outcome_after, returns_ret. apply outcome_after, returns_ret.
  apply outcome_after; eapply (returns_binop_holds lo Qcminus s r); [exact Hs | exact Hr |].
  intros df st2 E2 Hdf. carry E2.
  apply outcome_after, returns_ret.
  apply outcome_after; eapply (returns_binop_holds lo Qcdiv df r); [exact Hdf | exact Hr |].
  intros qt st3 E3 Hqt. carry E3.
  apply outcome_after; eapply (returns_scalar_holds lo Qcmult qt); [exact Hqt|].
  intros c st4 E4 Hc. carry E4.
  apply outcome_after, returns_ret. apply outcome_after, returns_ret.
  replace (ndim o - 1) with (length lead).
  2:{ rewrite ndim_shape. destruct Ho as [_ (_ & -> & _)].
      rewrite length_app. simpl. lia. }
  apply outcome_after.
  eapply (lockin_mean_loop lo n lead st4 o s r c); try eassumption.
  intros o' s' r' c' st5 E5 Ho' Hs' Hr' Hc'.
  apply sweep_pts0_without_sweep.
  destruct E1 as [e1 _], E2 as [e2 _], E3 as [e3 _], E4 as [e4 _], E5 as [e5 _].
  congruence.
Qed.

Lemma rabi_reduce_without_sweep `{!qick} (lo n : nat) (lead : list nat)
    (st : pystate) (s r : ndarray) (vs vr : list Qc) :
  holds_from lo st s (lead ++ [n]) vs ->
  holds_from lo st r (lead ++ [n]) vr ->
  qick_sweeps (self st) = [] ->
  outcome (RabiSweep_johns.reduce (Some s) (Some r)) st
    (fun _ _ => False) (fun e _ => e = IndexError).
Proof.
  intros Hs Hr Hsw. unfold RabiSweep_johns.reduce. simpl local.
  apply outcome_after, returns_ret. apply outcome_after, returns_ret.
  replace (ndim s - 1) with (length lead).
  2:{ rewrite ndim_shape. destruct Hs as [_ (_ & -> & _)].
      rewrite length_app. simpl. lia. }
  apply outcome_after.
  eapply (rabi_mean_loop lo n lead st s r); try eassumption.
  intros s' r' st1 E1 Hs' Hr'.
  apply outcome_after; eapply (returns_binop_holds lo Qcminus s' r'); [exact Hs' | exact Hr' |].
  intros df st2 E2 Hdf. carry E2.
  apply outcome_after; eapply (returns_binop_holds lo Qcdiv df r'); [exact Hdf | exact Hr' |].
  intros qt st3 E3 Hqt. carry E3.
  apply outcome_after; eapply (returns_scalar_holds lo Qcmult qt); [exact Hqt|].
  intros c st4 E4 Hc. carry E4.
  apply sweep_pts0_without_sweep.
  destruct E1 as [e1 _], E2 as [e2 _], E3 as [e3 _], E4 as [e4 _]. congruence.
Qed.

(** After the first two statements and the [if]/[elif] chain, what is left
    of analyze_results is the reduction of the two slices. *)
Lemma analyze_reduces `{!qick} (a : ndarray) (st : pystate)
    (lead : list nat) (n L : nat) (tv : value) (t : Qc) :
  allocated st a ->
  data_shape (self st) = lead ++ [n; L] ->
  length lead <= 2 ->
  2 <= L ->
  size a = prod_list (data_shape (self st)) ->
  cfg (self st) !! "readout_integration_treg" = Some tv ->
  as_number tv = Ok t ->
  exists st1 s r,
    extends st st1
    /\ holds_from (length (heap st)) st1 s (lead ++ [n])
         (signal_of t L (prod_list lead * n) (contents (heap st) a))
    /\ holds_from (length (heap st)) st1 r (lead ++ [n])
         (reference_of t L (prod_list lead * n) (contents (heap st) a))
    /\ LockinODMR_johns.analyze_results a st
       = LockinODMR_johns.reduce (Some s) (Some r) st1
    /\ RabiSweep_johns.analyze_results a st
       = RabiSweep_johns.reduce (Some s) (Some r) st1.
Proof.
  intros Ha Hsh Hlead HL Hsz Htv Ht.
  destruct (normalize_run a st (lead ++ [n; L]) tv t Ha Hsh
              ltac:(rewrite <- Hsh; exact Hsz) Htv Ht) as (st0 & E0 & Hn).
  set (nd := normalized t (contents (heap st) a)) in *.
  set (st1 := allocate st0 [nd]) in *.
  assert (Hsh1 : data_shape (self st1) = lead ++ [n; L]).
  { simpl. destruct E0 as [-> _]. exact Hsh. }
  pose proof (separate_run (length (heap st0)) lead n L st1 Hsh1 Hlead HL) as Hsep.
  assert (Hb : heap st1 !! length (heap st0) = Some nd).
  { simpl. apply list_lookup_middle. reflexivity. }
  pose proof (extends_length _ _ E0) as Hlen.
  exists st1, (last_view (length (heap st0)) (lead ++ [n]) L 0),
    (last_view (length (heap st0)) (lead ++ [n]) L 1).
  split; [eapply extends_trans; [exact E0 | apply extends_allocate]|].
  split; [|split; [|split]].
  - unfold signal_of. rewrite <- prod_list_snoc.
    apply holds_last_view; [exact Hb | exact Hlen].
  - unfold reference_of. rewrite <- prod_list_snoc.
    apply holds_last_view; [exact Hb | exact Hlen].
  - unfold LockinODMR_johns.analyze_results.
    rewrite (bind_Ok _ _ _ _ _ Hn), (bind_Ok _ _ _ _ _ Hsep). reflexivity.
  - unfold RabiSweep_johns.analyze_results.
    rewrite (bind_Ok _ _ _ _ _ Hn), (bind_Ok _ _ _ _ _ Hsep). reflexivity.
Qed.

(** X7.  On a program that has no sweep registered, with everything else as
    analyze_results expects it (a numeric readout_integration_treg, an input
    of the size of data_shape, 2 to 4 axes the last of length at least 2),
    analyze_results of either class raises the IndexError of
    [self.qick_sweeps[0]]: the averages are computed and then lost. *)
Theorem analyze_results_needs_a_sweep `{!qick} (a : ndarray) (st : pystate)
    (lead : list nat) (n L : nat) (tv : value) (t : Qc) :
  allocated st a ->
  data_shape (self st) = lead ++ [n; L] ->
  length lead <= 2 ->
  2 <= L ->
  size a = prod_list (data_shape (self st)) ->
  cfg (self st) !! "readout_integration_treg" = Some tv ->
  as_number tv = Ok t ->
  qick_sweeps (self st) = [] ->
  fst (LockinODMR_johns.analyze_results a st) = Raise IndexError
  /\ fst (RabiSweep_johns.analyze_results a st) = Raise IndexError.
Proof.
  intros Ha Hsh Hlead HL Hsz Htv Ht Hsw.
  destruct (analyze_reduces a st lead n L tv t Ha Hsh Hlead HL Hsz Htv Ht)
    as (st1 & s & r & E1 & Hs & Hr & Hl & Hb).
  assert (Hsw1 : qick_sweeps (self st1) = []).
  { destruct E1 as [-> _]. exact Hsw. }
  split.
  - rewrite Hl.
    pose proof (lockin_reduce_without_sweep _ n lead st1 s r _ _ Hs Hr Hsw1) as Hred.
    unfold outcome in Hred.
    destruct (LockinODMR_johns.reduce (Some s) (Some r) st1) as [[d|e] st2]; simpl;
      [contradiction | congruence].
  - rewrite Hb.
    pose proof (rabi_reduce_without_sweep _ n lead st1 s r _ _ Hs Hr Hsw1) as Hred.
    unfold outcome in Hred.
    destruct (RabiSweep_johns.reduce (Some s) (Some r) st1) as [[d|e] st2]; simpl;
      [contradiction | congruence].
Qed.

Lemma analyze_results_needs_a_sweep_witness :
  let st := state_with sample_cfg [2; 2; 2] [] sample_data in
  fst (@LockinODMR_johns.analyze_results sample_lib (acquired 8) st) = Raise IndexError
  /\ fst (@RabiSweep_johns.analyze_results sample_lib (acquired 8) st) = Raise IndexError.
Proof.
  intros st.
  apply (@analyze_results_needs_a_sweep sample_lib (acquired 8) st [2] 2 2
           (num 2) (Qc_of_Z 2)).
  - unfold allocated. simpl. lia.
  - reflexivity.
  - simpl. lia.
  - lia.
  - reflexivity.
  - reflexivity.
  - reflexivity.
  - reflexivity.
Defined.

(** * More of the pulse programs *)

(** ** Running initialize and body *)

(** What holds of the final state of a run, however it ends. *)
Lemma outcome_snd {X} (m : M X) (st : pystate) (P : pystate -> Prop) :
  outcome m st (fun _ st' => P st') (fun _ st' => P st') -> P (snd (m st)).
Proof. unfold outcome. destruct (m st) as [[x|e] st']; auto. Qed.

(** What holds of the final state of a run that completes. *)
Lemma outcome_completes (m : M unit) (st : pystate) (Q : pystate -> Prop) :
  outcome m st (fun _ st' => Q st') (fun _ _ => True) ->
  completes m st -> Q (snd (m st)).
Proof.
  unfold outcome, completes. destruct (m st) as [[u|e] st']; simpl; [auto|discriminate].
Qed.

Lemma outcome_check_cfg_cases (required : list string) (st : pystate)
    (Q : unit -> pystate -> Prop) (E : exn -> pystate -> Prop) :
  (Forall (fun k => is_Some (cfg (self st) !! k)) required -> Q tt st) ->
  (~ Forall (fun k => is_Some (cfg (self st) !! k)) required -> E AssertionError st) ->
  outcome (check_cfg required) st Q E.
Proof.
  intros HQ HE. unfold outcome, check_cfg.
  destruct (forallb _ required) eqn:Hall.
  - apply HQ. apply Forall_forall. intros k Hk.
    rewrite forallb_forall in Hall. specialize (Hall k Hk).
    apply bool_decide_eq_true in Hall. exact Hall.
  - apply HE. intros HF.
    assert (Ht : forallb (fun k => bool_decide (is_Some (cfg (self st) !! k))) required
                 = true).
    { apply forallb_forall. intros k Hk. apply bool_decide_eq_true.
      rewrite Forall_forall in HF. apply HF, Hk. }
    congruence.
Qed.

(** One step of a run: an attribute is read once, and what it held is used
    again when it is read again; a register that is known is used; sums and
    products of numbers are computed. *)
Ltac step_run :=
  cbv beta;
  lazymatch goal with
  | |- outcome (attr ?name) ?s _ _ =>
      let c := eval cbn [cfg self] in (cfg (self s)) in
      lazymatch goal with
      | Hk : c !! name = Some ?v |- _ =>
          apply (outcome_attr_known_in c name v); [reflexivity|exact Hk|]
      | _ => apply (outcome_attr_in c); [reflexivity|intros ? ?|intros ?]
      end
  | |- outcome (reg_attr _) _ _ _ =>
      apply outcome_reg_attr;
      [ let x := fresh "r" in let Hr := fresh "Hr" in
        intros x Hr; cbn in Hr;
        try (injection Hr as <-);
        try match goal with
          | H0 : ?lhs = Some _ |- _ =>
              lazymatch type of Hr with
              | lhs = Some _ => rewrite H0 in Hr; injection Hr as <-
              end
          end;
        try congruence
      | let Hr := fresh "Hr" in intros Hr; cbn in Hr; try congruence ]
  | |- outcome (lift _) _ _ _ =>
      apply outcome_lift;
      [ let x := fresh "x" in let Hx := fresh "Hx" in
        intros x Hx; cbn [py_add py_mul_int as_number] in Hx;
        try (injection Hx as <-)
      | let e := fresh "e" in let He := fresh "He" in
        intros e He; cbn [py_add py_mul_int as_number] in He;
        try discriminate He ]
  | |- outcome (check_cfg _) _ _ _ =>
      apply outcome_check_cfg_cases; [intros ?|intros ?]
  | _ => step
  end.

(** A list that continues another. *)
Ltac grown :=
  first [ reflexivity
        | rewrite <- ?app_assoc; eexists; reflexivity
        | exists []; rewrite app_nil_r; reflexivity ].

(** Two lists of calls whose times are equal as numbers. *)
Ltac same_calls :=
  cbn [self heap cfg data_shape qick_sweeps mw_frequency_register
       mw_length_register delay_register emitted];
  rewrite <- ?app_assoc; cbn [app]; unfold num;
  repeat match goal with
    | |- @eq Qc _ _ =>
        first [reflexivity | rewrite ?Z2Qc_inj_0, ?Z2Qc_inj_2; ring]
    | |- @eq value (VNum _) (VNum _) => f_equal
    | |- @eq (option _) (Some _) (Some _) => f_equal
    | |- @eq hwcall _ _ => first [reflexivity | f_equal]
    | |- @eq (list _) (_ ++ _) (_ ++ _) => f_equal
    | |- @eq (list _) (_ :: _) (_ :: _) => f_equal
    end.

(** ** The schedule of body *)

(** X8.  With a numeric readout_integration_treg [R],
    adc_trigger_offset_treg [O] and relax_delay_treg [D],
    LockinODMR_johns.body completes and makes seven calls: an acquisition
    at time 0 (the laser gated from 0 for [R + O], the ADC triggered at [O]
    for [R]), the microwave pulse at [O], the same acquisition again at time
    [R + D + O] with no microwave pulse, then [sync_all(D)] and
    [wait_all()]. *)
Theorem lockin_body_schedule (st : pystate) (pmod adc mw : value) (R O D : Qc) :
  cfg (self st) !! "laser_gate_pmod" = Some pmod ->
  cfg (self st) !! "adc_channel" = Some adc ->
  cfg (self st) !! "mw_channel" = Some mw ->
  cfg (self st) !! "readout_integration_treg" = Some (VNum R) ->
  cfg (self st) !! "adc_trigger_offset_treg" = Some (VNum O) ->
  cfg (self st) !! "relax_delay_treg" = Some (VNum D) ->
  exists st',
    LockinODMR_johns.body st = (Ok tt, st')
    /\ emitted (self st')
       = emitted (self st)
         ++ lockin_acquisition pmod adc R O 0
         ++ [pulse mw (Some (VNum O))]
         ++ lockin_acquisition pmod adc R O (R + D + O)
         ++ [sync_all (VNum D); wait_all].
Proof.
  intros Hp Ha Hm HR HO HD.
  assert (H : returns LockinODMR_johns.body st (fun _ st' =>
            emitted (self st')
            = emitted (self st)
              ++ lockin_acquisition pmod adc R O 0
              ++ [pulse mw (Some (VNum O))]
              ++ lockin_acquisition pmod adc R O (R + D + O)
              ++ [sync_all (VNum D); wait_all])).
  { unfold returns, LockinODMR_johns.body, lockin_acquisition.
    repeat step_run. same_calls. }
  apply returns_inv in H. destruct H as ([] & st' & Hrun & H).
  exists st'. split; [exact Hrun | exact H].
Qed.

Lemma lockin_body_schedule_witness :
  let st := {| self := ready_program sample_cfg; heap := [] |} in
  exists st',
    LockinODMR_johns.body st = (Ok tt, st')
    /\ emitted (self st')
       = emitted (self st)
         ++ lockin_acquisition (num 0) (num 0) (Qc_of_Z 2) (Qc_of_Z 10) 0
         ++ [pulse (num 1) (Some (VNum (Qc_of_Z 10)))]
         ++ lockin_acquisition (num 0) (num 0) (Qc_of_Z 2) (Qc_of_Z 10)
              (Qc_of_Z 2 + Qc_of_Z 100 + Qc_of_Z 10)
         ++ [sync_all (VNum (Qc_of_Z 100)); wait_all].
Proof.
  intros st.
  apply (lockin_body_schedule st (num 0) (num 0) (num 1)
           (Qc_of_Z 2) (Qc_of_Z 10) (Qc_of_Z 100)); reflexivity.
Defined.

(** X9.  With numeric laser_initialize_treg [Li], mw_delay_treg [md],
    readout_integration_treg [R] and mw_end_treg [E], and its length
    register assigned, RabiSweep_johns.body completes and makes eight calls:
    the laser at 0 for [Li]; the microwave pulse at [Li]; the wait on the
    length register; a readout at [Li + md] for [R]; the laser again at
    [Li + md + R] for [Li]; a second readout at
    [Li + md + R + (md + md + E)] for [R], a time built from mw_end_treg
    and not from the length being swept; then
    [sync_all(relax_delay_treg)] and [wait_all()]. *)
Theorem rabi_body_schedule (st : pystate) (pmod adc mw off relax : value)
    (r : QickRegister) (Li md R E : Qc) :
  cfg (self st) !! "laser_gate_pmod" = Some pmod ->
  cfg (self st) !! "adc_channel" = Some adc ->
  cfg (self st) !! "mw_channel" = Some mw ->
  cfg (self st) !! "adc_trig_offset_treg" = Some off ->
  cfg (self st) !! "relax_delay_treg" = Some relax ->
  cfg (self st) !! "laser_initialize_treg" = Some (VNum Li) ->
  cfg (self st) !! "mw_delay_treg" = Some (VNum md) ->
  cfg (self st) !! "readout_integration_treg" = Some (VNum R) ->
  cfg (self st) !! "mw_end_treg" = Some (VNum E) ->
  mw_length_register (self st) = Some r ->
  exists st',
    RabiSweep_johns.body st = (Ok tt, st')
    /\ emitted (self st')
       = emitted (self st)
         ++ [ trigger (Some []) [pmod] (VNum Li) (num 0) (Some (num 0));
              pulse mw (Some (VNum Li));
              sync r;
              trigger (Some [adc]) [pmod] (VNum R) off (Some (VNum (Li + md)));
              trigger (Some []) [pmod] (VNum Li) (num 0) (Some (VNum (Li + md + R)));
              trigger (Some [adc]) [pmod] (VNum R) off
                (Some (VNum (Li + md + R + (md + md + E))));
              sync_all relax;
              wait_all ].
Proof.
  intros Hp Ha Hm Ho Hx HL Hd HR HE Hreg.
  assert (H : returns RabiSweep_johns.body st (fun _ st' =>
            emitted (self st')
            = emitted (self st)
              ++ [ trigger (Some []) [pmod] (VNum Li) (num 0) (Some (num 0));
                   pulse mw (Some (VNum Li));
                   sync r;
                   trigger (Some [adc]) [pmod] (VNum R) off (Some (VNum (Li + md)));
                   trigger (Some []) [pmod] (VNum Li) (num 0) (Some (VNum (Li + md + R)));
                   trigger (Some [adc]) [pmod] (VNum R) off
                     (Some (VNum (Li + md + R + (md + md + E))));
                   sync_all relax;
                   wait_all ])).
  { unfold returns, RabiSweep_johns.body. cbv zeta.
    repeat step_run. same_calls. }
  apply returns_inv in H. destruct H as ([] & st' & Hrun & H).
  exists st'. split; [exact Hrun | exact H].
Qed.

Lemma rabi_body_schedule_witness :
  let st := {| self := ready_program sample_cfg; heap := [] |} in
  let r := {| reg_ch := num 1; reg_name := "length"; reg_init := Some (num 4) |} in
  exists st',
    RabiSweep_johns.body st = (Ok tt, st')
    /\ emitted (self st')
       = emitted (self st)
         ++ [ trigger (Some []) [num 0] (VNum (Qc_of_Z 50)) (num 0) (Some (num 0));
              pulse (num 1) (Some (VNum (Qc_of_Z 50)));
              sync r;
              trigger (Some [num 0]) [num 0] (VNum (Qc_of_Z 2)) (num 10)
                (Some (VNum (Qc_of_Z 50 + Qc_of_Z 5)));
              trigger (Some []) [num 0] (VNum (Qc_of_Z 50)) (num 0)
                (Some (VNum (Qc_of_Z 50 + Qc_of_Z 5 + Qc_of_Z 2)));
              trigger (Some [num 0]) [num 0] (VNum (Qc_of_Z 2)) (num 10)
                (Some (VNum (Qc_of_Z 50 + Qc_of_Z 5 + Qc_of_Z 2
                             + (Qc_of_Z 5 + Qc_of_Z 5 + Qc_of_Z 40))));
              sync_all (num 100);
              wait_all ].
Proof.
  intros st r.
  apply (rabi_body_schedule st (num 0) (num 0) (num 1) (num 10) (num 100) r
           (Qc_of_Z 50) (Qc_of_Z 5) (Qc_of_Z 2) (Qc_of_Z 40)); reflexivity.
Defined.

(** X10.  With a numeric mw_pi2_treg [P] and its delay register assigned,
    T1DelaySweep.body completes and makes ten calls: two microwave pulses,
    at 0 and at [P], and then twice the same four calls, the second time
    with no microwave pulse before them: [synci(2 * P)], the wait on the
    delay register, [sync_all(mw_readout_delay_treg)] and
    [ttl_readout()]. *)
Theorem t1_body_two_readouts (st : pystate) (mw d : value) (r : QickRegister)
    (P : Qc) :
  cfg (self st) !! "mw_channel" = Some mw ->
  cfg (self st) !! "mw_pi2_treg" = Some (VNum P) ->
  cfg (self st) !! "mw_readout_delay_treg" = Some d ->
  delay_register (self st) = Some r ->
  exists st',
    T1DelaySweep.body st = (Ok tt, st')
    /\ emitted (self st')
       = emitted (self st)
         ++ [ pulse mw (Some (num 0)); pulse mw (Some (VNum P)) ]
         ++ t1_readout P r d ++ t1_readout P r d.
Proof.
  intros Hm HP Hd Hreg.
  assert (H : returns T1DelaySweep.body st (fun _ st' =>
            emitted (self st')
            = emitted (self st)
              ++ [ pulse mw (Some (num 0)); pulse mw (Some (VNum P)) ]
              ++ t1_readout P r d ++ t1_readout P r d)).
  { unfold returns, T1DelaySweep.body, t1_readout.
    repeat step_run. same_calls. }
  apply returns_inv in H. destruct H as ([] & st' & Hrun & H).
  exists st'. split; [exact Hrun | exact H].
Qed.

Lemma t1_body_two_readouts_witness :
  let st := {| self := ready_program sample_cfg; heap := [] |} in
  let r := {| reg_ch := num 1; reg_name := "delay"; reg_init := Some (num 4) |} in
  exists st',
    T1DelaySweep.body st = (Ok tt, st')
    /\ emitted (self st')
       = emitted (self st)
         ++ [ pulse (num 1) (Some (num 0)); pulse (num 1) (Some (VNum (Qc_of_Z 8))) ]
         ++ t1_readout (Qc_of_Z 8) r (num 6) ++ t1_readout (Qc_of_Z 8) r (num 6).
Proof.
  intros st r.
  apply (t1_body_two_readouts st (num 1) (num 6) r (Qc_of_Z 8)); reflexivity.
Defined.

(** ** What body leaves alone *)

Ltac only_calls_known :=
  unfold only_calls; cbn [self heap cfg data_shape qick_sweeps mw_frequency_register
       mw_length_register delay_register emitted];
  repeat split; grown.

Ltac run_only_calls :=
  repeat (step_run; cbv beta;
          lazymatch goal with
          | |- only_calls _ _ => only_calls_known
          | _ => idtac
          end).

Lemma lockin_body_only_calls (st : pystate) :
  outcome LockinODMR_johns.body st (fun _ st' => only_calls st st')
    (fun _ st' => only_calls st st').
Proof. unfold LockinODMR_johns.body. run_only_calls. Qed.

Lemma rabi_body_only_calls (st : pystate) :
  outcome RabiSweep_johns.body st (fun _ st' => only_calls st st')
    (fun _ st' => only_calls st st').
Proof. unfold RabiSweep_johns.body. run_only_calls. Qed.

Lemma t1_body_only_calls (st : pystate) :
  outcome T1DelaySweep.body st (fun _ st' => only_calls st st')
    (fun _ st' => only_calls st st').
Proof. unfold T1DelaySweep.body. run_only_calls. Qed.

(** X11.  Whatever a run of body ends in, in any of the three classes, it
    has only made calls on the control library: the configuration, the
    acquisition shape, the registered sweeps, the three registers and every
    buffer are as before, and the calls made before the run are still the
    first calls, in their order. *)
Theorem body_makes_calls_only (st : pystate) :
  only_calls st (snd (LockinODMR_johns.body st))
  /\ only_calls st (snd (RabiSweep_johns.body st))
  /\ only_calls st (snd (T1DelaySweep.body st)).
Proof.
  split; [|split]; apply outcome_snd.
  - apply lockin_body_only_calls.
  - apply rabi_body_only_calls.
  - apply t1_body_only_calls.
Qed.

(** ** What body needs *)

Ltac reads_known :=
  repeat (apply Forall_cons; [eexists; eassumption|]); apply Forall_nil.

Lemma lockin_body_reads_run (st : pystate) :
  outcome LockinODMR_johns.body st
    (fun _ _ => Forall (fun k => is_Some (cfg (self st) !! k)) lockin_body_reads)
    (fun _ _ => True).
Proof.
  unfold LockinODMR_johns.body, lockin_body_reads.
  repeat (step_run; cbv beta;
          lazymatch goal with
          | |- True => exact I
          | |- Forall _ _ => reads_known
          | _ => idtac
          end).
Qed.

Lemma rabi_body_reads_run (st : pystate) :
  outcome RabiSweep_johns.body st
    (fun _ _ => Forall (fun k => is_Some (cfg (self st) !! k)) rabi_body_reads
                /\ is_Some (mw_length_register (self st)))
    (fun _ _ => True).
Proof.
  unfold RabiSweep_johns.body, rabi_body_reads.
  repeat (step_run; cbv beta;
          lazymatch goal with
          | |- True => exact I
          | |- Forall _ _ /\ _ => split; [reads_known | eexists; eassumption]
          | _ => idtac
          end).
Qed.

Lemma t1_body_reads_run (st : pystate) :
  outcome T1DelaySweep.body st
    (fun _ _ => Forall (fun k => is_Some (cfg (self st) !! k)) t1_body_reads
                /\ is_Some (delay_register (self st)))
    (fun _ _ => True).
Proof.
  unfold T1DelaySweep.body, t1_body_reads.
  repeat (step_run; cbv beta;
          lazymatch goal with
          | |- True => exact I
          | |- Forall _ _ /\ _ => split; [reads_known | eexists; eassumption]
          | _ => idtac
          end).
Qed.

(** X12.  A run of body that completes has found every attribute it reads
    in the configuration: six attributes in LockinODMR_johns, among them
    adc_trigger_offset_treg; nine in RabiSweep_johns, among them
    laser_initialize_treg, mw_delay_treg and adc_trig_offset_treg (spelled
    so), besides the length register that initialize assigns; three in
    T1DelaySweep, besides its delay register. *)
Theorem body_reads_these_attributes (st : pystate) :
  (completes LockinODMR_johns.body st ->
   Forall (fun k => is_Some (cfg (self st) !! k)) lockin_body_reads)
  /\ (completes RabiSweep_johns.body st ->
      Forall (fun k => is_Some (cfg (self st) !! k)) rabi_body_reads
      /\ is_Some (mw_length_register (self st)))
  /\ (completes T1DelaySweep.body st ->
      Forall (fun k => is_Some (cfg (self st) !! k)) t1_body_reads
      /\ is_Some (delay_register (self st))).
Proof.
  split; [|split]; intros Hrun.
  - exact (outcome_completes _ _ (fun _ => _) (lockin_body_reads_run st) Hrun).
  - exact (outcome_completes _ _ (fun _ => _) (rabi_body_reads_run st) Hrun).
  - exact (outcome_completes _ _ (fun _ => _) (t1_body_reads_run st) Hrun).
Qed.

Lemma body_reads_these_attributes_witness :
  let st := {| self := ready_program sample_cfg; heap := [] |} in
  Forall (fun k => is_Some (cfg (self st) !! k)) lockin_body_reads
  /\ (Forall (fun k => is_Some (cfg (self st) !! k)) rabi_body_reads
      /\ is_Some (mw_length_register (self st)))
  /\ (Forall (fun k => is_Some (cfg (self st) !! k)) t1_body_reads
      /\ is_Some (delay_register (self st))).
Proof.
  intros st.
  destruct (body_reads_these_attributes st) as (Hl & Hr & Ht).
  split; [apply Hl; vm_compute; reflexivity|].
  split; [apply Hr; vm_compute; reflexivity|].
  apply Ht. vm_compute. reflexivity.
Defined.

(** X13.  On a program whose length register is not assigned, that is
    before initialize has run, RabiSweep_johns.body does not complete: it
    raises an AttributeError (or the TypeError of an addition that comes
    first); and so does T1DelaySweep.body on a program whose delay register
    is not assigned. *)
Theorem body_needs_its_register (st : pystate) :
  (mw_length_register (self st) = None ->
   exists e st', RabiSweep_johns.body st = (Raise e, st')
                 /\ (e = AttributeError \/ e = TypeError))
  /\ (delay_register (self st) = None ->
      exists e st', T1DelaySweep.body st = (Raise e, st')
                    /\ (e = AttributeError \/ e = TypeError)).
Proof.
  assert (Hinv : forall (m : M unit),
             outcome m st (fun _ _ => False)
               (fun e _ => e = AttributeError \/ e = TypeError) ->
             exists e st', m st = (Raise e, st')
                           /\ (e = AttributeError \/ e = TypeError)).
  { intros m H. unfold outcome in H. destruct (m st) as [[u|e] st']; [contradiction|].
    exists e, st'. split; [reflexivity | exact H]. }
  split; intros Hnone; apply Hinv.
  - unfold RabiSweep_johns.body.
    repeat (step_run; cbv beta;
            lazymatch goal with
            | |- AttributeError = _ \/ _ => left; reflexivity
            | He : py_add _ _ = Raise ?e |- ?e = _ \/ _ =>
                right; exact (py_add_raises _ _ _ He)
            | _ => idtac
            end).
  - unfold T1DelaySweep.body.
    repeat (step_run; cbv beta;
            lazymatch goal with
            | |- AttributeError = _ \/ _ => left; reflexivity
            | He : py_mul_int _ _ = Raise ?e |- ?e = _ \/ _ =>
                right; exact (py_mul_int_raises _ _ _ He)
            | _ => idtac
            end).
Qed.

Lemma body_needs_its_register_witness :
  let st := {| self := new_program sample_cfg; heap := [] |} in
  (exists e st', RabiSweep_johns.body st = (Raise e, st')
                 /\ (e = AttributeError \/ e = TypeError))
  /\ (exists e st', T1DelaySweep.body st = (Raise e, st')
                    /\ (e = AttributeError \/ e = TypeError)).
Proof.
  intros st. destruct (body_needs_its_register st) as [Hr Ht].
  split; [apply Hr; reflexivity | apply Ht; reflexivity].
Defined.

(** ** The register that body waits on *)






(** Rewrites what is known of the configuration into a test on it. *)
Ltac flag_known :=
  unfold flag, t1_sweeps, cfg_value;
  repeat match goal with
    | H : ?c !! ?k = Some _ |- context [?c !! ?k] => rewrite H
    end;
  cbn [default from_option id].

Ltac flag_known_in Hf :=
  unfold flag, cfg_value in Hf;
  repeat match goal with
    | H : ?c !! ?k = Some _ |- _ =>
        match type of Hf with context [c !! k] => rewrite H in Hf end
    end;
  cbn [default from_option id] in Hf.




(** ** What initialize leaves alone *)

Ltac only_grows_known :=
  unfold only_grows; cbn [self heap cfg data_shape qick_sweeps mw_frequency_register
       mw_length_register delay_register emitted];
  repeat split; grown.

Ltac run_grows :=
  repeat (step_run; cbv beta;
          lazymatch goal with
          | |- only_grows _ _ => only_grows_known
          | _ => idtac
          end).

Lemma lockin_initialize_only_grows (st : pystate) :
  outcome LockinODMR_johns.initialize st (fun _ st' => only_grows st st')
    (fun _ st' => only_grows st st').
Proof. unfold LockinODMR_johns.initialize. run_grows. Qed.

Lemma rabi_initialize_only_grows (st : pystate) :
  outcome RabiSweep_johns.initialize st (fun _ st' => only_grows st st')
    (fun _ st' => only_grows st st').
Proof. unfold RabiSweep_johns.initialize. run_grows. Qed.

Lemma t1_initialize_only_grows (st : pystate) :
  outcome T1DelaySweep.initialize st (fun _ st' => only_grows st st')
    (fun _ st' => only_grows st st').
Proof. unfold T1DelaySweep.initialize. run_grows. Qed.

(** X15.  Whatever a run of initialize ends in, in any of the three classes:
    the configuration, the acquisition shape and every buffer are as before;
    the sweeps registered before the run are still the first sweeps and the
    calls made before it still the first calls, so that a second run of
    initialize adds to what the first one registered and replaces
    nothing. *)
Theorem initialize_only_adds (st : pystate) :
  only_grows st (snd (LockinODMR_johns.initialize st))
  /\ only_grows st (snd (RabiSweep_johns.initialize st))
  /\ only_grows st (snd (T1DelaySweep.initialize st)).
Proof.
  split; [|split]; apply outcome_snd.
  - apply lockin_initialize_only_grows.
  - apply rabi_initialize_only_grows.
  - apply t1_initialize_only_grows.
Qed.

(** ** The readout that initialize declares *)

Ltac readout_known :=
  cbn [self heap cfg data_shape qick_sweeps mw_frequency_register
       mw_length_register delay_register emitted];
  rewrite <- ?app_assoc; cbn [app]; reflexivity.

Lemma lockin_initialize_readout (st : pystate) :
  outcome LockinODMR_johns.initialize st
    (fun _ st' => exists ch len rest,
       cfg (self st) !! "adc_channel" = Some ch
       /\ cfg (self st) !! "readout_integration_treg" = Some len
       /\ emitted (self st')
          = emitted (self st) ++ declare_readout ch (num 0) len "input" :: rest)
    (fun _ _ => True).
Proof.
  unfold LockinODMR_johns.initialize.
  repeat (step_run; cbv beta;
          lazymatch goal with
          | |- True => exact I
          | |- exists _, _ =>
              eexists _, _, _; split; [eassumption|]; split; [eassumption|];
              readout_known
          | _ => idtac
          end).
Qed.

Lemma rabi_initialize_readout (st : pystate) :
  outcome RabiSweep_johns.initialize st
    (fun _ st' => exists ch len rest,
       cfg (self st) !! "adc_channel" = Some ch
       /\ cfg (self st) !! "readout_integration_treg" = Some len
       /\ emitted (self st')
          = emitted (self st) ++ declare_readout ch (num 0) len "input" :: rest)
    (fun _ _ => True).
Proof.
  unfold RabiSweep_johns.initialize.
  repeat (step_run; cbv beta;
          lazymatch goal with
          | |- True => exact I
          | |- exists _, _ =>
              eexists _, _, _; split; [eassumption|]; split; [eassumption|];
              readout_known
          | _ => idtac
          end).
Qed.

Lemma t1_initialize_readout (st : pystate) :
  outcome T1DelaySweep.initialize st
    (fun _ st' => exists len rest,
       cfg (self st) !! "readout_integration_treg" = Some len
       /\ emitted (self st')
          = emitted (self st) ++ declare_readout (num 0) (num 0) len "input" :: rest)
    (fun _ _ => True).
Proof.
  unfold T1DelaySweep.initialize.
  repeat (step_run; cbv beta;
          lazymatch goal with
          | |- True => exact I
          | |- exists _, _ =>
              eexists _, _; split; [eassumption|]; readout_known
          | _ => idtac
          end).
Qed.

(** X16.  The first call of a run of initialize that completes declares the
    readout, at frequency 0, for readout_integration_treg, on the input:
    LockinODMR_johns and RabiSweep_johns declare it on channel adc_channel
    of the configuration; T1DelaySweep declares it on channel 0, whatever
    adc_channel is. *)
Theorem initialize_declares_the_readout (st : pystate) :
  (completes LockinODMR_johns.initialize st ->
   exists ch len rest,
     cfg (self st) !! "adc_channel" = Some ch
     /\ cfg (self st) !! "readout_integration_treg" = Some len
     /\ emitted (self (snd (LockinODMR_johns.initialize st)))
        = emitted (self st) ++ declare_readout ch (num 0) len "input" :: rest)
  /\ (completes RabiSweep_johns.initialize st ->
      exists ch len rest,
        cfg (self st) !! "adc_channel" = Some ch
        /\ cfg (self st) !! "readout_integration_treg" = Some len
        /\ emitted (self (snd (RabiSweep_johns.initialize st)))
           = emitted (self st) ++ declare_readout ch (num 0) len "input" :: rest)
  /\ (completes T1DelaySweep.initialize st ->
      exists len rest,
        cfg (self st) !! "readout_integration_treg" = Some len
        /\ emitted (self (snd (T1DelaySweep.initialize st)))
           = emitted (self st) ++ declare_readout (num 0) (num 0) len "input" :: rest).
Proof.
  split; [|split]; intros Hrun.
  - exact (outcome_completes _ _ (fun st' => exists ch len rest, _ /\ _ /\ emitted (self st') = _)
             (lockin_initialize_readout st) Hrun).
  - exact (outcome_completes _ _ (fun st' => exists ch len rest, _ /\ _ /\ emitted (self st') = _)
             (rabi_initialize_readout st) Hrun).
  - exact (outcome_completes _ _ (fun st' => exists len rest, _ /\ emitted (self st') = _)
             (t1_initialize_readout st) Hrun).
Qed.

Lemma initialize_declares_the_readout_witness :
  let st := {| self := new_program (<["adc_channel" := num 1]> sample_cfg);
               heap := [] |} in
  (exists ch len rest,
     cfg (self st) !! "adc_channel" = Some ch
     /\ cfg (self st) !! "readout_integration_treg" = Some len
     /\ emitted (self (snd (LockinODMR_johns.initialize st)))
        = emitted (self st) ++ declare_readout ch (num 0) len "input" :: rest)
  /\ (exists ch len rest,
        cfg (self st) !! "adc_channel" = Some ch
        /\ cfg (self st) !! "readout_integration_treg" = Some len
        /\ emitted (self (snd (RabiSweep_johns.initialize st)))
           = emitted (self st) ++ declare_readout ch (num 0) len "input" :: rest)
  /\ (exists len rest,
        cfg (self st) !! "readout_integration_treg" = Some len
        /\ emitted (self (snd (T1DelaySweep.initialize st)))
           = emitted (self st) ++ declare_readout (num 0) (num 0) len "input" :: rest).
Proof.
  intros st.
  destruct (initialize_declares_the_readout st) as (Hl & Hr & Ht).
  split; [apply Hl; vm_compute; reflexivity|].
  split; [apply Hr; vm_compute; reflexivity|].
  apply Ht. vm_compute. reflexivity.
Defined.

(** ** What a run of initialize that completes has found *)

Lemma lockin_initialize_reads (st : pystate) :
  outcome LockinODMR_johns.initialize st
    (fun _ _ => lockin_needs (cfg (self st)))
    (fun _ _ => True).
Proof.
  unfold LockinODMR_johns.initialize.
  repeat (step_run; cbv beta;
          lazymatch goal with
          | |- True => exact I
          | |- lockin_needs _ =>
              split; [assumption|];
              split; [flag_known; assumption|];
              split; [reads_known|];
              let Hf := fresh "Hf" in
              intros Hf; flag_known_in Hf;
              first [ congruence | flag_known; eexists; eassumption ]
          | _ => idtac
          end).
Qed.

(** X17.  Taking check_cfg to test that every attribute of required_cfg is
    present: a run of LockinODMR_johns.initialize that completes has found
    every attribute of required_cfg, an mw_gain for which [mw_gain > 30000]
    is false, the attributes mw_start_freg, mw_start_fMHz and mw_end_fMHz,
    which required_cfg does not list, and, when pre_init is true, a
    readout_integration_treg and a relax_delay_treg that can be added. *)
Theorem lockin_initialize_requirements (st : pystate) :
  completes LockinODMR_johns.initialize st -> lockin_needs (cfg (self st)).
Proof.
  intros Hrun.
  exact (outcome_completes _ _ (fun _ => _) (lockin_initialize_reads st) Hrun).
Qed.

Lemma lockin_initialize_requirements_witness :
  let st := {| self := new_program sample_cfg; heap := [] |} in
  completes LockinODMR_johns.initialize st /\ lockin_needs (cfg (self st)).
Proof.
  intros st.
  assert (C : completes LockinODMR_johns.initialize st) by (vm_compute; reflexivity).
  split; [exact C | exact (lockin_initialize_requirements st C)].
Defined.

Lemma rabi_initialize_reads (st : pystate) :
  outcome RabiSweep_johns.initialize st
    (fun _ _ => rabi_needs (cfg (self st)))
    (fun _ _ => True).
Proof.
  unfold RabiSweep_johns.initialize.
  repeat (step_run; cbv beta;
          lazymatch goal with
          | |- True => exact I
          | |- rabi_needs _ =>
              split; [assumption|];
              let Hf := fresh "Hf" in
              intros Hf; flag_known_in Hf;
              first [ congruence | split; eexists; eassumption ]
          | _ => idtac
          end).
Qed.

(** X18.  Taking check_cfg to test that every attribute of required_cfg is
    present: a run of RabiSweep_johns.initialize that completes has found
    every attribute of required_cfg and, when pre_init is true,
    laser_initialize_treg and adc_trigger_offset_treg as well, which
    required_cfg does not list. *)
Theorem rabi_initialize_requirements (st : pystate) :
  completes RabiSweep_johns.initialize st -> rabi_needs (cfg (self st)).
Proof.
  intros Hrun.
  exact (outcome_completes _ _ (fun _ => _) (rabi_initialize_reads st) Hrun).
Qed.

Lemma rabi_initialize_requirements_witness :
  let st := {| self := new_program sample_cfg; heap := [] |} in
  completes RabiSweep_johns.initialize st /\ rabi_needs (cfg (self st)).
Proof.
  intros st.
  assert (C : completes RabiSweep_johns.initialize st) by (vm_compute; reflexivity).
  split; [exact C | exact (rabi_initialize_requirements st C)].
Defined.

Lemma t1_initialize_reads (st : pystate) :
  outcome T1DelaySweep.initialize st
    (fun _ _ => t1_needs (cfg (self st)))
    (fun _ _ => True).
Proof.
  unfold T1DelaySweep.initialize.
  repeat (step_run; cbv beta;
          lazymatch goal with
          | |- True => exact I
          | |- t1_needs _ =>
              split; [assumption|];
              split; [eexists; eassumption|];
              split;
              [ let Hf := fresh "Hf" in
                intros Hf; flag_known_in Hf;
                first [ congruence | eexists; eassumption ]
              | let Hf := fresh "Hf" in
                intros Hf; flag_known_in Hf;
                first [ congruence | flag_known; eexists; eassumption ] ]
          | _ => idtac
          end).
Qed.

(** X19.  Taking check_cfg to test that every attribute of required_cfg is
    present: a run of T1DelaySweep.initialize that completes has found every
    attribute of required_cfg and mw_freg, which required_cfg does not
    list; scaling_factor when scaling_mode is ['exponential']; and, when
    pre_init is true, a laser_on_treg and a relax_delay_treg that can be
    added. *)
Theorem t1_initialize_requirements (st : pystate) :
  completes T1DelaySweep.initialize st -> t1_needs (cfg (self st)).
Proof.
  intros Hrun.
  exact (outcome_completes _ _ (fun _ => _) (t1_initialize_reads st) Hrun).
Qed.

Lemma t1_initialize_requirements_witness :
  let st := {| self := new_program other_cfg; heap := [] |} in
  completes T1DelaySweep.initialize st /\ t1_needs (cfg (self st)).
Proof.
  intros st.
  assert (C : completes T1DelaySweep.initialize st) by (vm_compute; reflexivity).
  split; [exact C | exact (t1_initialize_requirements st C)].
Defined.

(** ** The sweep that a run of initialize registers *)

(** Closes a goal about the sweeps of a state that is known. *)
Ltac sweeps_known :=
  unfold one_more_sweep, lockin_sweep, rabi_sweep, t1_sweep, cfg_value,
    sweep_calls; simpl;
  repeat match goal with
    | H : cfg (self ?st) !! ?k = Some _ |- context [cfg (self ?st) !! ?k] =>
        rewrite H
    end;
  simpl; rewrite ?flat_map_app; simpl; rewrite ?app_nil_r;
  split; reflexivity.

Lemma lockin_initialize_sweep_run (st : pystate) :
  outcome LockinODMR_johns.initialize st
    (fun _ st' => one_more_sweep st (lockin_sweep (cfg (self st))) st')
    (fun _ _ => True).
Proof.
  unfold LockinODMR_johns.initialize.
  repeat (step_run; cbv beta;
          lazymatch goal with
          | |- True => exact I
          | |- one_more_sweep _ _ _ => sweeps_known
          | _ => idtac
          end).
Qed.

Lemma rabi_initialize_sweep_run (st : pystate) :
  outcome RabiSweep_johns.initialize st
    (fun _ st' => one_more_sweep st (rabi_sweep (cfg (self st))) st')
    (fun _ _ => True).
Proof.
  unfold RabiSweep_johns.initialize.
  repeat (step_run; cbv beta;
          lazymatch goal with
          | |- True => exact I
          | |- one_more_sweep _ _ _ => sweeps_known
          | _ => idtac
          end).
Qed.

Lemma t1_initialize_sweep_run (st : pystate) :
  outcome T1DelaySweep.initialize st
    (fun _ st' =>
       if t1_sweeps (cfg (self st))
       then one_more_sweep st (t1_sweep (cfg (self st))) st'
       else qick_sweeps (self st') = qick_sweeps (self st)
            /\ sweep_calls (emitted (self st')) = sweep_calls (emitted (self st)))
    (fun _ _ => True).
Proof.
  unfold T1DelaySweep.initialize.
  repeat (step_run; cbv beta;
          lazymatch goal with
          | |- True => exact I
          | |- (if _ then _ else _) =>
              flag_known;
              repeat match goal with
                | H : ?b = _ |- context [?b] => rewrite H
                end;
              cbn [orb];
              unfold one_more_sweep, t1_sweep, cfg_value, sweep_calls;
              cbn [self qick_sweeps emitted];
              repeat match goal with
                | H : ?c !! ?k = Some _ |- context [?c !! ?k] => rewrite H
                end;
              cbn [default from_option id];
              repeat match goal with
                | H : ?b = _ |- context [?b] => rewrite H
                end;
              rewrite ?flat_map_app; simpl; rewrite ?app_nil_r;
              split; reflexivity
          | _ => idtac
          end).
Qed.

(** C5, as amended.  A run of initialize that completes has registered
    exactly one sweep, both in [qick_sweeps] and among the calls made:
    LockinODMR_johns over the frequency register of the microwave generator
    from mw_start_fMHz to mw_end_fMHz, RabiSweep_johns over the pulse-length
    register from mw_start_treg to mw_end_treg, and T1DelaySweep, when
    scaling_mode is ['exponential'] or ['linear'], over the delay register
    from delay_start_treg to delay_end_treg; each in nsweep_points points.
    With any other scaling_mode a run of T1DelaySweep.initialize that
    completes has registered no sweep. *)
Theorem initialize_registers_one_sweep (st : pystate) :
  (completes LockinODMR_johns.initialize st ->
   one_more_sweep st (lockin_sweep (cfg (self st)))
     (snd (LockinODMR_johns.initialize st)))
  /\ (completes RabiSweep_johns.initialize st ->
      one_more_sweep st (rabi_sweep (cfg (self st)))
        (snd (RabiSweep_johns.initialize st)))
  /\ (completes T1DelaySweep.initialize st ->
      let st' := snd (T1DelaySweep.initialize st) in
      if t1_sweeps (cfg (self st))
      then one_more_sweep st (t1_sweep (cfg (self st))) st'
      else qick_sweeps (self st') = qick_sweeps (self st)
           /\ sweep_calls (emitted (self st')) = sweep_calls (emitted (self st))).
Proof.
  split; [|split]; intros Hrun.
  - exact (outcome_completes _ _ _ (lockin_initialize_sweep_run st) Hrun).
  - exact (outcome_completes _ _ _ (rabi_initialize_sweep_run st) Hrun).
  - exact (outcome_completes _ _ _ (t1_initialize_sweep_run st) Hrun).
Qed.

Lemma initialize_registers_one_sweep_witness :
  let st := {| self := new_program sample_cfg; heap := [] |} in
  (completes LockinODMR_johns.initialize st
   /\ one_more_sweep st (lockin_sweep sample_cfg) (snd (LockinODMR_johns.initialize st)))
  /\ (completes RabiSweep_johns.initialize st
      /\ one_more_sweep st (rabi_sweep sample_cfg) (snd (RabiSweep_johns.initialize st)))
  /\ (completes T1DelaySweep.initialize st
      /\ t1_sweeps sample_cfg = true
      /\ one_more_sweep st (t1_sweep sample_cfg) (snd (T1DelaySweep.initialize st))).
Proof.
  intros st.
  destruct (initialize_registers_one_sweep st) as (Hl & Hr & Ht).
  assert (Cl : completes LockinODMR_johns.initialize st) by (vm_compute; reflexivity).
  assert (Cr : completes RabiSweep_johns.initialize st) by (vm_compute; reflexivity).
  assert (Ct : completes T1DelaySweep.initialize st) by (vm_compute; reflexivity).
  split; [split; [exact Cl | exact (Hl Cl)]|].
  split; [split; [exact Cr | exact (Hr Cr)]|].
  split; [exact Ct|]. split; [reflexivity|]. exact (Ht Ct).
Defined.

(** C5, as stated, fails.  With every attribute of required_cfg present:
    LockinODMR_johns.initialize registers no sweep when mw_gain exceeds
    30000, and none when the configuration has the attributes of
    required_cfg and no others, since it reads mw_start_freg;
    T1DelaySweep.initialize runs to its end without registering a sweep when
    scaling_mode is neither ['exponential'] nor ['linear']. *)
Lemma initialize_without_sweep :
  let high := {| self := new_program (<["mw_gain" := num 31000]> sample_cfg);
                 heap := [] |} in
  let bare :=
    {| self := new_program
                 (list_to_map (map (fun k => (k, cfg_value sample_cfg k))
                                   LockinODMR_johns.required_cfg));
       heap := [] |} in
  let other := {| self := new_program (<["scaling_mode" := VStr "quadratic"]> sample_cfg);
                  heap := [] |} in
  (forallb (fun k => bool_decide (is_Some (cfg (self high) !! k)))
     LockinODMR_johns.required_cfg = true
   /\ fst (LockinODMR_johns.initialize high) = Raise AssertionError
   /\ qick_sweeps (self (snd (LockinODMR_johns.initialize high))) = [])
  /\ (forallb (fun k => bool_decide (is_Some (cfg (self bare) !! k)))
        LockinODMR_johns.required_cfg = true
      /\ fst (LockinODMR_johns.initialize bare) = Raise AttributeError
      /\ qick_sweeps (self (snd (LockinODMR_johns.initialize bare))) = [])
  /\ (forallb (fun k => bool_decide (is_Some (cfg (self other) !! k)))
        T1DelaySweep.required_cfg = true
      /\ fst (T1DelaySweep.initialize other) = Ok tt
      /\ qick_sweeps (self (snd (T1DelaySweep.initialize other))) = []).
Proof.
  intros high bare other. repeat split; vm_compute; reflexivity.
Qed.

(** ** initialize, then analyze_results *)

(** X20.  On a program that has no sweep yet, once initialize has completed,
    analyze_results labels an acquisition with the sweep that initialize
    registered: the [frequencies] of LockinODMR_johns are the points of the
    sweep of the frequency register from mw_start_fMHz to mw_end_fMHz, and
    the [sweep_treg] of RabiSweep_johns the points of the sweep of the
    length register from mw_start_treg to mw_end_treg, [sweep_tus] being
    these points times [cycles2us(1)]. *)
Theorem analyze_results_labels_with_the_registered_sweep `{!qick} (a : ndarray)
    (st : pystate) (lead : list nat) (n L : nat) (tv : value) (t : Qc) :
  qick_sweeps (self st) = [] ->
  allocated st a ->
  data_shape (self st) = lead ++ [n; L] ->
  length lead <= 2 ->
  2 <= L ->
  size a = prod_list (data_shape (self st)) ->
  cfg (self st) !! "readout_integration_treg" = Some tv ->
  as_number tv = Ok t ->
  (completes LockinODMR_johns.initialize st ->
   exists d st' f,
     LockinODMR_johns.analyze_results a (snd (LockinODMR_johns.initialize st))
     = (Ok d, st')
     /\ d !! "frequencies" = Some f
     /\ contents (heap st') f = get_sweep_pts (lockin_sweep (cfg (self st))))
  /\ (completes RabiSweep_johns.initialize st ->
      exists d st' x y,
        RabiSweep_johns.analyze_results a (snd (RabiSweep_johns.initialize st))
        = (Ok d, st')
        /\ d !! "sweep_treg" = Some x
        /\ d !! "sweep_tus" = Some y
        /\ contents (heap st') x = get_sweep_pts (rabi_sweep (cfg (self st)))
        /\ contents (heap st') y
           = map (fun e => (e * cycles2us 1)%Qc)
                 (get_sweep_pts (rabi_sweep (cfg (self st))))).
Proof.
  intros Hnone Ha Hsh Hlead HL Hsz Htv Ht.
  assert (Hready : forall st1 sw,
             only_grows st st1 -> one_more_sweep st sw st1 ->
             allocated st1 a
             /\ data_shape (self st1) = lead ++ [n; L]
             /\ size a = prod_list (data_shape (self st1))
             /\ cfg (self st1) !! "readout_integration_treg" = Some tv
             /\ qick_sweeps (self st1) = [sw]).
  { intros st1 sw (Hc & Hd & Hh & _) [Hq _].
    unfold allocated. rewrite Hh, Hd, Hc, Hq, Hnone. auto. }
  split; intros Hrun.
  - pose proof (outcome_snd _ _ _ (lockin_initialize_only_grows st)) as Hg.
    pose proof (outcome_completes _ _ _ (lockin_initialize_sweep_run st) Hrun) as Hs.
    destruct (Hready _ _ Hg Hs) as (Ha1 & Hsh1 & Hsz1 & Htv1 & Hsw1).
    pose proof (lockin_analyze_run a _ lead n L tv t _ []
                  Ha1 Hsh1 Hlead HL Hsz1 Htv1 Ht Hsw1) as Hl.
    apply returns_inv in Hl.
    destruct Hl as (d & st' & Hd & _ & (ao & asig & aref & ac & af & -> & _ & _ & _ & _ & Hf)).
    eexists _, st', af. split; [exact Hd|]. split; [reflexivity|].
    destruct Hf as [_ (_ & _ & Cf)]. exact Cf.
  - pose proof (outcome_snd _ _ _ (rabi_initialize_only_grows st)) as Hg.
    pose proof (outcome_completes _ _ _ (rabi_initialize_sweep_run st) Hrun) as Hs.
    destruct (Hready _ _ Hg Hs) as (Ha1 & Hsh1 & Hsz1 & Htv1 & Hsw1).
    pose proof (rabi_analyze_run a _ lead n L tv t _ []
                  Ha1 Hsh1 Hlead HL Hsz1 Htv1 Ht Hsw1) as Hr.
    apply returns_inv in Hr.
    destruct Hr as (d & st' & Hd & _ & (bs & br & bc & b1 & b2 & -> & _ & _ & _ & H1 & H2)).
    eexists _, st', b1, b2. split; [exact Hd|].
    split; [reflexivity|]. split; [reflexivity|].
    destruct H1 as [_ (_ & _ & C1)], H2 as [_ (_ & _ & C2)]. split; assumption.
Qed.

Lemma analyze_results_labels_with_the_registered_sweep_witness :
  let st := state_with sample_cfg [2; 2; 2] [] sample_data in
  (exists d st' f,
     @LockinODMR_johns.analyze_results sample_lib (acquired 8)
       (snd (LockinODMR_johns.initialize st)) = (Ok d, st')
     /\ d !! "frequencies" = Some f
     /\ contents (heap st') f
        = @get_sweep_pts sample_lib (lockin_sweep (cfg (self st))))
  /\ (exists d st' x y,
        @RabiSweep_johns.analyze_results sample_lib (acquired 8)
          (snd (RabiSweep_johns.initialize st)) = (Ok d, st')
        /\ d !! "sweep_treg" = Some x
        /\ d !! "sweep_tus" = Some y
        /\ contents (heap st') x
           = @get_sweep_pts sample_lib (rabi_sweep (cfg (self st)))
        /\ contents (heap st') y
           = map (fun e => (e * @cycles2us sample_lib 1)%Qc)
                 (@get_sweep_pts sample_lib (rabi_sweep (cfg (self st))))).
Proof.
  intros st.
  assert (Ha : allocated st (acquired 8)) by (unfold allocated; simpl; lia).
  destruct (@analyze_results_labels_with_the_registered_sweep sample_lib
              (acquired 8) st [2] 2 2 (num 2) (Qc_of_Z 2)
              eq_refl Ha eq_refl ltac:(simpl; lia) ltac:(lia) eq_refl eq_refl eq_refl)
    as [Hl Hr].
  split; [apply Hl; vm_compute; reflexivity | apply Hr; vm_compute; reflexivity].
Defined.

(** * acquire of T1DelaySweep *)

Lemma Qcmult_minus_one (e : Qc) : (e * Qc_of_Z (-1) = - e)%Qc.
Proof.
  replace (Qc_of_Z (-1)) with (- (1))%Qc by (apply Qc_is_canon; reflexivity).
  ring.
Qed.

(** X21.  When a call of T1DelaySweep.acquire does not pass reads_per_rep
    itself and leaves raw_data at [False], and the parent's acquire and
    analyze_pulse_sequence_results return: acquire returns the parent's
    [ItemAttribute] with [contrast] bound to a new array, of the shape of
    the parent's contrast and holding the opposite of each of its entries;
    the other attributes are the parent's, and the array that held the
    parent's contrast is left as it was. *)
Theorem t1_acquire_negates_the_contrast `{!NVAveragerProgram} (arg : list value)
    (kwarg : gmap string value) (st st1 st2 : pystate) (data c : ndarray)
    (d : ItemAttribute) :
  kwarg !! "reads_per_rep" = None ->
  let kw := <["reads_per_rep" := num 4]> kwarg in
  let st0 := {| self := with_emitted (parent_acquire arg kw) (self st);
                heap := heap st |} in
  nv_acquire arg kw st0 = (Ok data, st1) ->
  analyze_pulse_sequence_results data st1 = (Ok d, st2) ->
  d !! "contrast" = Some c ->
  allocated st2 c ->
  exists c' st',
    T1DelaySweep.acquire (VBool false) arg kwarg st
    = (Ok (Attrs (<["contrast" := c']> d)), st')
    /\ extends st2 st'
    /\ base c' = length (heap st2)
    /\ shape c' = shape c
    /\ contents (heap st') c' = map Qcopp (contents (heap st2) c)
    /\ contents (heap st') c = contents (heap st2) c.
Proof.
  intros Hkw kw st0 Hacq Hana Hc Ha.
  set (neg := map (fun e => (e * Qc_of_Z (-1))%Qc) (contents (heap st2) c)).
  exists (fresh_at (length (heap st2)) (shape c)), (allocate st2 [neg]).
  split; [|split; [|split; [|split; [|split]]]].
  - unfold T1DelaySweep.acquire. rewrite Hkw. fold kw.
    unfold mbind, M_bind, emit, modify_self. fold st0. rewrite Hacq.
    cbn [is_False]. rewrite Hana. unfold item. rewrite Hc.
    reflexivity.
  - apply extends_allocate.
  - reflexivity.
  - unfold shape, fresh_at. simpl. apply shape_c_dims.
  - unfold allocate, fresh_at. cbn [heap].
    rewrite contents_new.
    + unfold neg. apply map_ext. intros e. apply Qcmult_minus_one.
    + unfold neg. rewrite length_map. apply length_contents.
  - unfold allocate. cbn [heap]. apply contents_app. exact Ha.
Qed.

Lemma t1_acquire_negates_the_contrast_witness :
  let st := {| self := new_program sample_cfg; heap := [] |} in
  let kw : gmap string value := <["reads_per_rep" := num 4]> ∅ in
  let st0 := {| self := with_emitted (parent_acquire [] kw) (self st);
                heap := heap st |} in
  let data := fresh_at 0 [4] in
  let c := fresh_at 1 [4] in
  let d : ItemAttribute := <["contrast" := c]> ∅ in
  let st2 := snd (@analyze_pulse_sequence_results sample_parent data
                    (snd (@nv_acquire sample_parent [] kw st0))) in
  exists c' st',
    @T1DelaySweep.acquire sample_parent (VBool false) [] ∅ st
    = (Ok (Attrs (<["contrast" := c']> d)), st')
    /\ extends st2 st'
    /\ base c' = length (heap st2)
    /\ shape c' = shape c
    /\ contents (heap st') c' = map Qcopp (contents (heap st2) c)
    /\ contents (heap st') c = contents (heap st2) c.
Proof.
  intros st kw st0 data c d st2.
  apply (@t1_acquire_negates_the_contrast sample_parent [] ∅ st
           (snd (@nv_acquire sample_parent [] kw st0)) st2 data c d).
  - reflexivity.
  - reflexivity.
  - reflexivity.
  - reflexivity.
  - unfold allocated. simpl. lia.
Defined.

(** X22.  A call of T1DelaySweep.acquire that passes reads_per_rep itself
    raises a TypeError in the state it started from, with nothing asked of
    the parent.  Otherwise the parent's acquire is asked for four reads per
    repetition; when it fails so does acquire; when raw_data is anything but
    [False], [None] or [0] included, acquire returns the acquired array as it
    is; and when raw_data is [False] and the parent's analysis has no
    [contrast], acquire raises an AttributeError. *)
Theorem t1_acquire_edge_cases `{!NVAveragerProgram} (raw_data : value)
    (arg : list value) (kwarg : gmap string value) (st : pystate) :
  (is_Some (kwarg !! "reads_per_rep") ->
   T1DelaySweep.acquire raw_data arg kwarg st = (Raise TypeError, st))
  /\ (kwarg !! "reads_per_rep" = None ->
      let kw := <["reads_per_rep" := num 4]> kwarg in
      let st0 := {| self := with_emitted (parent_acquire arg kw) (self st);
                    heap := heap st |} in
      (forall e st1,
          nv_acquire arg kw st0 = (Raise e, st1) ->
          T1DelaySweep.acquire raw_data arg kwarg st = (Raise e, st1))
      /\ (forall data st1,
             nv_acquire arg kw st0 = (Ok data, st1) ->
             (raw_data <> VBool false ->
              T1DelaySweep.acquire raw_data arg kwarg st = (Ok (Array data), st1))
             /\ (forall d st2,
                    raw_data = VBool false ->
                    analyze_pulse_sequence_results data st1 = (Ok d, st2) ->
                    d !! "contrast" = None ->
                    T1DelaySweep.acquire raw_data arg kwarg st
                    = (Raise AttributeError, st2)))).
Proof.
  split.
  - intros [v Hv]. unfold T1DelaySweep.acquire. rewrite Hv. reflexivity.
  - intros Hkw kw st0.
    unfold T1DelaySweep.acquire. rewrite Hkw. fold kw.
    unfold mbind, M_bind, emit, modify_self. fold st0.
    split.
    + intros e st1 Hacq. rewrite Hacq. reflexivity.
    + intros data st1 Hacq. rewrite Hacq. split.
      * intros Hraw.
        assert (Hf : is_False raw_data = false).
        { destruct raw_data as [|[|]| |]; try reflexivity. contradiction. }
        rewrite Hf. reflexivity.
      * intros d st2 -> Hana Hc. cbn [is_False]. rewrite Hana.
        unfold item. rewrite Hc. reflexivity.
Qed.

Lemma t1_acquire_edge_cases_witness :
  let st := {| self := new_program sample_cfg; heap := [] |} in
  let kw : gmap string value := <["reads_per_rep" := num 4]> ∅ in
  let st0 := {| self := with_emitted (parent_acquire [] kw) (self st);
                heap := heap st |} in
  @T1DelaySweep.acquire sample_parent (VBool false) []
    {[ "reads_per_rep" := num 2 ]} st = (Raise TypeError, st)
  /\ @T1DelaySweep.acquire sample_parent (num 0) [] ∅ st
     = (Ok (Array (fresh_at 0 [4])), snd (@nv_acquire sample_parent [] kw st0))
  /\ @T1DelaySweep.acquire sample_parent VNone [] ∅ st
     = (Ok (Array (fresh_at 0 [4])), snd (@nv_acquire sample_parent [] kw st0))
  /\ @T1DelaySweep.acquire bare_parent (VBool false) [] ∅ st
     = (Raise AttributeError, snd (@nv_acquire bare_parent [] kw st0)).
Proof.
  intros st kw st0. split; [|split; [|split]].
  - apply (proj1 (@t1_acquire_edge_cases sample_parent (VBool false) []
                    {[ "reads_per_rep" := num 2 ]} st)).
    vm_compute. eauto.
  - destruct (@t1_acquire_edge_cases sample_parent (num 0) [] ∅ st) as [_ Hrun].
    destruct (Hrun ltac:(reflexivity)) as [_ Hraw].
    apply (Hraw (fresh_at 0 [4]) (snd (@nv_acquire sample_parent [] kw st0))).
    + reflexivity.
    + discriminate.
  - destruct (@t1_acquire_edge_cases sample_parent VNone [] ∅ st) as [_ Hrun].
    destruct (Hrun ltac:(reflexivity)) as [_ Hraw].
    apply (Hraw (fresh_at 0 [4]) (snd (@nv_acquire sample_parent [] kw st0))).
    + reflexivity.
    + discriminate.
  - destruct (@t1_acquire_edge_cases bare_parent (VBool false) [] ∅ st) as [_ Hrun].
    destruct (Hrun ltac:(reflexivity)) as [_ Hraw].
    destruct (Hraw (fresh_at 0 [4]) (snd (@nv_acquire bare_parent [] kw st0))
                ltac:(reflexivity)) as [_ Hnone].
    apply (Hnone ∅); reflexivity.
Defined.

(** * The time estimates of LockinODMR_johns *)

(** X23.  When time_per_rep returns, it has changed nothing,
    readout_integration_tus, relax_delay_tus and nsweep_points are present
    and are numbers (a bool counts as one), and what it returns is, in exact
    arithmetic,
    [2 * (readout_integration_tus + relax_delay_tus) * nsweep_points / 10**6];
    when total_time returns, reps is a number as well and what it returns is
    that value times reps. *)
Theorem time_estimates_value (st st' : pystate) (q : Qc) :
  (LockinODMR_johns.time_per_rep st = (Ok q, st') ->
   st' = st
   /\ exists va vb vn a b n,
        cfg (self st) !! "readout_integration_tus" = Some va
        /\ cfg (self st) !! "relax_delay_tus" = Some vb
        /\ cfg (self st) !! "nsweep_points" = Some vn
        /\ as_number va = Ok a /\ as_number vb = Ok b /\ as_number vn = Ok n
        /\ q = (Qc_of_Z 2 * (a + b) * n / Qc_of_Z 1000000)%Qc)
  /\ (LockinODMR_johns.total_time st = (Ok q, st') ->
      st' = st
      /\ exists va vb vn vr a b n r,
           cfg (self st) !! "readout_integration_tus" = Some va
           /\ cfg (self st) !! "relax_delay_tus" = Some vb
           /\ cfg (self st) !! "nsweep_points" = Some vn
           /\ cfg (self st) !! "reps" = Some vr
           /\ as_number va = Ok a /\ as_number vb = Ok b
           /\ as_number vn = Ok n /\ as_number vr = Ok r
           /\ q = (Qc_of_Z 2 * (a + b) * n / Qc_of_Z 1000000 * r)%Qc).
Proof.
  unfold LockinODMR_johns.total_time, LockinODMR_johns.time_per_rep,
    mbind, M_bind, attr, lift.
  split.
  - intros H.
    destruct (cfg (self st) !! "readout_integration_tus") as [va|] eqn:Ha;
      [|discriminate H].
    destruct va as [|ba|a|sa]; cbn [py_mul_int as_number] in H; try discriminate H;
      (destruct (cfg (self st) !! "relax_delay_tus") as [vb|] eqn:Hb;
       [|discriminate H]);
      (destruct vb as [|bb|b|sb]; cbn [py_mul_int py_add as_number] in H;
       try discriminate H);
      (destruct (cfg (self st) !! "nsweep_points") as [vn|] eqn:Hn;
       [|discriminate H]);
      (destruct vn as [|bn|n|sn];
       cbn [py_div_float py_mul_float as_number] in H; try discriminate H);
      injection H as <- <-; (split; [reflexivity|]);
      eexists _, _, _, _, _, _;
      repeat (split; [reflexivity|]);
      unfold Qcdiv; ring.
  - intros H.
    destruct (cfg (self st) !! "readout_integration_tus") as [va|] eqn:Ha;
      [|discriminate H].
    destruct va as [|ba|a|sa]; cbn [py_mul_int as_number] in H; try discriminate H;
      (destruct (cfg (self st) !! "relax_delay_tus") as [vb|] eqn:Hb;
       [|discriminate H]);
      (destruct vb as [|bb|b|sb]; cbn [py_mul_int py_add as_number] in H;
       try discriminate H);
      (destruct (cfg (self st) !! "nsweep_points") as [vn|] eqn:Hn;
       [|discriminate H]);
      (destruct vn as [|bn|n|sn];
       cbn [py_div_float py_mul_float as_number] in H; try discriminate H);
      (destruct (cfg (self st) !! "reps") as [vr|] eqn:Hr; [|discriminate H]);
      (destruct vr as [|br|r|sr]; cbn [py_float_mul as_number] in H;
       try discriminate H);
      injection H as <- <-; (split; [reflexivity|]);
      eexists _, _, _, _, _, _, _, _;
      repeat (split; [reflexivity|]);
      unfold Qcdiv; ring.
Qed.

Lemma time_estimates_value_witness :
  let st := {| self := new_program timed_cfg; heap := [] |} in
  exists q,
    LockinODMR_johns.total_time st = (Ok q, st)
    /\ q = (Qc_of_Z 2 * (Qc_of_Z 3 + Qc_of_Z 7) * Qc_of_Z 2 / Qc_of_Z 1000000
            * Qc_of_Z 2)%Qc.
Proof.
  intros st.
  destruct (LockinODMR_johns.total_time st) as [[q|e] st'] eqn:Hrun;
    [|vm_compute in Hrun; discriminate Hrun].
  destruct (proj2 (time_estimates_value st st' q) Hrun)
    as (-> & va & vb & vn & vr & a & b & n & r
        & Ha & Hb & Hn & Hr & Ha' & Hb' & Hn' & Hr' & ->).
  exists (Qc_of_Z 2 * (a + b) * n / Qc_of_Z 1000000 * r)%Qc.
  split; [reflexivity|].
  vm_compute in Ha, Hb, Hn, Hr.
  injection Ha as <-. injection Hb as <-. injection Hn as <-. injection Hr as <-.
  cbn [as_number] in Ha', Hb', Hn', Hr'.
  injection Ha' as <-. injection Hb' as <-. injection Hn' as <-. injection Hr' as <-.
  reflexivity.
Defined.
